(** * E-commerce sample data generator: a shallow embedding

    The program under study is [src/data/generate_sample_data.py]: a
    class [EcommerceDataGenerator] with three table generators, a
    quality-issue injector and an orchestrator that writes six CSV files.

    The embedding follows the Python text:
    - Python [float] and [numpy.float64] values are IEEE-754 binary64
      numbers, modelled in [Binary64] as the rationals they denote together
      with the round-to-nearest-even function applied after every operation;
      the two zeros are one value;
    - the two pseudo random generators ([random] and [numpy.random]) are
      tapes of raw draws; every sampling primitive maps a raw draw into its
      range, so that a statement about all tapes covers all seeds, the
      seed 42 that the module sets when it is loaded among them;
    - data frames are heap objects, addressed by location, because
      [add_data_quality_issues] assigns into a frame in place; a cell is a
      string, a number or a timestamp, and the storage type of a column
      ([int64] against [float64]) is not modelled: a number is its binary64
      value, so a table of integers is covered as far as its values and
      the results of the arithmetic on them are binary64 numbers; column
      labels may repeat, as pandas allows;
    - exceptions are a sum type threaded by a small state/error monad; a run
      that raises has no final state;
    - the exponential variates are numbers that are not negative, zero
      included; the weights of the customers are these variates divided by
      their sum, kept as exact rationals, and NaN where numpy divides zero
      by zero: they are only handed to [numpy.random.choice], which is
      modelled on rationals too;
    - the disk is the tree below the working directory: a directory or a
      file is the list of names that leads to it, [os.makedirs] creates the
      directories on the way, and fails on the empty path or on a file in
      the way;
    - [Unmodelled] is the outcome of a run that leaves what is modelled (a
      row lookup under a repeated label, a path out of the working
      directory): it is no exception of Python, and nothing is stated about
      such a run;
    - [print] is left out. *)

From Stdlib Require Import ZArith QArith Qround Qpower Qabs Qreduction Lia Lqa.
From Stdlib Require Import Ascii DecimalString DecimalNat.
From stdpp Require Import base tactics option list strings gmap.

(** ** Binary64 arithmetic *)

Module Binary64.

Local Open Scope Q_scope.

(** A binary64 datum.  The two zeros are identified. *)
Inductive float : Type :=
| Finite (q : Q)
| Infinity (negative : bool)
| NaN.

Definition pow2 (e : Z) : Q := 2 ^ e.

(** [ilog2 x] is the binade of a positive [x]: [2^(ilog2 x) <= x < 2^(ilog2 x + 1)]. *)
Definition ilog2 (x : Q) : Z :=
  let e := (Z.log2 (Qnum x) - Z.log2 (Zpos (Qden x)))%Z in
  if Qle_bool (pow2 e) x then e else (e - 1)%Z.

(** Round to the nearest integer, ties to even. *)
Definition rne (x : Q) : Z :=
  let f := Qfloor x in
  match Qcompare (x - inject_Z f) (1 # 2) with
  | Lt => f
  | Gt => (f + 1)%Z
  | Eq => if Z.even f then f else (f + 1)%Z
  end.

(** Exponent of the last place: 53 significant bits, subnormals at 2^-1074. *)
Definition cexp (x : Q) : Z := Z.max (ilog2 x - 52) (-1074).

Definition round_pos (x : Q) : Q :=
  inject_Z (rne (x / pow2 (cexp x))) * pow2 (cexp x).

Definition round_fin (x : Q) : Q :=
  match Qnum x with
  | Z0 => 0
  | Zpos _ => round_pos x
  | Zneg _ => - round_pos (- x)
  end.

(** The rounding applied to the exact result of every operation. *)
Definition rnd (x : Q) : float :=
  let r := round_fin x in
  if Qle_bool (pow2 1024) (Qabs r) then Infinity (negb (Qle_bool 0 x))
  else Finite (Qred r).

Definition of_Z (z : Z) : float := rnd (inject_Z z).

Definition is_neg (x : Q) : bool := negb (Qle_bool 0 x).
Definition is_zero (x : Q) : bool := Qeq_bool x 0.

Definition fmul (a b : float) : float :=
  match a, b with
  | NaN, _ | _, NaN => NaN
  | Finite x, Finite y => rnd (x * y)
  | Infinity s, Finite y | Finite y, Infinity s =>
      if is_zero y then NaN else Infinity (xorb s (is_neg y))
  | Infinity s, Infinity t => Infinity (xorb s t)
  end.

Definition fadd (a b : float) : float :=
  match a, b with
  | NaN, _ | _, NaN => NaN
  | Finite x, Finite y => rnd (x + y)
  | Infinity s, Finite _ | Finite _, Infinity s => Infinity s
  | Infinity s, Infinity t => if Bool.eqb s t then Infinity s else NaN
  end.

Definition fopp (a : float) : float :=
  match a with
  | NaN => NaN
  | Finite x => Finite (Qred (- x))
  | Infinity s => Infinity (negb s)
  end.

Definition fsub (a b : float) : float := fadd a (fopp b).

Definition fdiv (a b : float) : float :=
  match a, b with
  | NaN, _ | _, NaN => NaN
  | Finite x, Finite y =>
      if is_zero y then (if is_zero x then NaN else Infinity (is_neg x))
      else rnd (x / y)
  | Infinity s, Finite y => Infinity (xorb s (is_neg y))
  | Finite _, Infinity _ => Finite 0
  | Infinity _, Infinity _ => NaN
  end.

(** [x < y] and [x > y] on floats; any comparison with NaN is false. *)
Definition flt (a b : float) : bool :=
  match a, b with
  | NaN, _ | _, NaN => false
  | Finite x, Finite y => negb (Qle_bool y x)
  | Infinity s, Finite _ => s
  | Finite _, Infinity t => negb t
  | Infinity s, Infinity t => s && negb t
  end.

Definition fgt (a b : float) : bool := flt b a.

(** [rint]: the nearest integer, ties to even, as a float. *)
Definition rint (a : float) : float :=
  match a with
  | Finite x => rnd (inject_Z (rne x))
  | _ => a
  end.

(** Python's [round(x, 2)] on a [float]: the exact value is rounded to two
    decimals (ties to even) and the decimal is converted back. *)
Definition py_round2 (a : float) : float :=
  match a with
  | Finite x => rnd (inject_Z (rne (x * 100)) / 100)
  | _ => a
  end.

(** [round(x, 2)] on a [numpy.float64]: numpy multiplies by 100, calls
    [rint] and divides by 100, each step rounded. *)
Definition np_round2 (a : float) : float :=
  fdiv (rint (fmul a (Finite 100))) (Finite 100).

(** A decimal literal [n/d] as the parser reads it. *)
Definition lit (n : Z) (d : positive) : float := rnd (n # d).

End Binary64.

(** ** Data frames *)

Module Pandas.

Import Binary64.

(** What a cell of a frame holds: a string, a number or a timestamp
    (minutes since 0001-01-01, day 1 of the proleptic ordinal).  Integer and
    floating columns are not told apart: a number is its binary64 value. *)
Inductive cell : Type :=
| CStr (s : string)
| CNum (x : float)
| CDate (minutes : Z).

(** [np.nan], the missing value. *)
Definition nan : cell := CNum NaN.

Definition row : Type := list cell.

Record DataFrame : Type := mkDataFrame {
  columns : list string;
  rows : list row
}.

Definition len (df : DataFrame) : nat := length (rows df).

Inductive exn : Type :=
| KeyError | ValueError | TypeError | IndexError | OverflowError | OSError
| FileNotFoundError | FileExistsError | NotADirectoryError | IsADirectoryError
| Unmodelled.

Definition result (A : Type) : Type := (exn + A)%type.

Fixpoint column_index (c : string) (cols : list string) : option nat :=
  match cols with
  | [] => None
  | c' :: cols' => if String.eqb c' c then Some 0%nat else S <$> column_index c cols'
  end.

(** How many columns carry the label [c]: pandas allows a label to repeat. *)
Definition occurrences (c : string) (cols : list string) : nat :=
  length (filter (fun c' => String.eqb c' c = true) cols).

(** [r[c]] on a row taken out of a frame with columns [cols]: the cell under
    the label, [KeyError] without such a label.  Under a repeated label
    pandas hands out the Series of the cells under it; what the arithmetic
    and the frame constructor of [generate_transactions] make of a Series
    is not modelled, and the lookup ends the run as [Unmodelled]. *)
Definition row_getitem (cols : list string) (r : row) (c : string) : result cell :=
  match column_index c cols with
  | None => inl KeyError
  | Some j =>
      if Nat.eqb (occurrences c cols) 1 then inr (default nan (r !! j))
      else inl Unmodelled
  end.

(** The cells of [r] that stand under the label [c]. *)
Fixpoint labelled (cols : list string) (c : string) (r : row) : row :=
  match cols, r with
  | c' :: cols', x :: r' =>
      if String.eqb c' c then x :: labelled cols' c r' else labelled cols' c r'
  | _, _ => []
  end.

(** What [df[c]] is: a Series, or, under a repeated label, the frame of the
    columns that carry it. *)
Inductive selection : Type :=
| Series (cells : list cell)
| SubFrame (df : DataFrame).

(** [df[c]] *)
Definition getitem (df : DataFrame) (c : string) : result selection :=
  match column_index c (columns df) with
  | None => inl KeyError
  | Some j =>
      if Nat.eqb (occurrences c (columns df)) 1
      then inr (Series ((fun r : row => default nan (r !! j)) <$> rows df))
      else inr (SubFrame (mkDataFrame (filter (fun c' => String.eqb c' c = true) (columns df))
                            (labelled (columns df) c <$> rows df)))
  end.

(** The array [np.random.choice] makes of its first argument: it has to be
    one-dimensional. *)
Definition array_1d (a : selection) : result (list cell) :=
  match a with
  | Series cells => inr cells
  | SubFrame _ => inl ValueError
  end.

(** [pd.DataFrame({c1: l1, ...})]: the arrays must agree in length. *)
Definition DataFrame_of_columns (cols : list (string * list cell)) : result DataFrame :=
  match cols with
  | [] => inr (mkDataFrame [] [])
  | (_, l0) :: _ =>
      let n := length l0 in
      if forallb (fun cl : string * list cell => Nat.eqb (length cl.2) n) cols
      then inr (mkDataFrame (fst <$> cols)
                  ((fun i : nat => (fun cl : string * list cell => default nan (cl.2 !! i)) <$> cols)
                     <$> seq 0 n))
      else inl ValueError
  end.

(** [pd.DataFrame(records)] for records that all carry the keys [cols] in
    this order; an empty list gives the frame without columns. *)
Definition DataFrame_of_records (cols : list string) (records : list row) : DataFrame :=
  match records with
  | [] => mkDataFrame [] []
  | _ => mkDataFrame cols records
  end.

(** [df.copy()] *)
Definition copy (df : DataFrame) : DataFrame := mkDataFrame (columns df) (rows df).

(** The assignment [df.loc[mask, col] = v] on the value of the frame: in the
    rows selected by [mask], every column labelled [col] receives [v]. *)
Fixpoint set_row (cols : list string) (col : string) (v : cell) (r : row) : row :=
  match r, cols with
  | x :: r', c :: cols' => (if String.eqb c col then v else x) :: set_row cols' col v r'
  | _, _ => r
  end.

Fixpoint set_rows (cols : list string) (col : string) (v : cell)
    (mask : list bool) (rs : list row) : list row :=
  match rs, mask with
  | r :: rs', b :: mask' =>
      (if b then set_row cols col v r else r) :: set_rows cols col v mask' rs'
  | _, _ => rs
  end.

Definition loc_set (df : DataFrame) (mask : list bool) (col : string) (v : cell) : DataFrame :=
  mkDataFrame (columns df) (set_rows (columns df) col v mask (rows df)).

(** [pd.concat([a, b], ignore_index=True)] for frames with the same columns. *)
Definition concat (a b : DataFrame) : DataFrame :=
  mkDataFrame (columns a) (rows a ++ rows b).

(** The rows at the given positions, in that order. *)
Definition take (df : DataFrame) (idx : list nat) : DataFrame :=
  mkDataFrame (columns df) (omap (fun i : nat => rows df !! i) idx).

End Pandas.

(** ** The interpreter state: two random generators, the heap, the disk *)

Module Runtime.

Import Binary64 Pandas.

(** A pseudo random generator is the tape of raw draws it is going to
    deliver and the position reached.  Each sampling function below maps a
    raw draw into its own range, so every outcome of the real generator is
    the outcome of some tape. *)
Record tape : Type := mkTape { raw : nat -> N; cursor : nat }.

Definition loc : Type := nat.

(** A place below the working directory: the names that lead to it. *)
Definition position : Type := list string.

Record world : Type := mkWorld {
  py_random : tape;                     (* the [random] module *)
  np_random : tape;                     (* [numpy.random] *)
  heap : gmap loc DataFrame;            (* frames that are bound to a name *)
  dirs : gset position;                 (* directories that exist *)
  files : gmap position DataFrame       (* CSV files: the table written *)
}.

Definition M (A : Type) : Type := world -> result (A * world).

Definition ret {A} (x : A) : M A := fun w => inr (x, w).

Definition bind {A B} (m : M A) (k : A -> M B) : M B :=
  fun w => match m w with
           | inl e => inl e
           | inr (x, w') => k x w'
           end.

Definition raise {A} (e : exn) : M A := fun _ => inl e.

Definition lift {A} (r : result A) : M A :=
  fun w => match r with inl e => inl e | inr x => inr (x, w) end.

Declare Scope prog_scope.
Delimit Scope prog_scope with prog.
Notation "x <- m ;; k" := (bind m (fun x => k))
  (at level 100, m at next level, right associativity) : prog_scope.
Local Open Scope prog_scope.

Fixpoint forM {A B} (l : list A) (f : A -> M B) : M (list B) :=
  match l with
  | [] => ret []
  | x :: l' => y <- f x ;; ys <- forM l' f ;; ret (y :: ys)
  end.

Definition replicateM {A} (n : nat) (m : M A) : M (list A) :=
  forM (seq 0 n) (fun _ => m).

(** [range(n)] *)
Definition range (n : Z) : list nat := seq 0 (Z.to_nat n).

(** *** Raw draws *)

Definition py_next : M N :=
  fun w =>
    let t := py_random w in
    inr (raw t (cursor t),
         mkWorld (mkTape (raw t) (S (cursor t))) (np_random w) (heap w) (dirs w) (files w)).

Definition np_next : M N :=
  fun w =>
    let t := np_random w in
    inr (raw t (cursor t),
         mkWorld (py_random w) (mkTape (raw t) (S (cursor t))) (heap w) (dirs w) (files w)).

(** A float of [[0, 1)]: a multiple of 2^-53. *)
Definition unit_float (k : N) : float :=
  Finite (Qred (Z.of_N (k mod 2 ^ 53) # 2 ^ 53)).

(** *** The [random] module *)

(** [random.random()] *)
Definition random_random : M float := k <- py_next ;; ret (unit_float k).

(** [random.randint(a, b)] *)
Definition random_randint (a b : Z) : M Z :=
  if (b <? a)%Z then raise ValueError
  else k <- py_next ;; ret (a + Z.of_N k mod (b - a + 1))%Z.

(** [random.choice(seq)] *)
Definition random_choice {A} (l : list A) : M A :=
  k <- py_next ;;
  match l !! (N.to_nat k mod length l)%nat with
  | Some x => ret x
  | None => raise IndexError
  end.

(** [random.uniform(a, b)] is [a + (b - a) * random()]. *)
Definition random_uniform (a b : float) : M float :=
  u <- random_random ;; ret (fadd a (fmul (fsub b a) u)).

(** The same with two [int] arguments: the difference is exact. *)
Definition random_uniform_int (a b : Z) : M float :=
  u <- random_random ;; ret (fadd (of_Z a) (fmul (of_Z (b - a)) u)).

(** *** [numpy.random] *)

(** [np.random.random(n)] *)
Definition np_random_random (n : nat) : M (list float) :=
  replicateM n (k <- np_next ;; ret (unit_float k)).

(** A [size] argument: numpy refuses a negative one. *)
Definition size_arg (n : Z) : M nat :=
  if (n <? 0)%Z then raise ValueError else ret (Z.to_nat n).

(** [np.random.choice(a, n)]: uniform, with replacement. *)
Definition np_random_choice {A} (a : list A) (size : Z) : M (list A) :=
  n <- size_arg size ;;
  match a, n with
  | [], S _ => raise ValueError
  | _, _ =>
      replicateM n (k <- np_next ;;
                    match a !! (N.to_nat k mod length a)%nat with
                    | Some x => ret x
                    | None => raise IndexError
                    end)
  end.

(** The value of a probability given as a float. *)
Definition probability (x : float) : result Q :=
  match x with
  | Finite q => inr q
  | _ => inl ValueError
  end.

Fixpoint probabilities (l : list float) : result (list Q) :=
  match l with
  | [] => inr []
  | x :: l' =>
      match probability x, probabilities l' with
      | inr q, inr qs => inr (q :: qs)
      | inl e, _ | _, inl e => inl e
      end
  end.

Definition Qsum (l : list Q) : Q := foldr Qplus 0%Q l.

Fixpoint cumsum (acc : Q) (l : list Q) : list Q :=
  match l with
  | [] => []
  | x :: l' => (acc + x)%Q :: cumsum (acc + x)%Q l'
  end.

(** What [choice] checks about [p] before sampling: one entry per element,
    none negative, and a sum within [sqrt(eps) = 2^-26] of 1. *)
Definition valid_p (n : nat) (p : list Q) : bool :=
  Nat.eqb (length p) n
  && forallb (fun x => Qle_bool 0 x) p
  && Qle_bool (Qabs (Qsum p - 1)) (pow2 (-26)).

(** [cdf = p.cumsum(); cdf /= cdf[-1]] *)
Definition cdf (p : list Q) : list Q :=
  let c := cumsum 0%Q p in
  (fun x => (x / Qsum p)%Q) <$> c.

(** [cdf.searchsorted(u, side='right')]: how many entries are [<= u]. *)
Definition searchsorted_right (c : list Q) (u : Q) : nat :=
  length (filter (fun x => Qle_bool x u = true) c).

Definition unit_Q (k : N) : Q := Z.of_N (k mod 2 ^ 53) # 2 ^ 53.

(** One draw of [np.random.choice(a, p=p)] once [p] is accepted. *)
Definition choice_draw {A} (a : list A) (p : list Q) : M A :=
  k <- np_next ;;
  match a !! searchsorted_right (cdf p) (unit_Q k) with
  | Some x => ret x
  | None => raise IndexError
  end.

(** [np.random.choice(a, p=p)] *)
Definition np_random_choice_p {A} (a : list A) (p : list Q) : M A :=
  match a with
  | [] => raise ValueError
  | _ => if valid_p (length a) p then choice_draw a p else raise ValueError
  end.

(** [np.random.choice(a, n, p=p)] *)
Definition np_random_choice_p_n {A} (a : list A) (size : Z) (p : list Q) : M (list A) :=
  n <- size_arg size ;;
  match a, n with
  | [], S _ => raise ValueError
  | _, _ => if valid_p (length a) p then replicateM n (choice_draw a p)
            else raise ValueError
  end.

(** [np.random.exponential(scale, size=n)]: [n] variates, none negative.
    Which ones is the tape's choice, and zero is among them (numpy computes
    [-log(1 - u)], which is zero at [u = 0]); their values are kept exact. *)
Definition np_random_exponential (scale : Q) (n : nat) : M (list Q) :=
  replicateM n (k <- np_next ;; ret (scale * inject_Z (Z.of_N k))%Q).

(** [x / s] for two numbers that are not negative, kept exact; a division
    by zero gives NaN or infinity and a warning, no exception. *)
Definition exact_div (x s : Q) : float :=
  if Qeq_bool s 0 then (if Qeq_bool x 0 then NaN else Infinity false)
  else Finite (x / s).

(** [a / a.sum()] *)
Definition normalise (a : list Q) : list float :=
  (fun x => exact_div x (Qsum a)) <$> a.

(** *** Sampling rows *)

(** [k] positions out of [pool], without replacement, in the order drawn. *)
Fixpoint sample_indices (k : nat) (pool : list nat) : M (list nat) :=
  match k with
  | O => ret []
  | S k' =>
      r <- np_next ;;
      let j := (N.to_nat r mod length pool)%nat in
      match pool !! j with
      | None => raise ValueError
      | Some i => rest <- sample_indices k' (delete j pool) ;; ret (i :: rest)
      end
  end.

(** [df.sample(n)] *)
Definition sample (df : DataFrame) (size : Z) : M DataFrame :=
  n <- size_arg size ;;
  if (len df <? n)%nat then raise ValueError
  else idx <- sample_indices n (seq 0 (len df)) ;; ret (take df idx).

(** [int(x)] on a float. *)
Definition int_of_float (x : float) : result Z :=
  match x with
  | Finite q => inr (if Qle_bool 0 q then Qfloor q else Qceiling q)
  | Infinity _ => inl OverflowError
  | NaN => inl ValueError
  end.

(** [df.iloc[0]] *)
Definition iloc0 (df : DataFrame) : M row :=
  match rows df with
  | [] => raise IndexError
  | r :: _ => ret r
  end.

(** *** The heap *)

Definition alloc (df : DataFrame) : M loc :=
  fun w =>
    let l := fresh (dom (heap w)) in
    inr (l, mkWorld (py_random w) (np_random w) (<[l := df]> (heap w)) (dirs w) (files w)).

Definition deref (l : loc) : M DataFrame :=
  fun w => match heap w !! l with
           | Some df => inr (df, w)
           | None => inl KeyError
           end.

(** [df.loc[mask, col] = v] on the frame at [l]: the object is updated in place. *)
Definition loc_setitem (l : loc) (mask : list bool) (col : string) (v : cell) : M unit :=
  fun w => match heap w !! l with
           | Some df =>
               inr (tt, mkWorld (py_random w) (np_random w)
                          (<[l := loc_set df mask col v]> (heap w)) (dirs w) (files w))
           | None => inl KeyError
           end.

(** *** The disk *)

(** The names of a path, cut at every [/]. *)
Fixpoint split_slash (s : string) : list string :=
  match s with
  | EmptyString => [EmptyString]
  | String a s' =>
      if Ascii.eqb a "/"%char then EmptyString :: split_slash s'
      else match split_slash s' with
           | h :: t => String a h :: t
           | [] => [String a EmptyString]
           end
  end.

(** A path that starts at the root of the file system. *)
Definition absolute (s : string) : bool :=
  match s with
  | String a _ => Ascii.eqb a "/"%char
  | EmptyString => false
  end.

(** A name that stays where it is: nothing between two [/], or [.]. *)
Definition stays (c : string) : bool := String.eqb c EmptyString || String.eqb c ".".

(** The directories [os.makedirs] leaves, walking the names [cs] from [p]:
    a directory met is entered, a missing one is created, and a file in the
    way is an error ([FileExistsError] when it is what the path names,
    [NotADirectoryError] when the path goes on). *)
Fixpoint mkdirs_from (p : position) (cs : list string)
    (D : gset position) (F : gmap position DataFrame) : result (gset position) :=
  match cs with
  | [] => inr D
  | c :: cs' =>
      if stays c then mkdirs_from p cs' D F
      else if String.eqb c ".." then
        match p with
        | [] => inl Unmodelled
        | _ => mkdirs_from (removelast p) cs' D F
        end
      else
        let q := p ++ [c] in
        if decide (q ∈ D) then mkdirs_from q cs' D F
        else if decide (is_Some (F !! q))
        then inl (if forallb (String.eqb EmptyString) cs' then FileExistsError else NotADirectoryError)
        else mkdirs_from q cs' ({[ q ]} ∪ D) F
  end.

Definition mkdirs (d : string) (D : gset position) (F : gmap position DataFrame)
  : result (gset position) :=
  if String.eqb d EmptyString then inl FileNotFoundError
  else if absolute d then inl Unmodelled
  else mkdirs_from [] (split_slash d) D F.

(** [os.makedirs(d, exist_ok=True)] *)
Definition makedirs (d : string) : M unit :=
  fun w =>
    match mkdirs d (dirs w) (files w) with
    | inl e => inl e
    | inr D => inr (tt, mkWorld (py_random w) (np_random w) (heap w) D (files w))
    end.

(** [f'{d}/{name}'] *)
Definition path (d name : string) : string := (d +:+ "/" +:+ name)%string.

(** The directory the names [cs] lead to from [p]; pandas refuses to save
    into a directory that does not exist. *)
Fixpoint lookup_dir (p : position) (cs : list string) (D : gset position) : result position :=
  match cs with
  | [] => inr p
  | c :: cs' =>
      if stays c then lookup_dir p cs' D
      else if String.eqb c ".." then
        match p with
        | [] => inl Unmodelled
        | _ => lookup_dir (removelast p) cs' D
        end
      else if decide (p ++ [c] ∈ D) then lookup_dir (p ++ [c]) cs' D
      else inl OSError
  end.

(** Where [open(file, 'w')] writes: the last name of [file], in the
    directory of the names before it; a directory cannot be opened.  A path
    that ends in [/], [.] or [..] is not modelled. *)
Definition open_w (file : string) (D : gset position) : result position :=
  if absolute file then inl Unmodelled
  else
    let cs := split_slash file in
    match last cs with
    | None => inl Unmodelled
    | Some name =>
        if stays name || String.eqb name ".." then inl Unmodelled
        else
          match lookup_dir [] (removelast cs) D with
          | inl e => inl e
          | inr p => if decide (p ++ [name] ∈ D) then inl IsADirectoryError
                     else inr (p ++ [name])
          end
    end.

(** [df.to_csv(file, index=False)] *)
Definition to_csv (l : loc) (file : string) : M unit :=
  fun w =>
    match heap w !! l with
    | None => inl KeyError
    | Some df =>
        match open_w file (dirs w) with
        | inl e => inl e
        | inr q => inr (tt, mkWorld (py_random w) (np_random w) (heap w) (dirs w)
                              (<[q := df]> (files w)))
        end
    end.

End Runtime.

(** ** The generator class *)

Module Generator.

Import Binary64 Pandas Runtime.
Local Open Scope prog_scope.
Local Open Scope string_scope.

Record EcommerceDataGenerator : Type := mkGenerator {
  n_customers : Z;
  n_products : Z;
  n_transactions : Z;
  categories : list string;
  price_ranges : gmap string (Z * Z)
}.

(** [EcommerceDataGenerator(n_customers, n_products, n_transactions)]: the
    body of [__init__] stores the counts and the two tables, and nothing
    else.  The defaults of the three arguments are 1000, 100 and 5000. *)
Definition __init__ (n_customers n_products n_transactions : Z)
  : M EcommerceDataGenerator :=
  ret (mkGenerator n_customers n_products n_transactions
         ["Electronics"; "Clothing"; "Home & Garden"; "Sports";
          "Books"; "Beauty"; "Toys"; "Food & Beverage"]
         (list_to_map
            [("Electronics", (50, 2000)%Z);
             ("Clothing", (15, 200)%Z);
             ("Home & Garden", (20, 500)%Z);
             ("Sports", (25, 400)%Z);
             ("Books", (10, 50)%Z);
             ("Beauty", (15, 150)%Z);
             ("Toys", (10, 100)%Z);
             ("Food & Beverage", (5, 80)%Z)])).

(** *** Formatting and dates *)

Fixpoint zero_fill (k : nat) (d : Decimal.uint) : Decimal.uint :=
  match k with
  | O => d
  | S k' => Decimal.D0 (zero_fill k' d)
  end.

(** [f'{i:0wd}'] for a natural [i]: at least [w] digits, zeros in front. *)
Definition format_d (w : nat) (i : nat) : string :=
  let d := Nat.to_uint i in
  NilEmpty.string_of_uint (zero_fill (w - Decimal.nb_digits d) d).

(** [datetime(y, m, d)] as minutes, from the ordinal of the day. *)
Definition datetime_of_ordinal (o : Z) : Z := (o * 1440)%Z.
Definition datetime_2022_01_01 : Z := datetime_of_ordinal 738156.
Definition datetime_2023_01_01 : Z := datetime_of_ordinal 738521.
Definition datetime_2024_12_31 : Z := datetime_of_ordinal 739251.

Definition timedelta (days hours minutes : Z) : Z := ((days * 24 + hours) * 60 + minutes)%Z.

(** [(b - a).days] *)
Definition days_between (a b : Z) : Z := ((b - a) / 1440)%Z.

(** *** The three generators *)

Definition generate_customers (self : EcommerceDataGenerator) : M loc :=
  let countries := ["USA"; "UK"; "Germany"; "France"; "Canada"; "Australia"] in
  let customer_segments := ["New"; "Regular"; "VIP"] in
  let customer_id :=
    (fun i => CStr ("CUST_" +:+ format_d 5 i)) <$> range (n_customers self) in
  registration_date <-
    forM (range (n_customers self))
      (fun _ => d <- random_randint 0 700 ;;
                ret (CDate (datetime_2022_01_01 + timedelta d 0 0))) ;;
  country <- np_random_choice countries (n_customers self) ;;
  p <- lift (probabilities [lit 4 10; lit 45 100; lit 15 100]) ;;
  segment <- np_random_choice_p_n customer_segments (n_customers self) p ;;
  customers <- lift (DataFrame_of_columns
    [("customer_id", customer_id);
     ("registration_date", registration_date);
     ("country", CStr <$> country);
     ("segment", CStr <$> segment)]) ;;
  alloc customers.

Definition product_columns : list string :=
  ["product_id"; "product_name"; "category"; "price"; "cost"].

(** The body of the loop of [generate_products]: the record appended. *)
Definition product_record (self : EcommerceDataGenerator) (i : nat) : M row :=
  category <- random_choice (categories self) ;;
  match price_ranges self !! category with
  | None => raise KeyError
  | Some (min_price, max_price) =>
      price <- random_uniform_int min_price max_price ;;
      cost <- random_uniform (fmul (of_Z min_price) (lit 4 10))
                             (fmul (of_Z min_price) (lit 7 10)) ;;
      ret [CStr ("PROD_" +:+ format_d 5 i);
           CStr (category +:+ " Product " +:+ format_d 0 i);
           CStr category;
           CNum (py_round2 price);
           CNum (py_round2 cost)]
  end.

Definition generate_products (self : EcommerceDataGenerator) : M loc :=
  products <- forM (range (n_products self)) (product_record self) ;;
  alloc (DataFrame_of_records product_columns products).

Definition transaction_columns : list string :=
  ["transaction_id"; "customer_id"; "product_id"; "transaction_date";
   "quantity"; "unit_price"; "discount_pct"; "total_amount"].

(** The price of the product drawn, as the operand of [*]. *)
Definition as_number (c : cell) : result float :=
  match c with
  | CNum x => inr x
  | _ => inl TypeError
  end.

(** [round(subtotal - discount_amount, 2)].  [quantity] is a numpy integer,
    which makes [subtotal] and the difference [numpy.float64] values, and
    [round] on these is numpy's. *)
Definition total_of (price : float) (quantity : Z) (discount : float) : float :=
  let subtotal := fmul price (of_Z quantity) in
  let discount_amount := fmul subtotal discount in
  np_round2 (fsub subtotal discount_amount).

(** The body of the loop of [generate_transactions]. *)
Definition transaction_record (customer_ids : selection) (customer_weights : list float)
    (products : DataFrame) (i : nat) : M row :=
  let start_date := datetime_2023_01_01 in
  let end_date := datetime_2024_12_31 in
  a <- lift (array_1d customer_ids) ;;
  p <- lift (probabilities customer_weights) ;;
  customer_id <- np_random_choice_p a p ;;
  drawn <- sample products 1 ;;
  product <- iloc0 drawn ;;
  days <- random_randint 0 (days_between start_date end_date) ;;
  hours <- random_randint 0 23 ;;
  minutes <- random_randint 0 59 ;;
  let trans_date := (start_date + timedelta days hours minutes)%Z in
  p <- lift (probabilities [lit 7 10; lit 15 100; lit 8 100; lit 5 100; lit 2 100]) ;;
  quantity <- np_random_choice_p [1; 2; 3; 4; 5]%Z p ;;
  r <- random_random ;;
  discount <- (if fgt r (lit 2 10) then ret (of_Z 0)
               else u <- random_uniform (lit 5 100) (lit 3 10) ;; ret (py_round2 u)) ;;
  price_cell <- lift (row_getitem (columns products) product "price") ;;
  price <- lift (as_number price_cell) ;;
  let total_amount := total_of price quantity discount in
  product_id <- lift (row_getitem (columns products) product "product_id") ;;
  ret [CStr ("TXN_" +:+ format_d 6 i);
       customer_id;
       product_id;
       CDate trans_date;
       CNum (of_Z quantity);
       CNum price;
       CNum discount;
       CNum total_amount].

Definition generate_transactions (self : EcommerceDataGenerator)
    (customers products : loc) : M loc :=
  customers_df <- deref customers ;;
  products_df <- deref products ;;
  customer_weights <- np_random_exponential (3 # 2) (len customers_df) ;;
  let customer_weights := normalise customer_weights in
  transactions <-
    forM (range (n_transactions self))
      (fun i =>
         customer_ids <- lift (getitem customers_df "customer_id") ;;
         transaction_record customer_ids customer_weights products_df i) ;;
  alloc (DataFrame_of_records transaction_columns transactions).

(** *** The quality-issue injector *)

Definition protected : list string := ["transaction_id"; "customer_id"; "product_id"].

Definition is_protected (col : string) : bool :=
  existsb (String.eqb col) protected.

(** The body of the loop over the columns of [df_copy]. *)
Definition corrupt_column (df_copy : loc) (missing_rate : float) (col : string) : M unit :=
  if is_protected col then ret tt
  else
    cur <- deref df_copy ;;
    draws <- np_random_random (len cur) ;;
    let mask := (fun u => flt u missing_rate) <$> draws in
    loc_setitem df_copy mask col nan.

(** [add_data_quality_issues(df, missing_rate)]; the default rate is 0.02. *)
Definition add_data_quality_issues (self : EcommerceDataGenerator) (df : loc)
    (missing_rate : float) : M loc :=
  d <- deref df ;;
  df_copy <- alloc (copy d) ;;
  cols <- (c <- deref df_copy ;; ret (columns c)) ;;
  _ <- forM cols (corrupt_column df_copy missing_rate) ;;
  cur <- deref df_copy ;;
  n_duplicates <- lift (int_of_float (fmul (of_Z (Z.of_nat (len cur))) (lit 1 100))) ;;
  duplicates <- sample cur n_duplicates ;;
  alloc (concat cur duplicates).

(** *** The orchestrator *)

(** [generate_all(output_dir, clean_dir)]; the defaults are ['data/raw'] and
    ['data/processed'].  The calls of [print] are left out. *)
Definition generate_all (self : EcommerceDataGenerator) (output_dir clean_dir : string)
  : M unit :=
  _ <- makedirs output_dir ;;
  _ <- makedirs clean_dir ;;
  customers <- generate_customers self ;;
  products <- generate_products self ;;
  transactions <- generate_transactions self customers products ;;
  _ <- to_csv customers (path clean_dir "customers.csv") ;;
  _ <- to_csv products (path clean_dir "products.csv") ;;
  _ <- to_csv transactions (path clean_dir "transactions.csv") ;;
  transactions_raw <- add_data_quality_issues self transactions (lit 2 100) ;;
  _ <- to_csv customers (path output_dir "customers_raw.csv") ;;
  _ <- to_csv products (path output_dir "products_raw.csv") ;;
  to_csv transactions_raw (path output_dir "transactions_raw.csv").

End Generator.

(** ** Vocabulary of the statements *)

Import Binary64 Pandas Runtime Generator.

Section Vocabulary.

Local Open Scope prog_scope.

(** A value is a float when rounding leaves it alone. *)
Definition is_float (x : Q) : Prop := (round_fin x == x)%Q.

Definition one_percent : Q := (5764607523034235 # 576460752303423488)%Q.

(** [returns m w P]: from [w], [m] ends without an exception, with a value
    and a state that satisfy [P]. *)
Definition returns {A} (m : M A) (w : world) (P : A -> world -> Prop) : Prop :=
  exists x w', m w = inr (x, w') /\ P x w'.

(** Only the tapes moved. *)
Definition same_store (w w' : world) : Prop :=
  heap w' = heap w /\ dirs w' = dirs w /\ files w' = files w.

(** The tables that [__init__] stores. *)
Definition the_categories : list string :=
  ["Electronics"; "Clothing"; "Home & Garden"; "Sports";
   "Books"; "Beauty"; "Toys"; "Food & Beverage"]%string.

Definition the_price_ranges : list (string * (Z * Z)) :=
  [("Electronics", (50, 2000)%Z); ("Clothing", (15, 200)%Z);
   ("Home & Garden", (20, 500)%Z); ("Sports", (25, 400)%Z);
   ("Books", (10, 50)%Z); ("Beauty", (15, 150)%Z);
   ("Toys", (10, 100)%Z); ("Food & Beverage", (5, 80)%Z)]%string.

Definition configured (self : EcommerceDataGenerator) : Prop :=
  categories self = the_categories /\ price_ranges self = list_to_map the_price_ranges.

(** What the proofs need of one line of the table, as a test that runs. *)
Definition range_check (r : Z * Z) : bool :=
  let '(lo, hi) := r in
  (0 <? lo)%Z && (lo <=? hi)%Z && (hi <? 2 ^ 53)%Z &&
  match fmul (of_Z lo) (lit 4 10), fmul (of_Z lo) (lit 7 10) with
  | Finite a, Finite b =>
      (Qeq_bool a ((2 # 5) * inject_Z lo) && Qeq_bool b ((7 # 10) * inject_Z lo)
       && Qeq_bool (round_fin a) a && Qeq_bool (round_fin b) b
       && Qeq_bool (inject_Z (Qfloor (a * 100))) (a * 100)
       && Qeq_bool (inject_Z (Qfloor (b * 100))) (b * 100)
       && match fsub (Finite b) (Finite a) with
          | Finite d => Qeq_bool (a + d) b && Qeq_bool (round_fin d) d && Qle_bool 0 d
          | _ => false
          end)%Q
  | _, _ => false
  end.

(** A record of the product table: its category has a price range, the
    price lies in it, the cost lies between 40% and 70% of its minimum. *)
Definition product_ok (self : EcommerceDataGenerator) (i : nat) (r : row) : Prop :=
  exists category lo hi price cost a b,
    r = [CStr ("PROD_" +:+ format_d 5 i);
         CStr (category +:+ " Product " +:+ format_d 0 i);
         CStr category; CNum (Finite price); CNum (Finite cost)]
    /\ price_ranges self !! category = Some (lo, hi)
    /\ (inject_Z lo <= price)%Q /\ (price <= inject_Z hi)%Q
    /\ fmul (of_Z lo) (lit 4 10) = Finite a /\ (a == (2 # 5) * inject_Z lo)%Q
    /\ fmul (of_Z lo) (lit 7 10) = Finite b /\ (b == (7 # 10) * inject_Z lo)%Q
    /\ (a <= cost)%Q /\ (cost <= b)%Q
    /\ (0 < inject_Z lo)%Q.

(** [w'] is [w] with one more frame, at a location that was free. *)
Definition allocated (w w' : world) (l : loc) (df : DataFrame) : Prop :=
  heap w !! l = None /\ heap w' = <[l := df]> (heap w)
  /\ dirs w' = dirs w /\ files w' = files w.

Definition segment_p : list Q :=
  match probabilities [lit 4 10; lit 45 100; lit 15 100] with
  | inr p => p
  | inl _ => []
  end.

(** The identifiers of the customer table. *)
Definition customer_ids (n : nat) : list cell :=
  (fun i => CStr ("CUST_" +:+ format_d 5 i)) <$> seq 0 n.

Definition customer_columns : list string :=
  ["customer_id"; "registration_date"; "country"; "segment"]%string.

(** [r'] is [r] after missing values were injected: the same number of
    cells, each one the cell of [r] or [nan], and [nan] only under a
    column that is not protected. *)
Definition corrupts (cols : list string) (r r' : row) : Prop :=
  length r' = length r /\
  forall j x x', r !! j = Some x -> r' !! j = Some x' ->
    x' = x \/ (x' = nan /\ exists c, cols !! j = Some c /\ is_protected c = false).

(** A float of [[0, 1)]. *)
Definition unit_draw (x : float) : Prop :=
  exists u, x = Finite u /\ (0 <= u)%Q /\ (u < 1)%Q.

(** What the loop over the columns keeps: the copy at [c] holds rows that are
    related by [Rel] to the rows of the input, and nothing else moved. *)
Definition copy_inv (Rel : row -> row -> Prop) (w0 : world) (c : loc)
    (cols : list string) (rows0 : list row) (w : world) : Prop :=
  exists rs, heap w = <[c := mkDataFrame cols rs]> (heap w0)
    /\ Forall2 Rel rows0 rs
    /\ dirs w = dirs w0 /\ files w = files w0.

(** [Rel] survives the assignment of one column under the masks that the
    rate can produce. *)
Definition mask_stable (Rel : row -> row -> Prop) (cols : list string)
    (rate : float) (rows0 : list row) : Prop :=
  forall col draws rs,
    is_protected col = false -> Forall unit_draw draws ->
    Forall2 Rel rows0 rs ->
    Forall2 Rel rows0 (set_rows cols col nan ((fun u => flt u rate) <$> draws) rs).

(** From [w] to [w'] the numpy generator made [k] draws. *)
Definition np_drew (k : nat) (w w' : world) : Prop :=
  raw (np_random w') = raw (np_random w)
  /\ cursor (np_random w') = (cursor (np_random w) + k)%nat.

(** Every run of [m] that returns makes [k] draws from the numpy generator. *)
Definition draws {A} (m : M A) (k : nat) : Prop :=
  forall w x w', m w = inr (x, w') -> np_drew k w w'.

(** The raw draw number [i] from where the numpy generator of [w] stands. *)
Definition np_peek (w : world) (i : nat) : N :=
  raw (np_random w) (cursor (np_random w) + i).

(** The variates that [np.random.exponential(1.5, n)] draws from [w]. *)
Definition variates (w : world) (skip n : nat) : list Q :=
  (fun i => ((3 # 2) * inject_Z (Z.of_N (np_peek w (skip + i))))%Q) <$> seq 0 n.

Definition quantity_p : list Q :=
  match probabilities [lit 7 10; lit 15 100; lit 8 100; lit 5 100; lit 2 100] with
  | inr p => p
  | inl _ => []
  end.

(** The label [c] stands over one column of [df], and only one. *)
Definition unique_column (df : DataFrame) (c : string) : Prop :=
  occurrences c (columns df) = 1%nat.

(** The schema [generate_transactions] relies on. *)
Definition numeric_column (df : DataFrame) (c : string) : Prop :=
  Forall (fun r => exists x, row_getitem (columns df) r c = inr (CNum x)) (rows df).

(** The discount drawn: none, or a rounded draw between the two literals. *)
Definition discount_ok (d : float) : Prop :=
  d = of_Z 0 \/
  exists u, (0 <= u /\ u < 1)%Q /\
    d = py_round2 (fadd (lit 5 100) (fmul (fsub (lit 3 10) (lit 5 100)) (Finite u))).

Definition transaction_ok (customer_ids : list cell) (products : DataFrame)
    (i : nat) (r : row) : Prop :=
  exists customer_id product product_id date quantity price discount,
    r = [CStr ("TXN_" +:+ format_d 6 i); customer_id; product_id; CDate date;
         CNum (of_Z quantity); CNum price; CNum discount;
         CNum (total_of price quantity discount)]
    /\ customer_id ∈ customer_ids
    /\ product ∈ rows products
    /\ row_getitem (columns products) product "product_id" = inr product_id
    /\ row_getitem (columns products) product "price" = inr (CNum price)
    /\ (1 <= quantity <= 5)%Z
    /\ discount_ok discount
    /\ (datetime_2023_01_01 <= date <= datetime_2024_12_31 + 23 * 60 + 59)%Z.

(** One of the [n] raw draws that the numpy generator of [w] delivers after
    the next [skip] is not zero: the exponential variates made of these
    draws are not all zero. *)
Definition np_draw_nonzero (w : world) (skip n : nat) : Prop :=
  exists i, (i < n)%nat /\ np_peek w (skip + i) <> 0%N.

(** The [n] raw draws after the next [skip] are all zero. *)
Definition np_draws_zero (w : world) (skip n : nat) : Prop :=
  forall i, (i < n)%nat -> np_peek w (skip + i) = 0%N.

(** [out] is what the injector makes of [df]: the same columns, the rows of
    [df] with missing values injected, then a block of distinct rows of
    these, one for every full hundred. *)
Definition injected (df out : DataFrame) : Prop :=
  columns out = columns df /\
  exists corrupted dups idx,
    rows out = corrupted ++ dups
    /\ Forall2 (corrupts (columns df)) (rows df) corrupted
    /\ length idx = Z.to_nat (Z.of_nat (len df) / 100)
    /\ NoDup idx
    /\ Forall2 (fun i r => corrupted !! i = Some r) idx dups.

(** The six files of a run, in the order in which they are written. *)
Definition the_files (o c : string) : list string :=
  [path c "customers.csv"; path c "products.csv"; path c "transactions.csv";
   path o "customers_raw.csv"; path o "products_raw.csv";
   path o "transactions_raw.csv"]%string.

(** The disk lets a run of [generate_all] through: the two directories can
    be created, one after the other, which leaves the directories [D], and
    each of the six files can then be opened for writing, at the place that
    [place] tells. *)
Definition disk_ready (w : world) (o c : string) (D : gset position)
    (place : string -> position) : Prop :=
  exists D1, mkdirs o (dirs w) (files w) = inr D1
    /\ mkdirs c D1 (files w) = inr D
    /\ Forall (fun file => open_w file D = inr (place file)) (the_files o c).

(** [w] once the directories are created. *)
Definition with_dirs (w : world) (D : gset position) : world :=
  mkWorld (py_random w) (np_random w) (heap w) D (files w).

(** [C], [P] and [T] are the tables that the three generators return when
    they run one after the other from [w]. *)
Definition generated (self : EcommerceDataGenerator) (w : world)
    (C P T : DataFrame) : Prop :=
  exists lc w1 lp w2 lt w3,
    generate_customers self w = inr (lc, w1) /\ heap w1 !! lc = Some C
    /\ generate_products self w1 = inr (lp, w2) /\ heap w2 !! lp = Some P
    /\ generate_transactions self lc lp w2 = inr (lt, w3) /\ heap w3 !! lt = Some T.

(** The customers get weights that [choice] accepts: if a transaction is
    asked for, the variates drawn for the customers, which come after the
    draws of the countries and the segments, are not all zero. *)
Definition weights_defined (self : EcommerceDataGenerator) (w : world) : Prop :=
  (1 <= n_transactions self)%Z ->
  np_draw_nonzero w (2 * Z.to_nat (n_customers self)) (Z.to_nat (n_customers self)).

Definition written (w : world) (place : string -> position) (o c : string)
    (C P T R : DataFrame) : gmap position DataFrame :=
  <[place (path o "transactions_raw.csv") := R]>
    (<[place (path o "products_raw.csv") := P]>
       (<[place (path o "customers_raw.csv") := C]>
          (<[place (path c "transactions.csv") := T]>
             (<[place (path c "products.csv") := P]>
                (<[place (path c "customers.csv") := C]> (files w)))))).



(** The places passed on the way from [p] along the names [cs]. *)
Fixpoint prefixes (p : position) (cs : list string) : gset position :=
  match cs with
  | [] => ∅
  | c :: cs' => {[ p ++ [c] ]} ∪ prefixes (p ++ [c]) cs'
  end.

(** The directories that [os.makedirs(d)] makes sure of. *)
Definition dirs_of (d : string) : gset position := prefixes [] (split_slash d).

Definition zero_tape : tape := mkTape (fun _ => 0%N) 0.
Definition empty_world : world := mkWorld zero_tape zero_tape ∅ ∅ ∅.

(** A numpy generator whose raw draws are all 1, and the empty disk with it. *)
Definition unit_tape : tape := mkTape (fun _ => 1%N) 0.
Definition start_world : world := mkWorld zero_tape unit_tape ∅ ∅ ∅.

Definition example_generator (nc np nt : Z) : EcommerceDataGenerator :=
  mkGenerator nc np nt the_categories (list_to_map the_price_ranges).

Definition reference_total (unit_price : float) (quantity : Z) (discount_pct : float) : float :=
  np_round2 (fmul (fmul unit_price (of_Z quantity)) (fsub (of_Z 1) discount_pct)).

Definition discount_tape : tape :=
  mkTape (fun i => if Nat.eqb i 4 then 1801439850948198%N else 0%N) 0.
Definition one_customer : DataFrame :=
  mkDataFrame ["customer_id"%string] [[CStr "CUST_00000"]].
Definition one_product : DataFrame :=
  mkDataFrame ["product_id"; "price"]%string [[CStr "PROD_00000"; CNum (lit 525 100)]].
Definition two_tables : world :=
  mkWorld discount_tape unit_tape (<[1%nat := one_product]> {[0%nat := one_customer]}) ∅ ∅.
Definition small_frame : DataFrame :=
  mkDataFrame ["transaction_id"; "quantity"]%string [[CStr "TXN_000000"; CNum (of_Z 2)]].
Definition one_frame : world := mkWorld zero_tape zero_tape {[0%nat := small_frame]} ∅ ∅.

(** A table of 250 rows, for which the injector appends two duplicates. *)
Definition many_rows : DataFrame :=
  mkDataFrame ["transaction_id"; "quantity"]%string
    ((fun i => [CStr ("TXN_" +:+ format_d 6 i); CNum (of_Z (Z.of_nat i))]) <$> seq 0 250).
Definition many_rows_world : world :=
  mkWorld zero_tape zero_tape {[0%nat := many_rows]} ∅ ∅.

(** One customer, one product, and a numpy generator whose first raw draw,
    the one the weight of the customer is made of, is zero. *)
Definition zero_weight_tables : world :=
  mkWorld zero_tape zero_tape (<[1%nat := one_product]> {[0%nat := one_customer]}) ∅ ∅.

(** Two transactions: the first is given a discount, the second is not. *)
Definition mixed_tape : tape :=
  mkTape (fun i => if Nat.eqb i 4 then 1801439850948198%N
                   else if Nat.eqb i 8 then 4503599627370496%N else 0%N) 0.
Definition mixed_tables : world :=
  mkWorld mixed_tape unit_tape (<[1%nat := one_product]> {[0%nat := one_customer]}) ∅ ∅.

(** The directories of the default arguments of [generate_all]. *)
Definition default_dirs : gset position :=
  {[ ["data"]; ["data"; "raw"]; ["data"; "processed"] ]}%string.

(** A rate no draw of [[0, 1)] is below: zero, a negative number, minus
    infinity or NaN. *)
Definition never_hits (rate : float) : Prop :=
  match rate with
  | Finite r => (r <= 0)%Q
  | Infinity negative => negative = true
  | NaN => True
  end.

(** A record of the customer table, at position [i]. *)
Definition customer_ok (i : nat) (r : row) : Prop :=
  exists days country segment,
    r = [CStr ("CUST_" +:+ format_d 5 i);
         CDate (datetime_2022_01_01 + timedelta days 0 0);
         CStr country; CStr segment]
    /\ (0 <= days <= 700)%Z
    /\ country ∈ ["USA"; "UK"; "Germany"; "France"; "Canada"; "Australia"]%string
    /\ segment ∈ ["New"; "Regular"; "VIP"]%string.

(** The identifiers of the product table. *)
Definition product_ids (n : nat) : list cell :=
  (fun i => CStr ("PROD_" +:+ format_d 5 i)) <$> seq 0 n.

(** The number a finite float stands for. *)
Definition value (x : float) : Q :=
  match x with
  | Finite q => q
  | _ => 0%Q
  end.

Definition discount_low : Q := value (lit 5 100).
Definition discount_span : Q := value (fsub (lit 3 10) (lit 5 100)).

(** The identifiers of the transaction table. *)
Definition transaction_ids (n : nat) : list cell :=
  (fun i => CStr ("TXN_" +:+ format_d 6 i)) <$> seq 0 n.

Definition no_id_customers : DataFrame :=
  mkDataFrame ["name"%string] [[CStr "Ada"]].
Definition no_id_tables : world :=
  mkWorld zero_tape zero_tape (<[1%nat := one_product]> {[0%nat := no_id_customers]}) ∅ ∅.

Definition no_price_products : DataFrame :=
  mkDataFrame ["product_id"%string] [[CStr "PROD_00000"]].
Definition no_price_tables : world :=
  mkWorld zero_tape unit_tape (<[1%nat := no_price_products]> {[0%nat := one_customer]}) ∅ ∅.

Definition twice_id_customers : DataFrame :=
  mkDataFrame ["customer_id"; "customer_id"]%string [[CStr "CUST_00000"; CStr "CUST_00001"]].
Definition twice_id_tables : world :=
  mkWorld zero_tape unit_tape (<[1%nat := one_product]> {[0%nat := twice_id_customers]}) ∅ ∅.

Definition no_products : DataFrame := mkDataFrame ["product_id"; "price"]%string [].
Definition no_products_tables : world :=
  mkWorld zero_tape unit_tape (<[1%nat := no_products]> {[0%nat := one_customer]}) ∅ ∅.

End Vocabulary.

(** ** Powers of two and binades *)

Section Binades.

Local Open Scope prog_scope.
Local Open Scope Q_scope.

Section Pow2.
Lemma pow2_pos e : 0 < pow2 e.
Proof. apply Qpower_0_lt. reflexivity. Qed.

Lemma pow2_add a b : pow2 (a + b) == pow2 a * pow2 b.
Proof. apply Qpower_plus. discriminate. Qed.

Lemma pow2_le a b : (a <= b)%Z -> pow2 a <= pow2 b.
Proof. intros H. apply Qpower_le_compat_l; [exact H | discriminate]. Qed.

Lemma pow2_lt a b : (a < b)%Z -> pow2 a < pow2 b.
Proof. intros H. apply Qpower_lt_compat_l; [exact H | reflexivity]. Qed.

Lemma pow2_lt_inv a b : pow2 a < pow2 b -> (a < b)%Z.
Proof. intros H. eapply Qpower_lt_compat_l_inv; [exact H | reflexivity]. Qed.

Lemma pow2_le_inv a b : pow2 a <= pow2 b -> (a <= b)%Z.
Proof. intros H. eapply Qpower_le_compat_l_inv; [exact H | reflexivity]. Qed.

Lemma pow2_Z e : (0 <= e)%Z -> pow2 e == inject_Z (2 ^ e).
Proof. intros H. unfold pow2. rewrite Zpower_Qpower by exact H. reflexivity. Qed.

Lemma pow2_succ e : pow2 (e + 1) == 2 * pow2 e.
Proof. rewrite pow2_add. unfold pow2 at 2. simpl. ring. Qed.
End Pow2.

Lemma Zlog2_pow2_bounds n :
  (0 < n)%Z -> pow2 (Z.log2 n) <= inject_Z n /\ inject_Z n < pow2 (Z.log2 n + 1).
Proof.
  intros Hn. pose proof (Z.log2_spec n Hn) as [Hl Hu].
  pose proof (Z.log2_nonneg n) as H0.
  rewrite !pow2_Z by lia. split.
  - rewrite <- Zle_Qle. exact Hl.
  - rewrite <- Zlt_Qlt. exact Hu.
Qed.

Lemma ilog2_spec x : 0 < x -> pow2 (ilog2 x) <= x /\ x < pow2 (ilog2 x + 1).
Proof.
  intros Hx. destruct x as [n d].
  assert (Hn : (0 < n)%Z).
  { unfold Qlt in Hx. simpl in Hx. lia. }
  destruct (Zlog2_pow2_bounds n Hn) as [Hnl Hnu].
  destruct (Zlog2_pow2_bounds (Zpos d) eq_refl) as [Hdl Hdu].
  set (a := Z.log2 n) in *. set (b := Z.log2 (Zpos d)) in *.
  assert (Hx' : n # d == inject_Z n / inject_Z (Zpos d)) by apply Qmake_Qdiv.
  assert (Hd : 0 < inject_Z (Zpos d)) by reflexivity.
  unfold ilog2. cbn [Qnum Qden]. fold a b.
  destruct (Qle_bool (pow2 (a - b)) (n # d)) eqn:E.
  - apply Qle_bool_iff in E. split; [exact E|].
    rewrite Hx'. apply Qlt_shift_div_r; [exact Hd|].
    apply Qlt_le_trans with (pow2 (a + 1)); [exact Hnu|].
    replace (a + 1)%Z with ((a - b + 1) + b)%Z by lia.
    rewrite pow2_add. apply Qmult_le_l; [apply pow2_pos | exact Hdl].
  - assert (E' : n # d < pow2 (a - b)).
    { apply Qnot_le_lt. intros H. apply Qle_bool_iff in H. congruence. }
    split.
    + rewrite Hx'. apply Qle_shift_div_l; [exact Hd|].
      apply Qle_trans with (pow2 a); [|exact Hnl].
      replace a with ((a - b - 1) + (b + 1))%Z at 2 by lia.
      rewrite pow2_add. apply Qmult_le_l; [apply pow2_pos | apply Qlt_le_weak, Hdu].
    + replace (a - b - 1 + 1)%Z with (a - b)%Z by lia. exact E'.
Qed.

End Binades.

(** ** Rounding *)

Section Rounding.

Local Open Scope prog_scope.
Local Open Scope Q_scope.

Lemma ilog2_unique x e : 0 < x -> pow2 e <= x -> x < pow2 (e + 1) -> ilog2 x = e.
Proof.
  intros Hx Hl Hu. destruct (ilog2_spec x Hx) as [Hl' Hu'].
  assert (H1 : (ilog2 x < e + 1)%Z).
  { apply pow2_lt_inv. eapply Qle_lt_trans; eassumption. }
  assert (H2 : (e < ilog2 x + 1)%Z).
  { apply pow2_lt_inv. eapply Qle_lt_trans; eassumption. }
  lia.
Qed.

Lemma ilog2_comp x y : 0 < x -> x == y -> ilog2 x = ilog2 y.
Proof.
  intros Hx E. assert (Hy : 0 < y) by (rewrite <- E; exact Hx).
  destruct (ilog2_spec x Hx) as [Hl Hu].
  symmetry. apply ilog2_unique; [exact Hy | rewrite <- E; exact Hl | rewrite <- E; exact Hu].
Qed.

Lemma ilog2_mono x y : 0 < x -> x <= y -> (ilog2 x <= ilog2 y)%Z.
Proof.
  intros Hx Hxy. assert (Hy : 0 < y) by (eapply Qlt_le_trans; eassumption).
  destruct (ilog2_spec x Hx) as [Hl _]. destruct (ilog2_spec y Hy) as [_ Hu].
  assert (H : (ilog2 x < ilog2 y + 1)%Z).
  { apply pow2_lt_inv. eapply Qle_lt_trans; [exact Hl|]. eapply Qle_lt_trans; eassumption. }
  lia.
Qed.

Lemma ilog2_lt_pow2 x e : 0 < x -> x < pow2 e -> (ilog2 x < e)%Z.
Proof.
  intros Hx Hu. destruct (ilog2_spec x Hx) as [Hl _].
  apply pow2_lt_inv. eapply Qle_lt_trans; eassumption.
Qed.

(** ** Rounding to the nearest integer *)

Lemma rne_floor x : (Qfloor x <= rne x <= Qfloor x + 1)%Z.
Proof.
  unfold rne. destruct (Qcompare _ _); [destruct (Z.even _)| |]; lia.
Qed.

Lemma rne_Z z : rne (inject_Z z) = z.
Proof.
  unfold rne. rewrite Qfloor_Z.
  assert (H : inject_Z z - inject_Z z < 1 # 2) by lra.
  rewrite (proj1 (Qlt_alt _ _) H). reflexivity.
Qed.

Lemma rne_comp x y : x == y -> rne x = rne y.
Proof.
  intros E. unfold rne. rewrite (Qfloor_comp _ _ E).
  assert (E' : x - inject_Z (Qfloor y) == y - inject_Z (Qfloor y)) by (rewrite E; reflexivity).
  rewrite (Qcompare_comp _ _ E' (1 # 2) (1 # 2) (Qeq_refl _)). reflexivity.
Qed.

Lemma rne_mono x y : x <= y -> (rne x <= rne y)%Z.
Proof.
  intros Hxy. pose proof (Qfloor_resp_le _ _ Hxy) as Hf.
  destruct (Z.eq_dec (Qfloor x) (Qfloor y)) as [E|NE].
  - unfold rne. rewrite E.
    destruct (Qcompare (x - inject_Z (Qfloor y)) (1 # 2)) eqn:Cx;
      destruct (Qcompare (y - inject_Z (Qfloor y)) (1 # 2)) eqn:Cy;
      try (destruct (Z.even (Qfloor y))); try lia; exfalso.
    + apply Qeq_alt in Cx. apply Qlt_alt in Cy. lra.
    + apply Qgt_alt in Cx. apply Qeq_alt in Cy. lra.
    + apply Qgt_alt in Cx. apply Qlt_alt in Cy. lra.
    + apply Qgt_alt in Cx. apply Qlt_alt in Cy. lra.
  - pose proof (rne_floor x). pose proof (rne_floor y). lia.
Qed.

Lemma rne_le_Z x m : x <= inject_Z m -> (rne x <= m)%Z.
Proof. intros H. rewrite <- (rne_Z m). apply rne_mono, H. Qed.

Lemma rne_ge_Z x m : inject_Z m <= x -> (m <= rne x)%Z.
Proof. intros H. rewrite <- (rne_Z m). apply rne_mono, H. Qed.

(** ** Rounding to binary64 *)

Lemma cexp_mono x y : 0 < x -> x <= y -> (cexp x <= cexp y)%Z.
Proof. intros Hx Hxy. unfold cexp. pose proof (ilog2_mono x y Hx Hxy). lia. Qed.

Lemma div_pow2 x q : x / pow2 q == x * pow2 (- q).
Proof.
  unfold Qdiv. apply Qmult_comp; [reflexivity|].
  unfold pow2. rewrite Qpower_opp. reflexivity.
Qed.

Lemma pow2_cancel q : pow2 (- q) * pow2 q == 1.
Proof. rewrite <- pow2_add. replace (- q + q)%Z with 0%Z by lia. reflexivity. Qed.

(** A multiple of [2^p] is an integer multiple of any finer [2^q]. *)
Lemma grid_refine (M p q : Z) :
  (q <= p)%Z -> inject_Z M * pow2 p == inject_Z (M * 2 ^ (p - q)) * pow2 q.
Proof.
  intros H. rewrite inject_Z_mult, <- pow2_Z by lia.
  replace p with ((p - q) + q)%Z at 1 by lia. rewrite pow2_add. ring.
Qed.

Lemma round_pos_le_grid x M p :
  (cexp x <= p)%Z -> x <= inject_Z M * pow2 p -> round_pos x <= inject_Z M * pow2 p.
Proof.
  intros Hq Hx. set (q := cexp x) in *. rewrite (grid_refine M p q Hq) in *.
  unfold round_pos. fold q. apply Qmult_le_compat_r; [|apply Qlt_le_weak, pow2_pos].
  rewrite <- Zle_Qle. apply rne_le_Z.
  apply Qle_shift_div_r; [apply pow2_pos | exact Hx].
Qed.

Lemma round_pos_ge_grid x M p :
  (cexp x <= p)%Z -> inject_Z M * pow2 p <= x -> inject_Z M * pow2 p <= round_pos x.
Proof.
  intros Hq Hx. set (q := cexp x) in *. rewrite (grid_refine M p q Hq) in *.
  unfold round_pos. fold q. apply Qmult_le_compat_r; [|apply Qlt_le_weak, pow2_pos].
  rewrite <- Zle_Qle. apply rne_ge_Z.
  apply Qle_shift_div_l; [apply pow2_pos | exact Hx].
Qed.

Lemma round_pos_nonneg x : 0 < x -> 0 <= round_pos x.
Proof.
  intros Hx. assert (E : inject_Z 0 * pow2 (cexp x) == 0) by ring.
  rewrite <- E. apply round_pos_ge_grid; [lia|]. rewrite E.
  apply Qlt_le_weak, Hx.
Qed.

Lemma round_pos_mono x y : 0 < x -> x <= y -> round_pos x <= round_pos y.
Proof.
  intros Hx Hxy. assert (Hy : 0 < y) by (eapply Qlt_le_trans; eassumption).
  pose proof (cexp_mono x y Hx Hxy) as Hc.
  destruct (Z.eq_dec (cexp x) (cexp y)) as [E|NE].
  - unfold round_pos. rewrite E.
    apply Qmult_le_compat_r; [|apply Qlt_le_weak, pow2_pos].
    rewrite <- Zle_Qle. apply rne_mono.
    apply Qmult_le_compat_r; [exact Hxy|]. apply Qlt_le_weak, Qinv_lt_0_compat, pow2_pos.
  - assert (Hlt : (cexp x < cexp y)%Z) by lia.
    assert (Hcy : cexp y = (ilog2 y - 52)%Z) by (unfold cexp in *; lia).
    assert (Hil : (ilog2 x + 1 <= ilog2 y)%Z) by (unfold cexp in *; lia).
    destruct (ilog2_spec x Hx) as [_ Hxu]. destruct (ilog2_spec y Hy) as [Hyl _].
    assert (E1 : inject_Z 1 * pow2 (ilog2 y) == pow2 (ilog2 y)) by ring.
    assert (E2 : inject_Z (2 ^ 52) * pow2 (cexp y) == pow2 (ilog2 y)).
    { rewrite <- pow2_Z by lia. rewrite <- pow2_add, Hcy.
      replace (52 + (ilog2 y - 52))%Z with (ilog2 y) by lia. reflexivity. }
    apply Qle_trans with (pow2 (ilog2 y)).
    + rewrite <- E1. apply round_pos_le_grid; [lia|]. rewrite E1.
      apply Qlt_le_weak. eapply Qlt_le_trans; [exact Hxu|]. apply pow2_le, Hil.
    + rewrite <- E2. apply round_pos_ge_grid; [lia|]. rewrite E2. exact Hyl.
Qed.

(** Numbers with at most 53 significant bits are left alone. *)
Lemma cexp_representable m e :
  (0 < m < 2 ^ 53)%Z -> (-1074 <= e)%Z -> (cexp (inject_Z m * pow2 e) <= e)%Z.
Proof.
  intros Hm He. unfold cexp.
  assert (Hx : 0 < inject_Z m * pow2 e).
  { apply Qmult_lt_0_compat; [|apply pow2_pos]. rewrite Zlt_Qlt in Hm. apply Hm. }
  assert (H : (ilog2 (inject_Z m * pow2 e) < 53 + e)%Z).
  { apply ilog2_lt_pow2; [exact Hx|]. rewrite pow2_add.
    apply Qmult_lt_compat_r; [apply pow2_pos|].
    rewrite pow2_Z by lia. rewrite <- Zlt_Qlt. lia. }
  lia.
Qed.

Lemma round_pos_representable m e :
  (0 < m < 2 ^ 53)%Z -> (-1074 <= e)%Z ->
  round_pos (inject_Z m * pow2 e) == inject_Z m * pow2 e.
Proof.
  intros Hm He. pose proof (cexp_representable m e Hm He) as Hc.
  apply Qle_antisym.
  - apply round_pos_le_grid; [exact Hc | apply Qle_refl].
  - apply round_pos_ge_grid; [exact Hc | apply Qle_refl].
Qed.

End Rounding.

(** ** Rounding of values that are not negative *)

Section RoundingNonneg.

Local Open Scope prog_scope.
Local Open Scope Q_scope.

Lemma Qnum_sign x : (x == 0 /\ Qnum x = 0%Z) \/ (0 < x /\ exists p, Qnum x = Zpos p)
                    \/ (x < 0 /\ exists p, Qnum x = Zneg p).
Proof.
  destruct x as [[|p|p] d]; unfold Qeq, Qlt; simpl.
  - left. done.
  - right. left. split; [lia | eauto].
  - right. right. split; [lia | eauto].
Qed.

Lemma round_fin_zero x : x == 0 -> round_fin x = 0.
Proof.
  intros H. destruct (Qnum_sign x) as [[_ E]|[[H' _]|[H' _]]].
  - unfold round_fin. rewrite E. reflexivity.
  - rewrite H in H'. discriminate.
  - rewrite H in H'. discriminate.
Qed.

Lemma round_fin_pos x : 0 < x -> round_fin x = round_pos x.
Proof.
  intros H. destruct (Qnum_sign x) as [[E _]|[[_ [p E]]|[H' _]]].
  - rewrite E in H. discriminate.
  - unfold round_fin. rewrite E. reflexivity.
  - exfalso. lra.
Qed.

Lemma round_fin_nonneg x : 0 <= x -> 0 <= round_fin x.
Proof.
  intros H. destruct (Qle_lt_or_eq _ _ H) as [Hp|Hz].
  - rewrite round_fin_pos by exact Hp. apply round_pos_nonneg, Hp.
  - rewrite round_fin_zero by (symmetry; exact Hz). apply Qle_refl.
Qed.

Lemma round_fin_mono x y : 0 <= x -> x <= y -> round_fin x <= round_fin y.
Proof.
  intros Hx Hxy. destruct (Qle_lt_or_eq _ _ Hx) as [Hp|Hz].
  - rewrite !round_fin_pos by lra. apply round_pos_mono; assumption.
  - rewrite (round_fin_zero x) by (symmetry; exact Hz).
    apply round_fin_nonneg. lra.
Qed.

Lemma is_float_representable m e :
  (0 <= m < 2 ^ 53)%Z -> (-1074 <= e)%Z -> is_float (inject_Z m * pow2 e).
Proof.
  intros Hm He. unfold is_float. destruct (Z.eq_dec m 0%Z) as [->|Hne].
  - rewrite round_fin_zero; ring.
  - assert (Hpos : 0 < inject_Z m * pow2 e).
    { apply Qmult_lt_0_compat; [|apply pow2_pos]. change (inject_Z 0 < inject_Z m). rewrite <- Zlt_Qlt. lia. }
    rewrite round_fin_pos by exact Hpos. apply round_pos_representable; lia.
Qed.

Lemma is_float_Z m : (0 <= m < 2 ^ 53)%Z -> is_float (inject_Z m).
Proof.
  intros Hm. unfold is_float.
  pose proof (is_float_representable m 0 Hm ltac:(lia)) as H. unfold is_float in H.
  assert (E : inject_Z m * pow2 0 == inject_Z m) by (unfold pow2; simpl; ring).
  destruct (Z.eq_dec m 0%Z) as [->|Hne]; [reflexivity|].
  assert (Hpos : 0 < inject_Z m) by (change (inject_Z 0 < inject_Z m); rewrite <- Zlt_Qlt; lia).
  rewrite round_fin_pos in * by lra.
  apply Qle_antisym.
  - rewrite <- E at 2. rewrite <- H. apply round_pos_mono; lra.
  - rewrite <- E at 1. rewrite <- H. apply round_pos_mono; lra.
Qed.

(** The finite result of [rnd], between two floats. *)
Lemma rnd_between lo hi x :
  is_float lo -> is_float hi -> 0 <= lo -> lo <= x -> x <= hi -> hi < pow2 1024 ->
  exists q, rnd x = Finite q /\ lo <= q /\ q <= hi.
Proof.
  intros Flo Fhi H0 Hl Hh Hmax.
  assert (Hx : 0 <= x) by lra.
  pose proof (round_fin_mono lo x H0 Hl) as H1.
  pose proof (round_fin_mono x hi Hx Hh) as H2.
  unfold is_float in *. rewrite Flo in H1. rewrite Fhi in H2.
  unfold rnd. cbv zeta.
  assert (Habs : Qabs (round_fin x) == round_fin x) by (apply Qabs_pos; lra).
  destruct (Qle_bool (pow2 1024) (Qabs (round_fin x))) eqn:E.
  - apply Qle_bool_iff in E. rewrite Habs in E. lra.
  - exists (Qred (round_fin x)). split; [reflexivity|].
    pose proof (Qred_correct (round_fin x)) as Er. split; lra.
Qed.

Lemma rnd_exact x :
  is_float x -> 0 <= x -> x < pow2 1024 -> rnd x = Finite (Qred x).
Proof.
  intros F H0 Hmax. unfold rnd. cbv zeta. unfold is_float in F.
  assert (Habs : Qabs (round_fin x) == x) by (rewrite F; apply Qabs_pos; lra).
  destruct (Qle_bool (pow2 1024) (Qabs (round_fin x))) eqn:E.
  - apply Qle_bool_iff in E. rewrite Habs in E. lra.
  - f_equal. apply Qred_complete, F.
Qed.

End RoundingNonneg.

(** ** The number of duplicates *)

Section Duplicates.

Local Open Scope prog_scope.
Local Open Scope Q_scope.

Lemma Qfloor_unique r k : inject_Z k <= r -> r < inject_Z (k + 1) -> Qfloor r = k.
Proof.
  intros Hl Hu.
  pose proof (Qfloor_resp_le _ _ Hl) as H1. rewrite Qfloor_Z in H1.
  pose proof (Qfloor_le r) as H2.
  assert (H3 : (Qfloor r < k + 1)%Z).
  { rewrite Zlt_Qlt. eapply Qle_lt_trans; eassumption. }
  lia.
Qed.

Lemma pow2_46_lt : pow2 46 < pow2 1024.
Proof. apply pow2_lt. lia. Qed.

Lemma of_Z_exact n : (0 <= n < 2 ^ 53)%Z -> of_Z n = Finite (Qred (inject_Z n)).
Proof.
  intros Hn. unfold of_Z. apply rnd_exact.
  - apply is_float_Z, Hn.
  - change (inject_Z 0 <= inject_Z n). rewrite <- Zle_Qle. lia.
  - apply Qlt_trans with (pow2 53); [|apply pow2_lt; lia].
    rewrite pow2_Z by lia. rewrite <- Zlt_Qlt. lia.
Qed.

Lemma lit_one_percent : lit 1 100 = Finite one_percent.
Proof. vm_compute. reflexivity. Qed.

(** [int(n * 0.01)] is [n // 100] for every length that fits in memory. *)
Lemma n_duplicates_exact n :
  (0 <= n < 2 ^ 46)%Z ->
  int_of_float (fmul (of_Z n) (lit 1 100)) = inr (n / 100)%Z.
Proof.
  intros Hn. rewrite of_Z_exact by lia. rewrite lit_one_percent.
  cbn [fmul]. set (x := Qred (inject_Z n) * one_percent).
  set (k := (n / 100)%Z).
  assert (Hk : (100 * k <= n < 100 * k + 100)%Z).
  { unfold k. pose proof (Z.div_mod n 100 ltac:(lia)).
    pose proof (Z.mod_pos_bound n 100 ltac:(lia)). lia. }
  assert (Ex : x == inject_Z n * one_percent).
  { unfold x. rewrite Qred_correct. reflexivity. }
  assert (Hn46 : inject_Z n < 70368744177664).
  { change 70368744177664 with (inject_Z (2 ^ 46)). rewrite <- Zlt_Qlt. lia. }
  assert (Hn0 : 0 <= inject_Z n).
  { change 0 with (inject_Z 0). rewrite <- Zle_Qle. lia. }
  assert (Hkl : inject_Z 100 * inject_Z k <= inject_Z n).
  { rewrite <- inject_Z_mult, <- Zle_Qle. lia. }
  assert (Hku : inject_Z n <= inject_Z 100 * inject_Z k + 99).
  { change 99 with (inject_Z 99). rewrite <- inject_Z_mult, <- inject_Z_plus, <- Zle_Qle. lia. }
  assert (Hk0 : 0 <= inject_Z k).
  { change 0 with (inject_Z 0). rewrite <- Zle_Qle. lia. }
  change (inject_Z 100) with 100 in *.
  assert (Bl : inject_Z k <= x).
  { rewrite Ex. unfold one_percent. lra. }
  assert (Bu : x <= inject_Z k + 1 - (1 # 256)).
  { rewrite Ex. unfold one_percent. lra. }
  assert (R : exists q, rnd x = Finite q /\ inject_Z k <= q /\ q <= inject_Z k + 1 - (1 # 256)).
  { destruct (Qle_lt_or_eq _ _ (Qle_trans _ _ _ Hk0 Bl)) as [Hpos|Hz].
    - assert (Hc : (cexp x <= -8)%Z).
      { unfold cexp. assert (H : (ilog2 x < 45)%Z).
        { apply ilog2_lt_pow2; [exact Hpos|].
          rewrite pow2_Z by lia. change (inject_Z (2 ^ 45)) with 35184372088832.
          rewrite Ex. unfold one_percent. lra. }
        lia. }
      assert (G1 : inject_Z (k * 2 ^ 8) * pow2 (-8) == inject_Z k).
      { rewrite inject_Z_mult. change (pow2 (-8)) with (1 # 256).
        change (inject_Z (2 ^ 8)) with 256. ring. }
      assert (G2 : inject_Z ((k + 1) * 2 ^ 8 - 1) * pow2 (-8) == inject_Z k + 1 - (1 # 256)).
      { unfold Z.sub. rewrite inject_Z_plus, inject_Z_mult, inject_Z_plus.
        change (pow2 (-8)) with (1 # 256). change (inject_Z (2 ^ 8)) with 256.
        change (inject_Z (- (1))) with (-1 # 1). change (inject_Z 1) with 1. ring. }
      pose proof (round_pos_ge_grid x (k * 2 ^ 8) (-8) Hc) as Hl.
      pose proof (round_pos_le_grid x ((k + 1) * 2 ^ 8 - 1) (-8) Hc) as Hu.
      rewrite G1 in Hl. rewrite G2 in Hu. specialize (Hl Bl). specialize (Hu Bu).
      unfold rnd. cbv zeta. rewrite round_fin_pos by exact Hpos.
      assert (Habs : Qabs (round_pos x) == round_pos x) by (apply Qabs_pos; lra).
      destruct (Qle_bool (pow2 1024) (Qabs (round_pos x))) eqn:E.
      + exfalso. apply Qle_bool_iff in E. rewrite Habs in E.
        pose proof pow2_46_lt as P. rewrite (pow2_Z 46) in P by lia.
        change (inject_Z (2 ^ 46)) with 70368744177664 in P. lra.
      + exists (Qred (round_pos x)). split; [reflexivity|].
        pose proof (Qred_correct (round_pos x)). split; lra.
    - exists (Qred 0). split.
      + unfold rnd. cbv zeta. rewrite (round_fin_zero x) by (symmetry; exact Hz).
        reflexivity.
      + change (Qred 0) with 0. split; lra. }
  destruct R as (q & -> & Hql & Hqu). cbn [int_of_float].
  assert (Hq0 : Qle_bool 0 q = true) by (apply Qle_bool_iff; lra).
  rewrite Hq0. f_equal. apply Qfloor_unique; [exact Hql|].
  rewrite inject_Z_plus. change (inject_Z 1) with 1. lra.
Qed.

End Duplicates.

(** ** Rounding and equality of rationals *)

Section RoundingProper.

Local Open Scope prog_scope.
Local Open Scope Q_scope.

Lemma Qle_bool_comp a b c d : a == c -> b == d -> Qle_bool a b = Qle_bool c d.
Proof.
  intros E1 E2. destruct (Qle_bool a b) eqn:H1, (Qle_bool c d) eqn:H2; try reflexivity.
  - apply Qle_bool_iff in H1. rewrite E1, E2 in H1. apply Qle_bool_iff in H1. congruence.
  - apply Qle_bool_iff in H2. rewrite <- E1, <- E2 in H2. apply Qle_bool_iff in H2. congruence.
Qed.

Lemma round_pos_comp x y : 0 < x -> x == y -> round_pos x == round_pos y.
Proof.
  intros Hx E. unfold round_pos, cexp. rewrite (ilog2_comp x y Hx E).
  set (q := Z.max (ilog2 y - 52) (-1074)).
  rewrite (rne_comp (x / pow2 q) (y / pow2 q)); [reflexivity|].
  rewrite E. reflexivity.
Qed.

Lemma round_fin_comp x y : x == y -> round_fin x == round_fin y.
Proof.
  intros E. destruct (Qnum_sign x) as [[Hx _]|[[Hx _]|[Hx _]]].
  - rewrite (round_fin_zero x Hx), (round_fin_zero y); [reflexivity|].
    rewrite <- E. exact Hx.
  - rewrite (round_fin_pos x Hx), (round_fin_pos y) by (rewrite <- E; exact Hx).
    apply round_pos_comp; assumption.
  - assert (Hy : y < 0) by (rewrite <- E; exact Hx).
    destruct (Qnum_sign x) as [[H _]|[[H _]|[_ [p Ep]]]]; [lra | lra |].
    destruct (Qnum_sign y) as [[H _]|[[H _]|[_ [p' Ep']]]]; [lra | lra |].
    unfold round_fin. rewrite Ep, Ep'.
    apply Qopp_comp. apply round_pos_comp; [lra | rewrite E; reflexivity].
Qed.

Lemma rnd_comp x y : x == y -> rnd x = rnd y.
Proof.
  intros E. unfold rnd. cbv zeta.
  pose proof (round_fin_comp x y E) as Er.
  rewrite (Qle_bool_comp (pow2 1024) (Qabs (round_fin x)) (pow2 1024) (Qabs (round_fin y)));
    [|reflexivity | rewrite Er; reflexivity].
  rewrite (Qle_bool_comp 0 x 0 y); [|reflexivity | exact E].
  rewrite (Qred_complete _ _ Er). reflexivity.
Qed.

(** A draw of [[0, 1)]. *)
Lemma unit_Q_range k : 0 <= unit_Q k /\ unit_Q k < 1.
Proof.
  unfold unit_Q. pose proof (N.mod_upper_bound k (2 ^ 53) ltac:(done)) as H.
  change (2 ^ 53)%N with 9007199254740992%N in *.
  change (2 ^ 53)%positive with 9007199254740992%positive.
  unfold Qle, Qlt. cbn [Qnum Qden].
  generalize dependent (k mod 9007199254740992)%N. intros r H. lia.
Qed.

Lemma unit_float_spec k : exists u, unit_float k = Finite u /\ 0 <= u /\ u < 1.
Proof.
  exists (Qred (unit_Q k)). split; [reflexivity|].
  pose proof (unit_Q_range k). pose proof (Qred_correct (unit_Q k)). split; lra.
Qed.

End RoundingProper.

(** ** Programs *)

Section Programs.

Local Open Scope prog_scope.

(** ** Reasoning about programs of [M] *)

Lemma same_store_refl w : same_store w w.
Proof. done. Qed.

Lemma same_store_trans w1 w2 w3 :
  same_store w1 w2 -> same_store w2 w3 -> same_store w1 w3.
Proof. intros (?&?&?) (?&?&?). repeat split; congruence. Qed.

Lemma returns_ret {A} (x : A) w (P : A -> world -> Prop) : P x w -> returns (ret x) w P.
Proof. intros H. exists x, w. done. Qed.

Lemma returns_bind {A B} (m : M A) (k : A -> M B) w (P : B -> world -> Prop) :
  returns m w (fun x w' => returns (k x) w' P) -> returns (bind m k) w P.
Proof.
  intros (x & w' & Hm & y & w'' & Hk & HP). exists y, w''.
  unfold bind. rewrite Hm. done.
Qed.

Lemma returns_weaken {A} (m : M A) w (P Q : A -> world -> Prop) :
  returns m w P -> (forall x w', P x w' -> Q x w') -> returns m w Q.
Proof. intros (x & w' & Hm & HP) H. exists x, w'. auto. Qed.

Lemma returns_lift {A} (r : result A) x w (P : A -> world -> Prop) :
  r = inr x -> P x w -> returns (lift r) w P.
Proof. intros -> H. exists x, w. done. Qed.

Lemma returns_inv {A} (m : M A) w (P : A -> world -> Prop) x w' :
  returns m w P -> m w = inr (x, w') -> P x w'.
Proof. intros (y & w'' & Hm & HP) E. congruence. Qed.

(** The rule for loops: [I] is kept by every round, [Q] relates the
    element and what the body returned for it. *)
Lemma returns_forM {A B} (l : list A) (f : A -> M B)
    (I : world -> Prop) (Q : A -> B -> Prop) w :
  I w ->
  (forall x w1, x ∈ l -> I w1 -> returns (f x) w1 (fun y w2 => Q x y /\ I w2)) ->
  returns (forM l f) w (fun ys w' => Forall2 Q l ys /\ I w').
Proof.
  revert w. induction l as [|x l IH]; intros w HI Hf.
  - apply returns_ret. split; [constructor | exact HI].
  - cbn [forM]. apply returns_bind.
    eapply returns_weaken; [apply Hf; [left | exact HI]|].
    intros y w1 [HQ HI1]. apply returns_bind.
    eapply returns_weaken; [apply (IH w1 HI1)|].
    + intros x' w2 Hx'. apply Hf. by right.
    + intros ys w2 [HF HI2]. apply returns_ret. split; [by constructor | exact HI2].
Qed.

Lemma returns_replicateM {A} (n : nat) (m : M A)
    (I : world -> Prop) (Q : A -> Prop) w :
  I w ->
  (forall w1, I w1 -> returns m w1 (fun y w2 => Q y /\ I w2)) ->
  returns (replicateM n m) w (fun ys w' => length ys = n /\ Forall Q ys /\ I w').
Proof.
  intros HI Hm. unfold replicateM.
  eapply returns_weaken.
  - apply (returns_forM (seq 0 n) (fun _ => m) I (fun _ y => Q y) w HI).
    intros _ w1 _ HI1. by apply Hm.
  - intros ys w' [HF HI']. split_and!; [|  | exact HI'].
    + apply Forall2_length in HF. rewrite length_seq in HF. done.
    + clear -HF. induction HF; constructor; auto.
Qed.

(** *** Raw draws and the samplers built on them *)

Lemma py_next_spec w : returns py_next w (fun _ w' => same_store w w').
Proof. eexists _, _. split; [reflexivity|]. done. Qed.

Lemma np_next_spec w : returns np_next w (fun _ w' => same_store w w').
Proof. eexists _, _. split; [reflexivity|]. done. Qed.

Lemma random_randint_spec a b w :
  (a <= b)%Z ->
  returns (random_randint a b) w (fun z w' => (a <= z <= b)%Z /\ same_store w w').
Proof.
  intros Hab. unfold random_randint.
  destruct (Z.ltb_spec b a); [lia|].
  apply returns_bind. eapply returns_weaken; [apply py_next_spec|].
  intros k w' Hs. apply returns_ret. split; [|exact Hs].
  pose proof (Z.mod_pos_bound (Z.of_N k) (b - a + 1)). lia.
Qed.

Lemma random_choice_spec {A} (l : list A) w :
  l <> [] ->
  returns (random_choice l) w (fun x w' => x ∈ l /\ same_store w w').
Proof.
  intros Hl. unfold random_choice. apply returns_bind.
  eapply returns_weaken; [apply py_next_spec|]. intros k w' Hs.
  assert (Hlen : (0 < length l)%nat) by (destruct l; [done | simpl; lia]).
  destruct (lookup_lt_is_Some_2 l (N.to_nat k mod length l)%nat) as [x Hx].
  { apply Nat.mod_upper_bound. lia. }
  rewrite Hx. apply returns_ret. split; [|exact Hs].
  eapply list_elem_of_lookup_2, Hx.
Qed.

End Programs.

(** ** Uniform draws *)

Section UniformDraws.

Local Open Scope prog_scope.

Lemma random_random_spec w :
  returns random_random w
    (fun x w' => (exists u, x = Finite u /\ 0 <= u /\ u < 1)%Q /\ same_store w w').
Proof.
  unfold random_random. apply returns_bind.
  eapply returns_weaken; [apply py_next_spec|]. intros k w' Hs.
  apply returns_ret. split; [apply unit_float_spec | exact Hs].
Qed.

Local Open Scope Q_scope.

Lemma is_float_0 : is_float 0.
Proof. reflexivity. Qed.

(** [a + d * u] for a draw [u] of [[0, 1)] stays in [[a, a + d]]. *)
Lemma affine_between a d b u :
  is_float a -> is_float d -> is_float b -> 0 <= a -> 0 <= d -> a + d == b ->
  b < pow2 1024 -> 0 <= u -> u < 1 ->
  exists q, fadd (Finite a) (fmul (Finite d) (Finite u)) = Finite q /\ a <= q /\ q <= b.
Proof.
  intros Fa Fd Fb Ha Hd Hab Hmax Hu0 Hu1.
  destruct (rnd_between 0 d (d * u) is_float_0 Fd) as (t & Et & Ht0 & Htd);
    [lra | nra | nra | lra |].
  cbn [fmul]. rewrite Et. cbn [fadd].
  apply rnd_between; try assumption; lra.
Qed.

Lemma random_uniform_int_spec (a b : Z) w :
  (0 <= a <= b)%Z -> (b < 2 ^ 53)%Z ->
  returns (random_uniform_int a b) w
    (fun x w' => (exists q, x = Finite q /\ inject_Z a <= q /\ q <= inject_Z b) /\ same_store w w').
Proof.
  intros Hab Hb. unfold random_uniform_int. apply returns_bind.
  eapply returns_weaken; [apply random_random_spec|].
  intros x w' [(u & -> & Hu0 & Hu1) Hs]. apply returns_ret. split; [|exact Hs].
  rewrite !of_Z_exact by lia.
  assert (Ia : 0 <= inject_Z a) by (change 0 with (inject_Z 0); rewrite <- Zle_Qle; lia).
  assert (Id : 0 <= inject_Z (b - a)) by (change 0 with (inject_Z 0); rewrite <- Zle_Qle; lia).
  assert (Ib : inject_Z b < pow2 1024).
  { apply Qlt_trans with (pow2 53); [|apply pow2_lt; lia].
    rewrite pow2_Z by lia. rewrite <- Zlt_Qlt. lia. }
  pose proof (Qred_correct (inject_Z a)) as Ea.
  pose proof (Qred_correct (inject_Z (b - a))) as Ed.
  destruct (affine_between (Qred (inject_Z a)) (Qred (inject_Z (b - a))) (inject_Z b) u)
    as (q & Eq & Hql & Hqu); try assumption; try lra.
  - unfold is_float. rewrite (round_fin_comp _ _ Ea), Ea. apply is_float_Z. lia.
  - unfold is_float. rewrite (round_fin_comp _ _ Ed), Ed. apply is_float_Z. lia.
  - apply is_float_Z. lia.
  - rewrite Ea, Ed. unfold Z.sub. rewrite inject_Z_plus, inject_Z_opp. ring.
  - exists q. split; [exact Eq|]. split; lra.
Qed.

(** [round(x, 2)] keeps [x] between two bounds that have two decimals and
    are floats. *)
Lemma py_round2_between (L H : Z) lo hi x :
  lo * 100 == inject_Z L -> hi * 100 == inject_Z H ->
  is_float lo -> is_float hi -> 0 <= lo -> hi < pow2 1024 ->
  lo <= x -> x <= hi ->
  exists q, py_round2 (Finite x) = Finite q /\ lo <= q /\ q <= hi.
Proof.
  intros EL EH Flo Fhi H0 Hmax Hl Hh. cbn [py_round2].
  assert (H1 : (L <= rne (x * 100))%Z) by (apply rne_ge_Z; lra).
  assert (H2 : (rne (x * 100) <= H)%Z) by (apply rne_le_Z; lra).
  rewrite Zle_Qle in H1, H2.
  apply rnd_between; try assumption.
  - apply Qle_shift_div_l; [reflexivity | lra].
  - apply Qle_shift_div_r; [reflexivity | lra].
Qed.

End UniformDraws.

(** ** Product records *)

Section ProductRecords.

Local Open Scope prog_scope.
Local Open Scope Q_scope.

Lemma the_price_ranges_checked :
  forallb (fun c : string =>
             match (list_to_map the_price_ranges : gmap string (Z * Z)) !! c with
             | Some r => range_check r
             | None => false
             end) the_categories = true.
Proof. vm_compute. reflexivity. Qed.

Lemma category_range self c :
  configured self -> c ∈ categories self ->
  exists r, price_ranges self !! c = Some r /\ range_check r = true.
Proof.
  intros [Hc Hr] Hin. rewrite Hc in Hin. rewrite Hr.
  pose proof the_price_ranges_checked as Hchk.
  rewrite forallb_forall in Hchk. apply list_elem_of_In in Hin.
  specialize (Hchk c Hin).
  destruct (list_to_map the_price_ranges !! c) as [r|]; [eauto | discriminate].
Qed.

Lemma product_record_spec self i w :
  configured self ->
  returns (product_record self i) w (fun r w' => product_ok self i r /\ same_store w w').
Proof.
  intros Hcfg. unfold product_record. apply returns_bind.
  eapply returns_weaken.
  { apply random_choice_spec. destruct Hcfg as [-> _]. done. }
  intros category w1 [Hin Hs1].
  destruct (category_range self category Hcfg Hin) as ([lo hi] & Hlk & Hchk). rewrite Hlk.
  unfold range_check in Hchk.
  destruct (fmul (of_Z lo) (lit 4 10)) as [a| |] eqn:Ea;
    try (rewrite andb_false_r in Hchk; discriminate).
  destruct (fmul (of_Z lo) (lit 7 10)) as [b| |] eqn:Eb;
    try (rewrite andb_false_r in Hchk; discriminate).
  destruct (fsub (Finite b) (Finite a)) as [d| |] eqn:Ed;
    try (rewrite !andb_false_r in Hchk; discriminate).
  repeat match goal with
         | H : _ && _ = true |- _ => apply andb_prop in H as [? ?]
         | H : Qeq_bool _ _ = true |- _ => apply Qeq_bool_iff in H
         | H : Qle_bool _ _ = true |- _ => apply Qle_bool_iff in H
         end.
  assert (Hlo : (0 < lo <= hi)%Z) by lia.
  assert (Hhi : (hi < 2 ^ 53)%Z) by lia.
  assert (Ilo : 0 <= inject_Z lo) by (change 0 with (inject_Z 0); rewrite <- Zle_Qle; lia).
  apply returns_bind. eapply returns_weaken; [apply random_uniform_int_spec; lia|].
  intros x w2 [(price & -> & Hpl & Hph) Hs2].
  apply returns_bind. unfold random_uniform. apply returns_bind.
  eapply returns_weaken; [apply random_random_spec|].
  intros x w3 [(u & -> & Hu0 & Hu1) Hs3]. apply returns_ret. rewrite Ed.
  assert (Ihi : inject_Z hi < pow2 1024).
  { apply Qlt_trans with (pow2 53); [|apply pow2_lt; lia].
    rewrite pow2_Z by lia. rewrite <- Zlt_Qlt. lia. }
  assert (Ib : b < pow2 1024).
  { assert (inject_Z lo <= inject_Z hi) by (rewrite <- Zle_Qle; lia). lra. }
  destruct (affine_between a d b u) as (c & Ec & Hcl & Hch); try assumption; try lra.
  rewrite Ec.
  destruct (py_round2_between (lo * 100) (hi * 100) (inject_Z lo) (inject_Z hi) price)
    as (price' & Ep & Hpl' & Hph'); try assumption; try lra.
  { rewrite inject_Z_mult. ring. }
  { rewrite inject_Z_mult. ring. }
  { apply is_float_Z; lia. }
  { apply is_float_Z; lia. }
  destruct (py_round2_between (Qfloor (a * 100)) (Qfloor (b * 100)) a b c)
    as (cost' & Ecost & Hcl' & Hch'); try assumption; try lra.
  apply returns_ret. split.
  - exists category, lo, hi, price', cost', a, b. rewrite Ep, Ecost.
    split; [reflexivity|]. split; [exact Hlk|].
    assert (0 < inject_Z lo) by (change 0 with (inject_Z 0); rewrite <- Zlt_Qlt; lia).
    split_and!; try done; try lra.
  - eapply same_store_trans; [exact Hs1|]. eapply same_store_trans; eassumption.
Qed.

End ProductRecords.

(** ** Heap and frames *)

Section HeapFrames.

Local Open Scope prog_scope.

(** *** The heap *)

Lemma alloc_spec df w : returns (alloc df) w (fun l w' => allocated w w' l df).
Proof.
  eexists _, _. split; [reflexivity|]. split_and!; try done.
  apply (not_elem_of_dom (D := gset nat)). apply is_fresh.
Qed.

Lemma deref_spec l df w :
  heap w !! l = Some df -> returns (deref l) w (fun x w' => x = df /\ w' = w).
Proof. intros H. exists df, w. unfold deref. rewrite H. done. Qed.

Lemma allocated_same_store w0 w1 w2 l df :
  same_store w0 w1 -> allocated w1 w2 l df -> allocated w0 w2 l df.
Proof.
  intros (Hh & Hd & Hf) (Hn & Hh' & Hd' & Hf'). unfold allocated.
  rewrite <- Hh, <- Hd, <- Hf. done.
Qed.

Lemma allocated_lookup w w' l df : allocated w w' l df -> heap w' !! l = Some df.
Proof. intros (_ & -> & _). apply lookup_insert_eq. Qed.

Lemma allocated_frame w w' l df l0 df0 :
  allocated w w' l df -> heap w !! l0 = Some df0 -> heap w' !! l0 = Some df0 /\ l0 <> l.
Proof.
  intros (Hn & -> & _) H0. assert (l0 <> l) by congruence.
  split; [|done]. rewrite lookup_insert_ne; done.
Qed.

(** *** Formatting *)

Lemma of_uint_zero_fill k d : Nat.of_uint (zero_fill k d) = Nat.of_uint d.
Proof. induction k as [|k IH]; [reflexivity|]. cbn [zero_fill]. rewrite <- IH. reflexivity. Qed.

Lemma string_of_uint_inj d d' :
  NilEmpty.string_of_uint d = NilEmpty.string_of_uint d' -> d = d'.
Proof.
  intros H. pose proof (NilEmpty.usu d) as H1. rewrite H, NilEmpty.usu in H1. congruence.
Qed.

Lemma format_d_inj w i j : format_d w i = format_d w j -> i = j.
Proof.
  unfold format_d. intros H%string_of_uint_inj.
  apply (f_equal Nat.of_uint) in H. rewrite !of_uint_zero_fill in H.
  rewrite !DecimalNat.Unsigned.of_to in H. exact H.
Qed.

Lemma NoDup_fmap_seq {A} (f : nat -> A) s n :
  (forall i j, f i = f j -> i = j) -> NoDup (f <$> seq s n).
Proof. intros Hinj. apply NoDup_fmap_2; [exact Hinj | apply NoDup_seq]. Qed.

(** *** Frames built from columns *)

Lemma fmap_lookup_seq {A} (d : A) (l : list A) :
  (fun i : nat => default d (l !! i)) <$> seq 0 (length l) = l.
Proof.
  apply list_eq. intros i. rewrite list_lookup_fmap.
  destruct (decide (i < length l)%nat) as [Hi|Hi].
  - rewrite lookup_seq_lt by exact Hi. simpl.
    destruct (lookup_lt_is_Some_2 l i Hi) as [x Hx]. rewrite Hx. reflexivity.
  - rewrite lookup_seq_ge by lia. simpl. symmetry. apply lookup_ge_None. lia.
Qed.

Lemma column_index_head c cols : column_index c (c :: cols) = Some 0%nat.
Proof. cbn [column_index]. rewrite String.eqb_refl. reflexivity. Qed.

Lemma DataFrame_of_columns_4 c1 c2 c3 c4 (l1 l2 l3 l4 : list cell) :
  length l2 = length l1 -> length l3 = length l1 -> length l4 = length l1 ->
  occurrences c1 [c1; c2; c3; c4] = 1%nat ->
  exists df, DataFrame_of_columns [(c1, l1); (c2, l2); (c3, l3); (c4, l4)] = inr df
    /\ columns df = [c1; c2; c3; c4] /\ len df = length l1
    /\ getitem df c1 = inr (Series l1).
Proof.
  intros H2 H3 H4 Hocc. unfold DataFrame_of_columns. cbn [forallb snd].
  rewrite H2, H3, H4, !Nat.eqb_refl. cbn [andb].
  eexists. split; [reflexivity|]. split; [reflexivity|]. split.
  - unfold len. cbn [rows]. rewrite length_fmap, length_seq. reflexivity.
  - unfold getitem. cbn [columns rows fmap list_fmap fst column_index].
    rewrite String.eqb_refl, Hocc. cbn [Nat.eqb].
    do 2 f_equal. rewrite <- list_fmap_compose. unfold compose. cbn.
    apply fmap_lookup_seq.
Qed.

End HeapFrames.

(** ** Choices *)

Section Choices.

Local Open Scope prog_scope.

(** *** [numpy.random.choice] *)

Lemma size_arg_spec n w :
  (0 <= n)%Z -> returns (size_arg n) w (fun k w' => k = Z.to_nat n /\ w' = w).
Proof.
  intros Hn. unfold size_arg. destruct (Z.ltb_spec n 0); [lia|]. by apply returns_ret.
Qed.

Lemma uniform_draw_spec {A} (a : list A) w :
  a <> [] ->
  returns (k <- np_next ;;
           match a !! (N.to_nat k mod length a)%nat with
           | Some x => ret x
           | None => raise IndexError
           end) w (fun x w' => x ∈ a /\ same_store w w').
Proof.
  intros Ha. apply returns_bind. eapply returns_weaken; [apply np_next_spec|].
  intros k w' Hs.
  assert (Hlen : (0 < length a)%nat) by (destruct a; [done | simpl; lia]).
  destruct (lookup_lt_is_Some_2 a (N.to_nat k mod length a)%nat) as [x Hx].
  { apply Nat.mod_upper_bound. lia. }
  rewrite Hx. apply returns_ret. split; [|exact Hs].
  eapply list_elem_of_lookup_2, Hx.
Qed.

Lemma np_random_choice_spec {A} (a : list A) size w :
  a <> [] -> (0 <= size)%Z ->
  returns (np_random_choice a size) w
    (fun xs w' => length xs = Z.to_nat size /\ Forall (fun x => x ∈ a) xs /\ same_store w w').
Proof.
  intros Ha Hn. unfold np_random_choice. apply returns_bind.
  eapply returns_weaken; [apply size_arg_spec, Hn|]. intros n w' [-> ->].
  destruct a as [|x0 a0]; [done|].
  apply (returns_replicateM (Z.to_nat size) _ (same_store w) (fun x => x ∈ x0 :: a0)).
  - apply same_store_refl.
  - intros w1 H1. eapply returns_weaken; [apply uniform_draw_spec; done|].
    intros x w2 [Hx H2]. split; [exact Hx|]. eapply same_store_trans; eassumption.
Qed.

Local Open Scope Q_scope.

Lemma cumsum_total acc p :
  p <> [] -> exists x, x ∈ cumsum acc p /\ x == acc + Qsum p.
Proof.
  revert acc. induction p as [|y p IH]; intros acc Hp; [done|].
  destruct p as [|z p'].
  - exists (acc + y). split; [left|]. unfold Qsum. simpl. ring.
  - destruct (IH (acc + y) ltac:(done)) as (x & Hx & Ex).
    exists x. split; [cbn [cumsum]; by right|].
    rewrite Ex. unfold Qsum. simpl. ring.
Qed.

Lemma length_cumsum acc p : length (cumsum acc p) = length p.
Proof. revert acc. induction p as [|y p IH]; intros acc; simpl; [done|]. by rewrite IH. Qed.

Lemma length_filter_lt {A} (P : A -> Prop) `{!forall x, Decision (P x)} (l : list A) x :
  x ∈ l -> ~ P x -> (length (filter P l) < length l)%nat.
Proof.
  intros Hin Hx. induction l as [|y l IH]; [by apply elem_of_nil in Hin|].
  pose proof (length_filter P l) as Hle.
  apply elem_of_cons in Hin as [<- | Hin].
  - rewrite filter_cons_False by exact Hx. simpl. lia.
  - specialize (IH Hin). rewrite filter_cons. destruct (decide (P y)); simpl; lia.
Qed.

Lemma valid_p_sum n p : valid_p n p = true -> length p = n /\ 0 < Qsum p.
Proof.
  unfold valid_p. intros H. apply andb_prop in H as [H Hs]. apply andb_prop in H as [Hl _].
  apply Nat.eqb_eq in Hl. split; [exact Hl|].
  apply Qle_bool_iff in Hs. change (pow2 (-26)) with (1 # 67108864) in Hs.
  destruct (Qlt_le_dec 0 (Qsum p)) as [Hp|Hn]; [exact Hp | exfalso].
  rewrite Qabs_neg in Hs by lra. lra.
Qed.

Lemma searchsorted_in_range p u :
  p <> [] -> 0 < Qsum p -> u < 1 -> (searchsorted_right (cdf p) u < length p)%nat.
Proof.
  intros Hp Hs Hu. unfold searchsorted_right, cdf.
  destruct (cumsum_total 0 p Hp) as (x & Hx & Ex).
  rewrite <- (length_cumsum 0 p), <- (length_fmap (fun x0 : Q => x0 / Qsum p) (cumsum 0 p)).
  apply length_filter_lt with (x := x / Qsum p).
  - apply list_elem_of_fmap. exists x. done.
  - intros Hle. apply Qle_bool_iff in Hle.
    assert (E : x / Qsum p == 1) by (rewrite Ex; field; lra).
    rewrite E in Hle. lra.
Qed.

Lemma choice_draw_spec {A} (a : list A) p w :
  a <> [] -> valid_p (length a) p = true ->
  returns (choice_draw a p) w (fun x w' => x ∈ a /\ same_store w w').
Proof.
  intros Ha Hv. destruct (valid_p_sum _ _ Hv) as [Hl Hs].
  unfold choice_draw. apply returns_bind.
  eapply returns_weaken; [apply np_next_spec|]. intros k w' Hw.
  assert (Hp : p <> []) by (intros ->; destruct a; done).
  pose proof (searchsorted_in_range p (unit_Q k) Hp Hs (proj2 (unit_Q_range k))) as Hi.
  rewrite Hl in Hi. destruct (lookup_lt_is_Some_2 a _ Hi) as [x Hx].
  rewrite Hx. apply returns_ret. split; [|exact Hw].
  eapply list_elem_of_lookup_2, Hx.
Qed.

Lemma np_random_choice_p_spec {A} (a : list A) p w :
  a <> [] -> valid_p (length a) p = true ->
  returns (np_random_choice_p a p) w (fun x w' => x ∈ a /\ same_store w w').
Proof.
  intros Ha Hv. unfold np_random_choice_p. destruct a as [|x0 a0]; [done|].
  rewrite Hv. by apply choice_draw_spec.
Qed.

Lemma np_random_choice_p_empty {A} p w : np_random_choice_p (@nil A) p w = inl ValueError.
Proof. reflexivity. Qed.

Lemma np_random_choice_p_n_spec {A} (a : list A) size p w :
  a <> [] -> valid_p (length a) p = true -> (0 <= size)%Z ->
  returns (np_random_choice_p_n a size p) w
    (fun xs w' => length xs = Z.to_nat size /\ Forall (fun x => x ∈ a) xs /\ same_store w w').
Proof.
  intros Ha Hv Hn. unfold np_random_choice_p_n. apply returns_bind.
  eapply returns_weaken; [apply size_arg_spec, Hn|]. intros n w' [-> ->].
  destruct a as [|x0 a0]; [done|]. rewrite Hv.
  apply (returns_replicateM (Z.to_nat size) _ (same_store w) (fun x => x ∈ x0 :: a0)).
  - apply same_store_refl.
  - intros w1 H1. eapply returns_weaken; [apply choice_draw_spec; done|].
    intros x w2 [Hx H2]. split; [exact Hx|]. eapply same_store_trans; eassumption.
Qed.

End Choices.

(** ** Customers and products *)

Section CustomersProducts.

Local Open Scope prog_scope.

Lemma segment_probabilities :
  probabilities [lit 4 10; lit 45 100; lit 15 100] = inr segment_p.
Proof. vm_compute. reflexivity. Qed.

Lemma segment_p_valid : valid_p 3 segment_p = true.
Proof. vm_compute. reflexivity. Qed.

Lemma customer_ids_NoDup n : NoDup (customer_ids n).
Proof.
  apply NoDup_fmap_seq. intros i j H. injection H as H.
  by apply format_d_inj in H.
Qed.

Lemma generate_customers_spec self w :
  (0 <= n_customers self)%Z ->
  returns (generate_customers self) w
    (fun l w' => exists df,
         allocated w w' l df
         /\ columns df = customer_columns
         /\ len df = Z.to_nat (n_customers self)
         /\ getitem df "customer_id" = inr (Series (customer_ids (Z.to_nat (n_customers self))))).
Proof.
  intros Hn. unfold generate_customers. set (n := Z.to_nat (n_customers self)).
  apply returns_bind.
  eapply returns_weaken.
  { apply (returns_forM (range (n_customers self)) _ (same_store w) (fun _ _ => True)).
    - apply same_store_refl.
    - intros _ w1 _ H1. apply returns_bind.
      eapply returns_weaken; [apply random_randint_spec; lia|].
      intros d w2 [_ H2]. apply returns_ret. split; [done|].
      eapply same_store_trans; eassumption. }
  intros dates w1 [Hd H1]. apply Forall2_length in Hd.
  unfold range in Hd. rewrite length_seq in Hd. fold n in Hd.
  apply returns_bind.
  eapply returns_weaken; [apply np_random_choice_spec; [done | exact Hn]|].
  intros country w2 (Hc & _ & H2). fold n in Hc.
  apply returns_bind. eapply returns_lift; [apply segment_probabilities|].
  apply returns_bind.
  eapply returns_weaken;
    [apply np_random_choice_p_n_spec; [done | exact segment_p_valid | exact Hn]|].
  intros segment w3 (Hsg & _ & H3). fold n in Hsg.
  assert (Hid : length ((fun i => CStr ("CUST_" +:+ format_d 5 i)) <$> range (n_customers self)) = n).
  { unfold range. rewrite length_fmap, length_seq. reflexivity. }
  destruct (DataFrame_of_columns_4 "customer_id" "registration_date" "country" "segment"
              ((fun i => CStr ("CUST_" +:+ format_d 5 i)) <$> range (n_customers self))
              dates (CStr <$> country) (CStr <$> segment))
    as (df & Edf & Hcols & Hlen & Hget).
  { rewrite Hid. lia. }
  { rewrite Hid, length_fmap. lia. }
  { rewrite Hid, length_fmap. lia. }
  { reflexivity. }
  apply returns_bind. eapply returns_lift; [exact Edf|].
  eapply returns_weaken; [apply alloc_spec|].
  intros l w4 Hal. exists df. split_and!.
  - eapply allocated_same_store; [|exact Hal].
    eapply same_store_trans; [exact H1|]. eapply same_store_trans; eassumption.
  - exact Hcols.
  - rewrite Hlen, Hid. reflexivity.
  - exact Hget.
Qed.

(** With a negative count numpy refuses the size: [ValueError]. *)
Lemma generate_customers_negative self w :
  (n_customers self < 0)%Z -> generate_customers self w = inl ValueError.
Proof.
  intros Hn. unfold generate_customers, range.
  replace (Z.to_nat (n_customers self)) with 0%nat by lia.
  cbn [seq forM]. unfold bind at 1. cbn [ret].
  unfold bind at 1. unfold np_random_choice. unfold bind at 1.
  unfold size_arg. destruct (Z.ltb_spec (n_customers self) 0); [reflexivity | lia].
Qed.

Lemma generate_products_spec self w :
  configured self ->
  returns (generate_products self) w
    (fun l w' => exists records,
         allocated w w' l (DataFrame_of_records product_columns records)
         /\ Forall2 (product_ok self) (range (n_products self)) records).
Proof.
  intros Hcfg. unfold generate_products. apply returns_bind.
  eapply returns_weaken.
  { apply (returns_forM (range (n_products self)) _ (same_store w) (product_ok self)).
    - apply same_store_refl.
    - intros i w1 _ H1. eapply returns_weaken; [apply product_record_spec, Hcfg|].
      intros r w2 [Hr H2]. split; [exact Hr|]. eapply same_store_trans; eassumption. }
  intros records w1 [Hrec H1].
  eapply returns_weaken; [apply alloc_spec|].
  intros l w2 Hal. exists records. split; [|exact Hrec].
  eapply allocated_same_store; eassumption.
Qed.

End CustomersProducts.

(** ** Missing values and samples *)

Section MissingValues.

Local Open Scope prog_scope.

Lemma corrupts_refl cols r : corrupts cols r r.
Proof. split; [done|]. intros j x x' H1 H2. left. congruence. Qed.

Lemma corrupts_trans cols r1 r2 r3 :
  corrupts cols r1 r2 -> corrupts cols r2 r3 -> corrupts cols r1 r3.
Proof.
  intros [L1 H1] [L2 H2]. split; [congruence|].
  intros j x x' Hx Hx'.
  destruct (lookup_lt_is_Some_2 r2 j) as [y Hy].
  { rewrite L1. eapply lookup_lt_Some, Hx. }
  destruct (H2 j y x' Hy Hx') as [->|[-> Hc]]; [|by right].
  exact (H1 j x y Hx Hy).
Qed.

Lemma set_row_length cols col v r : length (set_row cols col v r) = length r.
Proof.
  revert cols. induction r as [|x r IH]; intros [|c cols]; simpl; try done.
  by rewrite IH.
Qed.

Lemma set_row_corrupts cols col r :
  is_protected col = false -> corrupts cols r (set_row cols col nan r).
Proof.
  intros Hp. split; [apply set_row_length|].
  revert cols. induction r as [|x r IH]; intros cols j y y' Hy Hy'.
  - by destruct j.
  - destruct cols as [|c cols]; [simpl in Hy'; left; congruence|].
    cbn [set_row] in Hy'. destruct j as [|j]; simpl in Hy, Hy'.
    + destruct (String.eqb_spec c col) as [->|_].
      * right. split; [congruence|]. exists col. done.
      * left. congruence.
    + destruct (IH cols j y y' Hy Hy') as [->|[-> (c' & Hc' & Hpc)]]; [by left|].
      right. split; [done|]. exists c'. done.
Qed.

Lemma set_rows_corrupts cols col mask rs :
  is_protected col = false ->
  Forall2 (corrupts cols) rs (set_rows cols col nan mask rs).
Proof.
  intros Hp. revert mask. induction rs as [|r rs IH]; intros mask; [destruct mask; constructor|].
  destruct mask as [|b mask]; cbn [set_rows].
  - apply Forall2_same_length_lookup_2; [done|]. intros i x y Hx Hy.
    simplify_eq. apply corrupts_refl.
  - constructor; [|apply IH]. destruct b; [by apply set_row_corrupts | apply corrupts_refl].
Qed.

Lemma Forall2_corrupts_trans cols rs1 rs2 rs3 :
  Forall2 (corrupts cols) rs1 rs2 -> Forall2 (corrupts cols) rs2 rs3 ->
  Forall2 (corrupts cols) rs1 rs3.
Proof.
  intros H12. revert rs3. induction H12; intros rs3 H23; inversion H23; subst; constructor.
  - eapply corrupts_trans; eassumption.
  - auto.
Qed.

(** *** Sampling rows *)

Lemma sample_indices_spec k pool w :
  (k <= length pool)%nat -> NoDup pool ->
  returns (sample_indices k pool) w
    (fun idx w' => length idx = k /\ NoDup idx /\ Forall (fun i => i ∈ pool) idx
                   /\ same_store w w').
Proof.
  revert pool w. induction k as [|k IH]; intros pool w Hk Hnd.
  - apply returns_ret. split_and!; [done | constructor | constructor | apply same_store_refl].
  - cbn [sample_indices]. apply returns_bind.
    eapply returns_weaken; [apply np_next_spec|]. intros r w1 H1. cbv zeta.
    set (j := (N.to_nat r mod length pool)%nat).
    assert (Hj : (j < length pool)%nat) by (apply Nat.mod_upper_bound; lia).
    destruct (lookup_lt_is_Some_2 pool j Hj) as [i Hi]. rewrite Hi.
    assert (Hdel : length (delete j pool) = (length pool - 1)%nat).
    { rewrite length_delete by eauto. lia. }
    assert (Hsub : forall x, x ∈ delete j pool -> x ∈ pool /\ x <> i).
    { intros x Hx. rewrite <- (take_drop_middle pool j i Hi) in Hnd |- *.
      rewrite delete_take_drop in Hx.
      apply NoDup_app in Hnd as (_ & Hni & Hnd2). apply NoDup_cons in Hnd2 as [Hni2 _].
      apply elem_of_app in Hx as [Hx|Hx].
      - split; [apply elem_of_app; by left|]. intros ->. apply (Hni i Hx). by left.
      - split; [apply elem_of_app; right; by right|]. intros ->. done. }
    assert (Hnd' : NoDup (delete j pool)).
    { exact (sublist_NoDup _ _ Hnd (sublist_delete pool j)). }
    apply returns_bind.
    eapply returns_weaken; [apply IH; [lia | exact Hnd']|].
    intros rest w2 (Hl & Hn & Hf & H2). apply returns_ret. split_and!.
    + simpl. lia.
    + apply NoDup_cons. split; [|exact Hn]. intros Hin.
      rewrite Forall_forall in Hf. destruct (Hsub i (Hf i Hin)). done.
    + constructor; [eapply list_elem_of_lookup_2, Hi|].
      eapply Forall_impl; [exact Hf|]. intros x Hx. by apply Hsub.
    + eapply same_store_trans; [exact H1 | exact H2].
Qed.

Lemma take_rows df idx :
  Forall (fun i => (i < len df)%nat) idx ->
  Forall2 (fun i r => rows df !! i = Some r) idx (rows (take df idx)).
Proof.
  unfold take. cbn [rows]. induction 1 as [|i idx Hi _ IH]; [constructor|].
  destruct (lookup_lt_is_Some_2 (rows df) i Hi) as [r Hr].
  cbn [omap list_omap]. rewrite Hr. by constructor.
Qed.

Lemma sample_spec df size w :
  (0 <= size)%Z -> (Z.to_nat size <= len df)%nat ->
  returns (sample df size) w
    (fun out w' => exists idx,
         columns out = columns df /\ length idx = Z.to_nat size /\ NoDup idx
         /\ Forall2 (fun i r => rows df !! i = Some r) idx (rows out)
         /\ same_store w w').
Proof.
  intros H0 Hn. unfold sample. apply returns_bind.
  eapply returns_weaken; [apply size_arg_spec, H0|]. intros n w1 [-> ->].
  destruct (Nat.ltb_spec (len df) (Z.to_nat size)); [lia|].
  apply returns_bind.
  eapply returns_weaken;
    [apply sample_indices_spec; [rewrite length_seq; lia | apply NoDup_seq]|].
  intros idx w2 (Hl & Hnd & Hf & Hs). apply returns_ret.
  exists idx. split_and!; try done.
  apply take_rows. eapply Forall_impl; [exact Hf|].
  intros i Hi. apply elem_of_seq in Hi. lia.
Qed.

Lemma sample_too_many df size w :
  (Z.of_nat (len df) < size)%Z -> sample df size w = inl ValueError.
Proof.
  intros H. unfold sample, bind, size_arg.
  destruct (Z.ltb_spec size 0); [lia|]. cbn [ret].
  destruct (Nat.ltb_spec (len df) (Z.to_nat size)); [reflexivity | lia].
Qed.

End MissingValues.

(** ** The injector *)

Section Injector.

Local Open Scope prog_scope.

Lemma np_random_random_spec n w :
  returns (np_random_random n) w
    (fun xs w' => length xs = n /\ Forall unit_draw xs /\ same_store w w').
Proof.
  unfold np_random_random.
  apply (returns_replicateM n _ (same_store w) unit_draw); [apply same_store_refl|].
  intros w1 H1. apply returns_bind. eapply returns_weaken; [apply np_next_spec|].
  intros k w2 H2. apply returns_ret. split; [apply unit_float_spec|].
  eapply same_store_trans; eassumption.
Qed.

Lemma corrupt_column_spec Rel w0 c cols rows0 rate col w :
  mask_stable Rel cols rate rows0 ->
  copy_inv Rel w0 c cols rows0 w ->
  returns (corrupt_column c rate col) w (fun _ w' => copy_inv Rel w0 c cols rows0 w').
Proof.
  intros Hstep (rs & Hh & Hrs & Hd & Hf). unfold corrupt_column.
  destruct (is_protected col) eqn:Hp.
  - apply returns_ret. exists rs. done.
  - assert (Hc : heap w !! c = Some (mkDataFrame cols rs)).
    { rewrite Hh. apply lookup_insert_eq. }
    apply returns_bind. eapply returns_weaken; [apply deref_spec, Hc|].
    intros cur w1 [-> ->]. apply returns_bind.
    eapply returns_weaken; [apply np_random_random_spec|].
    intros draws w2 (_ & Hdraws & Hh2 & Hd2 & Hf2).
    unfold returns, loc_setitem. rewrite Hh2, Hc.
    eexists tt, _. split; [reflexivity|].
    exists (set_rows cols col nan ((fun u => flt u rate) <$> draws) rs). cbn.
    split_and!.
    + rewrite Hh, insert_insert_eq. reflexivity.
    + by apply Hstep.
    + congruence.
    + congruence.
Qed.

Lemma Forall2_corrupts_refl cols rs : Forall2 (corrupts cols) rs rs.
Proof. induction rs; constructor; [apply corrupts_refl | done]. Qed.

Lemma corrupts_mask_stable cols rate rows0 : mask_stable (corrupts cols) cols rate rows0.
Proof.
  intros col draws rs Hp _ Hrs.
  eapply Forall2_corrupts_trans; [exact Hrs|]. by apply set_rows_corrupts.
Qed.

(** The injector, start to end, for any relation the column loop keeps. *)
Lemma injector_spec (Rel : row -> row -> Prop) self l df rate w :
  heap w !! l = Some df ->
  (Z.of_nat (len df) < 2 ^ 46)%Z ->
  Forall2 Rel (rows df) (rows df) ->
  mask_stable Rel (columns df) rate (rows df) ->
  returns (add_data_quality_issues self l rate) w
    (fun l' w' => exists c corrupted dups idx,
         heap w' = <[l' := mkDataFrame (columns df) (corrupted ++ dups)]>
                     (<[c := mkDataFrame (columns df) corrupted]> (heap w))
         /\ heap w !! c = None /\ heap w !! l' = None /\ l' <> c
         /\ dirs w' = dirs w /\ files w' = files w
         /\ Forall2 Rel (rows df) corrupted
         /\ length idx = Z.to_nat (Z.of_nat (len df) / 100)
         /\ NoDup idx
         /\ Forall2 (fun i r => corrupted !! i = Some r) idx dups).
Proof.
  intros Hl Hlen Hrefl Hstep. unfold add_data_quality_issues.
  apply returns_bind. eapply returns_weaken; [apply deref_spec, Hl|].
  intros d w1 [-> ->]. apply returns_bind.
  eapply returns_weaken; [apply alloc_spec|].
  intros c w1 (Hc & Hh1 & Hd1 & Hf1).
  assert (Hinv : copy_inv Rel w c (columns df) (rows df) w1).
  { exists (rows df). split_and!; done. }
  assert (Hc1 : heap w1 !! c = Some (copy df)) by (rewrite Hh1; apply lookup_insert_eq).
  apply returns_bind. apply returns_bind.
  eapply returns_weaken; [apply deref_spec, Hc1|].
  intros x w2 [-> ->]. apply returns_ret. cbn [copy columns].
  apply returns_bind.
  eapply returns_weaken.
  { apply (returns_forM (columns df) _ (copy_inv Rel w c (columns df) (rows df))
             (fun _ _ => True) w1 Hinv).
    intros col w2 _ H2. eapply returns_weaken; [apply corrupt_column_spec; [exact Hstep | exact H2]|].
    intros ? w3 H3. done. }
  intros ? w2 [_ (rs & Hh2 & Hrs & Hd2 & Hf2)].
  assert (Hc2 : heap w2 !! c = Some (mkDataFrame (columns df) rs)).
  { rewrite Hh2. apply lookup_insert_eq. }
  apply returns_bind. eapply returns_weaken; [apply deref_spec, Hc2|].
  intros cur w3 [-> ->].
  assert (Hrl : length rs = len df).
  { apply Forall2_length in Hrs. unfold len. lia. }
  unfold len at 1. cbn [rows]. rewrite Hrl.
  apply returns_bind. eapply returns_lift.
  { apply n_duplicates_exact. lia. }
  set (k := (Z.of_nat (len df) / 100)%Z).
  assert (Hk : (0 <= k)%Z /\ (Z.to_nat k <= len df)%nat).
  { unfold k. pose proof (Z.div_pos (Z.of_nat (len df)) 100 ltac:(lia) ltac:(lia)).
    pose proof (Z.div_le_upper_bound (Z.of_nat (len df)) 100 (Z.of_nat (len df))
                  ltac:(lia) ltac:(lia)). lia. }
  apply returns_bind.
  eapply returns_weaken.
  { apply sample_spec; [apply Hk|]. unfold len at 1. cbn [rows]. rewrite Hrl. apply Hk. }
  intros dups w3 (idx & Hcols & Hil & Hnd & Hrows & (Hh3 & Hd3 & Hf3)).
  cbn [rows columns] in Hrows, Hcols.
  eapply returns_weaken; [apply alloc_spec|].
  intros l' w4 (Hn4 & Hh4 & Hd4 & Hf4).
  exists c, rs, (rows dups), idx.
  rewrite Hh3, Hh2 in Hh4, Hn4.
  apply lookup_insert_None in Hn4 as [Hn4 Hne].
  split_and!; try done; congruence.
Qed.

Lemma add_data_quality_issues_spec self l df rate w :
  heap w !! l = Some df ->
  (Z.of_nat (len df) < 2 ^ 46)%Z ->
  returns (add_data_quality_issues self l rate) w
    (fun l' w' => exists c corrupted dups idx,
         heap w' = <[l' := mkDataFrame (columns df) (corrupted ++ dups)]>
                     (<[c := mkDataFrame (columns df) corrupted]> (heap w))
         /\ heap w !! c = None /\ heap w !! l' = None /\ l' <> c
         /\ dirs w' = dirs w /\ files w' = files w
         /\ Forall2 (corrupts (columns df)) (rows df) corrupted
         /\ length idx = Z.to_nat (Z.of_nat (len df) / 100)
         /\ NoDup idx
         /\ Forall2 (fun i r => corrupted !! i = Some r) idx dups).
Proof.
  intros Hl Hlen. apply injector_spec; try assumption.
  - apply Forall2_corrupts_refl.
  - apply corrupts_mask_stable.
Qed.

End Injector.

(** ** The draws of the numpy generator *)

Section NumpyDraws.

Local Open Scope prog_scope.

(** *** How far the numpy generator moves *)

Lemma np_drew_refl w : np_drew 0 w w.
Proof. split; [reflexivity | lia]. Qed.

Lemma np_drew_trans a b w1 w2 w3 :
  np_drew a w1 w2 -> np_drew b w2 w3 -> np_drew (a + b) w1 w3.
Proof. intros [R1 C1] [R2 C2]. split; [congruence | lia]. Qed.

Lemma np_peek_drew k w w' i : np_drew k w w' -> np_peek w' i = np_peek w (k + i).
Proof. intros [R C]. unfold np_peek. rewrite R, C. f_equal. lia. Qed.

Lemma bind_inv {A B} (m : M A) (f : A -> M B) w y w' :
  bind m f w = inr (y, w') -> exists x w1, m w = inr (x, w1) /\ f x w1 = inr (y, w').
Proof.
  unfold bind. destruct (m w) as [e|[x w1]]; [discriminate|]. eauto.
Qed.

Lemma draws_ret {A} (x : A) : draws (ret x) 0.
Proof. intros w y w' E. injection E as <- <-. apply np_drew_refl. Qed.

Lemma draws_raise {A} e : draws (@raise A e) 0.
Proof. intros w y w' E. discriminate. Qed.

Lemma draws_lift {A} (r : result A) : draws (lift r) 0.
Proof.
  intros w y w' E. unfold lift in E. destruct r; [discriminate|].
  injection E as <- <-. apply np_drew_refl.
Qed.

Lemma draws_bind {A B} (m : M A) (f : A -> M B) a b :
  draws m a -> (forall x, draws (f x) b) -> draws (bind m f) (a + b).
Proof.
  intros Hm Hf w y w' E. apply bind_inv in E as (x & w1 & E1 & E2).
  eapply np_drew_trans; [eapply Hm, E1 | eapply Hf, E2].
Qed.

Lemma draws_eq {A} (m : M A) a b : a = b -> draws m a -> draws m b.
Proof. by intros ->. Qed.

Lemma draws_py_next : draws py_next 0.
Proof. intros w y w' E. injection E as <- <-. split; [reflexivity | simpl; lia]. Qed.

Lemma draws_np_next : draws np_next 1.
Proof. intros w y w' E. injection E as <- <-. split; [reflexivity | simpl; lia]. Qed.

Lemma draws_alloc df : draws (alloc df) 0.
Proof. intros w y w' E. injection E as <- <-. split; [reflexivity | simpl; lia]. Qed.

Lemma draws_deref l : draws (deref l) 0.
Proof.
  intros w y w' E. unfold deref in E. destruct (heap w !! l); [|discriminate].
  injection E as <- <-. apply np_drew_refl.
Qed.

Lemma draws_forM {A B} (l : list A) (f : A -> M B) k :
  (forall x, draws (f x) k) -> draws (forM l f) (length l * k).
Proof.
  intros Hf. induction l as [|x l IH]; [apply draws_ret|].
  cbn [forM length]. eapply draws_eq; [|apply draws_bind; [apply Hf|]].
  2:{ intros y. apply draws_bind; [apply IH|]. intros ys. apply draws_ret. }
  lia.
Qed.

Lemma draws_replicateM {A} n (m : M A) k : draws m k -> draws (replicateM n m) (n * k).
Proof.
  intros Hm. unfold replicateM. eapply draws_eq; [|apply draws_forM; intros _; exact Hm].
  by rewrite length_seq.
Qed.

Lemma draws_random_randint a b : draws (random_randint a b) 0.
Proof.
  unfold random_randint. destruct (b <? a)%Z; [apply draws_raise|].
  apply (draws_bind _ _ 0 0); [apply draws_py_next|]. intros k. apply draws_ret.
Qed.

Lemma draws_random_random : draws random_random 0.
Proof. apply (draws_bind _ _ 0 0); [apply draws_py_next|]. intros k. apply draws_ret. Qed.

Lemma draws_random_uniform a b : draws (random_uniform a b) 0.
Proof. apply (draws_bind _ _ 0 0); [apply draws_random_random|]. intros k. apply draws_ret. Qed.

Lemma draws_random_uniform_int a b : draws (random_uniform_int a b) 0.
Proof. apply (draws_bind _ _ 0 0); [apply draws_random_random|]. intros k. apply draws_ret. Qed.

Lemma draws_random_choice {A} (l : list A) : draws (random_choice l) 0.
Proof.
  apply (draws_bind _ _ 0 0); [apply draws_py_next|]. intros k.
  destruct (l !! _); [apply draws_ret | apply draws_raise].
Qed.

Lemma draws_uniform_draw {A} (a : list A) :
  draws (k <- np_next ;;
         match a !! (N.to_nat k mod length a)%nat with
         | Some x => ret x
         | None => raise IndexError
         end) 1.
Proof.
  apply (draws_bind _ _ 1 0); [apply draws_np_next|]. intros k.
  destruct (a !! _); [apply draws_ret | apply draws_raise].
Qed.

Lemma draws_choice_draw {A} (a : list A) p : draws (choice_draw a p) 1.
Proof.
  apply (draws_bind _ _ 1 0); [apply draws_np_next|]. intros k.
  destruct (a !! _); [apply draws_ret | apply draws_raise].
Qed.

(** A run that returns has the size it was asked for. *)
Lemma draws_size_arg {A} size (f : nat -> M A) k :
  draws (f (Z.to_nat size)) k -> draws (n <- size_arg size ;; f n) k.
Proof.
  intros Hf w y w' E. apply bind_inv in E as (n & w1 & E1 & E2).
  unfold size_arg in E1. destruct (size <? 0)%Z; [discriminate|].
  injection E1 as <- <-. eapply Hf, E2.
Qed.

Lemma draws_np_random_choice {A} (a : list A) size :
  draws (np_random_choice a size) (Z.to_nat size).
Proof.
  unfold np_random_choice. apply draws_size_arg.
  assert (H : draws (replicateM (Z.to_nat size)
                       (k <- np_next ;;
                        match a !! (N.to_nat k mod length a)%nat with
                        | Some x => ret x
                        | None => raise IndexError
                        end)) (Z.to_nat size)).
  { eapply draws_eq; [|apply draws_replicateM, draws_uniform_draw]. lia. }
  destruct a, (Z.to_nat size); try exact H. intros w y w' E. discriminate.
Qed.

Lemma draws_np_random_choice_p_n {A} (a : list A) size p :
  draws (np_random_choice_p_n a size p) (Z.to_nat size).
Proof.
  unfold np_random_choice_p_n. apply draws_size_arg.
  assert (H : draws (if valid_p (length a) p
                     then replicateM (Z.to_nat size) (choice_draw a p)
                     else raise ValueError) (Z.to_nat size)).
  { destruct (valid_p _ _); [|intros w y w' E; discriminate].
    eapply draws_eq; [|apply draws_replicateM, draws_choice_draw]. lia. }
  destruct a, (Z.to_nat size); try exact H. intros w y w' E. discriminate.
Qed.

(** [generate_customers] makes two draws for every customer: the country and
    the segment. *)
Lemma draws_generate_customers self :
  draws (generate_customers self) (2 * Z.to_nat (n_customers self)).
Proof.
  unfold generate_customers. cbv zeta.
  eapply draws_eq; cycle 1.
  - eapply draws_bind.
    + apply draws_forM. intros _. apply (draws_bind _ _ 0 0); [apply draws_random_randint|].
      intros d. apply draws_ret.
    + intros dates. eapply draws_bind; [apply draws_np_random_choice|].
      intros country. eapply (draws_bind _ _ 0); [apply draws_lift|].
      intros p. eapply draws_bind; [apply draws_np_random_choice_p_n|].
      intros segment. apply (draws_bind _ _ 0 0); [apply draws_lift|].
      intros customers. apply draws_alloc.
  - lia.
Qed.

Lemma draws_product_record self i : draws (product_record self i) 0.
Proof.
  unfold product_record. apply (draws_bind _ _ 0 0); [apply draws_random_choice|].
  intros category. destruct (price_ranges self !! category) as [[lo hi]|]; [|apply draws_raise].
  apply (draws_bind _ _ 0 0); [apply draws_random_uniform_int|]. intros price.
  apply (draws_bind _ _ 0 0); [apply draws_random_uniform|]. intros cost.
  apply draws_ret.
Qed.

(** [generate_products] uses the [random] module only. *)
Lemma draws_generate_products self : draws (generate_products self) 0.
Proof.
  unfold generate_products. eapply draws_eq; cycle 1.
  - eapply (draws_bind _ _ _ 0).
    + apply draws_forM. intros i. apply draws_product_record.
    + intros products. apply draws_alloc.
  - lia.
Qed.

(** *** The exponential variates *)

Lemma forM_np_next_exact (f : N -> Q) n : forall s w,
  exists w', forM (seq s n) (fun _ => k <- np_next ;; ret (f k)) w
             = inr ((fun i => f (np_peek w i)) <$> seq 0 n, w')
    /\ same_store w w' /\ np_drew n w w'.
Proof.
  induction n as [|n IH]; intros s w.
  - exists w. split; [reflexivity|]. split; [apply same_store_refl | apply np_drew_refl].
  - cbn [seq forM].
    set (w1 := mkWorld (py_random w) (mkTape (raw (np_random w)) (S (cursor (np_random w))))
                 (heap w) (dirs w) (files w)).
    destruct (IH (S s) w1) as (w' & E & Hs & Hd).
    exists w'. split_and!.
    + unfold bind at 1. unfold bind at 1. unfold np_next at 1. cbn [ret]. fold w1.
      unfold bind at 1. rewrite E. unfold ret. cbn [fmap list_fmap]. do 3 f_equal.
      * unfold np_peek. do 2 f_equal. lia.
      * rewrite <- fmap_S_seq, <- list_fmap_compose. apply list_fmap_ext.
        intros _ i _. unfold compose, np_peek. subst w1. cbn [np_random raw cursor]. do 2 f_equal. lia.
    + destruct Hs as (H1 & H2 & H3). subst w1. cbn [heap dirs files] in H1, H2, H3. done.
    + destruct Hd as [R C]. subst w1. cbn [np_random raw cursor] in R, C. split; [exact R | lia].
Qed.

Lemma np_random_exponential_exact n w :
  exists w', np_random_exponential (3 # 2) n w = inr (variates w 0 n, w')
    /\ same_store w w' /\ np_drew n w w'.
Proof.
  unfold np_random_exponential, replicateM.
  destruct (forM_np_next_exact (fun k => ((3 # 2) * inject_Z (Z.of_N k))%Q) n 0 w)
    as (w' & E & Hs & Hd).
  exists w'. split; [|done]. rewrite E. reflexivity.
Qed.

End NumpyDraws.

(** ** One transaction *)

Section OneTransaction.

Local Open Scope prog_scope.

Lemma quantity_probabilities :
  probabilities [lit 7 10; lit 15 100; lit 8 100; lit 5 100; lit 2 100] = inr quantity_p.
Proof. vm_compute. reflexivity. Qed.

Lemma quantity_p_valid : valid_p 5 quantity_p = true.
Proof. vm_compute. reflexivity. Qed.

Lemma days_span : days_between datetime_2023_01_01 datetime_2024_12_31 = 730%Z.
Proof. reflexivity. Qed.

(** *** Columns *)

Lemma column_index_elem c cols : c ∈ cols -> exists j, column_index c cols = Some j.
Proof.
  induction cols as [|c' cols IH]; intros Hin; [by apply elem_of_nil in Hin|].
  cbn [column_index]. destruct (String.eqb_spec c' c) as [->|Hne]; [eauto|].
  apply elem_of_cons in Hin as [->|Hin]; [done|].
  destruct (IH Hin) as [j ->]. simpl. eauto.
Qed.

Lemma column_index_None c cols : c ∉ cols -> column_index c cols = None.
Proof.
  induction cols as [|c' cols IH]; intros Hin; [done|].
  cbn [column_index]. apply not_elem_of_cons in Hin as [Hne Hin].
  destruct (String.eqb_spec c' c) as [->|_]; [done|]. by rewrite IH.
Qed.

Lemma occurrences_elem c cols : (1 <= occurrences c cols)%nat -> c ∈ cols.
Proof.
  unfold occurrences. induction cols as [|c' cols IH]; cbn [filter list_filter]; [simpl; lia|].
  destruct (decide (String.eqb c' c = true)) as [E|E].
  - intros _. apply String.eqb_eq in E as ->. left.
  - intros H. right. auto.
Qed.

Lemma occurrences_None c cols : c ∉ cols -> occurrences c cols = 0%nat.
Proof.
  intros H. destruct (occurrences c cols) as [|n] eqn:E; [reflexivity|].
  exfalso. apply H, occurrences_elem. lia.
Qed.

Lemma unique_column_elem df c : unique_column df c -> c ∈ columns df.
Proof. intros H. apply occurrences_elem. unfold unique_column in H. lia. Qed.

Lemma row_getitem_unique cols r c :
  occurrences c cols = 1%nat ->
  exists j, column_index c cols = Some j /\ row_getitem cols r c = inr (default nan (r !! j)).
Proof.
  intros H. destruct (column_index_elem c cols) as [j Hj].
  { apply occurrences_elem. lia. }
  exists j. split; [exact Hj|]. unfold row_getitem. rewrite Hj, H. reflexivity.
Qed.

Lemma getitem_elem df c :
  unique_column df c -> exists l, getitem df c = inr (Series l) /\ length l = len df
    /\ forall r, r ∈ rows df -> exists x, row_getitem (columns df) r c = inr x /\ x ∈ l.
Proof.
  intros Hu. destruct (column_index_elem c _ (unique_column_elem _ _ Hu)) as [j Hj].
  unfold unique_column in Hu.
  unfold getitem, row_getitem. rewrite Hj, Hu. cbn [Nat.eqb]. eexists. split; [reflexivity|].
  split; [by rewrite length_fmap|].
  intros r Hr. eexists. split; [reflexivity|].
  apply list_elem_of_fmap. exists r. done.
Qed.

(** Under a repeated label the selection is a frame. *)
Lemma getitem_repeated df c :
  (2 <= occurrences c (columns df))%nat -> exists sub, getitem df c = inr (SubFrame sub).
Proof.
  intros H. destruct (column_index_elem c (columns df)) as [j Hj].
  { apply occurrences_elem. lia. }
  unfold getitem. rewrite Hj.
  destruct (Nat.eqb_spec (occurrences c (columns df)) 1) as [E|_]; [lia|]. eauto.
Qed.

Lemma getitem_missing df c : c ∉ columns df -> getitem df c = inl KeyError.
Proof. intros H. unfold getitem. by rewrite column_index_None. Qed.

(** *** One transaction *)

Lemma iloc0_spec df w r rs :
  rows df = r :: rs -> returns (iloc0 df) w (fun x w' => x = r /\ w' = w).
Proof. intros H. unfold iloc0. rewrite H. by apply returns_ret. Qed.

Lemma transaction_record_spec ids weights p products i w :
  ids <> [] -> probabilities weights = inr p -> valid_p (length ids) p = true ->
  (1 <= len products)%nat ->
  unique_column products "product_id" ->
  numeric_column products "price" ->
  returns (transaction_record (Series ids) weights products i) w
    (fun r w' => transaction_ok ids products i r /\ same_store w w').
Proof.
  intros Hids Hp Hw Hlen Hpid Hnum. unfold transaction_record. cbv zeta.
  apply returns_bind. eapply returns_lift; [reflexivity|].
  apply returns_bind. eapply returns_lift; [exact Hp|].
  apply returns_bind.
  eapply returns_weaken; [apply np_random_choice_p_spec; assumption|].
  intros cid w1 [Hcid H1]. apply returns_bind.
  eapply returns_weaken; [apply (sample_spec products 1); [lia | simpl; lia]|].
  intros drawn w2 (idx & Hcols & Hil & _ & Hrows & H2).
  destruct idx as [|j [|? ?]]; try discriminate.
  inversion Hrows as [|? product ? rest Hj Hrest E1 E2]. subst.
  inversion Hrest; subst.
  assert (Hprod : product ∈ rows products) by (eapply list_elem_of_lookup_2, Hj).
  apply returns_bind. eapply returns_weaken; [eapply iloc0_spec; eauto|].
  intros ? w3 [-> ->]. rewrite days_span.
  apply returns_bind. eapply returns_weaken; [apply random_randint_spec; lia|].
  intros days w3 [Hdays H3]. apply returns_bind.
  eapply returns_weaken; [apply random_randint_spec; lia|].
  intros hours w4 [Hhours H4]. apply returns_bind.
  eapply returns_weaken; [apply random_randint_spec; lia|].
  intros minutes w5 [Hminutes H5].
  apply returns_bind. eapply returns_lift; [apply quantity_probabilities|].
  apply returns_bind.
  eapply returns_weaken;
    [apply (np_random_choice_p_spec [1; 2; 3; 4; 5]%Z); [done | apply quantity_p_valid]|].
  intros quantity w6 [Hq H6]. apply returns_bind.
  eapply returns_weaken; [apply random_random_spec|].
  intros r w7 [_ H7]. apply returns_bind.
  apply returns_weaken with
    (P := fun d w8 => discount_ok d /\ same_store w7 w8).
  { destruct (fgt r (lit 2 10)).
    - apply returns_ret. split; [by left | apply same_store_refl].
    - apply returns_bind. unfold random_uniform. apply returns_bind.
      eapply returns_weaken; [apply random_random_spec|].
      intros x w8 [(u & -> & Hu) H8]. apply returns_ret. apply returns_ret.
      split; [|exact H8]. right. exists u. done. }
  intros discount w8 [Hd H8].
  unfold numeric_column in Hnum. rewrite Forall_forall in Hnum.
  destruct (Hnum product Hprod) as [price Hprice].
  destruct (row_getitem_unique (columns products) product _ Hpid) as (jp & Hjp & Hgp).
  apply returns_bind. eapply returns_lift; [exact Hprice|].
  apply returns_bind. eapply returns_lift; [reflexivity|].
  apply returns_bind. eapply returns_lift; [exact Hgp|].
  apply returns_ret. split.
  - exists cid, product, (default nan (product !! jp)),
      (datetime_2023_01_01 + timedelta days hours minutes)%Z, quantity, price, discount.
    assert (Hq' : (1 <= quantity <= 5)%Z).
    { repeat (apply elem_of_cons in Hq as [->|Hq]; [lia|]). by apply elem_of_nil in Hq. }
    assert (Hdate : (datetime_2023_01_01 <= datetime_2023_01_01 + timedelta days hours minutes
                     <= datetime_2024_12_31 + 23 * 60 + 59)%Z).
    { unfold timedelta, datetime_2023_01_01, datetime_2024_12_31, datetime_of_ordinal. lia. }
    split_and!; try done; try lia.
  - repeat (eapply same_store_trans; [eassumption|]). apply same_store_refl.
Qed.

End OneTransaction.

(** ** Transactions *)

Section Transactions.

Local Open Scope prog_scope.

Lemma length_variates w s n : length (variates w s n) = n.
Proof. unfold variates. by rewrite length_fmap, length_seq. Qed.

Local Open Scope Q_scope.

Lemma variates_nonneg w s n : Forall (fun x => 0 <= x) (variates w s n).
Proof.
  unfold variates. apply Forall_fmap, Forall_forall. intros i _. cbn.
  apply Qmult_le_0_compat; [discriminate|].
  change 0 with (inject_Z 0). rewrite <- Zle_Qle. lia.
Qed.

Lemma Qsum_nonneg l : Forall (fun x => 0 <= x) l -> 0 <= Qsum l.
Proof. induction 1; unfold Qsum in *; simpl; lra. Qed.

Lemma Qsum_pos l : Forall (fun x => 0 <= x) l -> Exists (fun x => 0 < x) l -> 0 < Qsum l.
Proof.
  intros Hn He. induction He as [x l Hx|x l He IH].
  - apply Forall_cons in Hn as [_ Hn]. pose proof (Qsum_nonneg l Hn).
    unfold Qsum in *. simpl. lra.
  - apply Forall_cons in Hn as [Hx Hn]. specialize (IH Hn). unfold Qsum in *. simpl. lra.
Qed.

Lemma Qsum_zero l : Forall (fun x => x == 0) l -> Qsum l == 0.
Proof. induction 1 as [|x l Hx _ IH]; unfold Qsum in *; simpl; [reflexivity | lra]. Qed.

Lemma variates_positive w s n : np_draw_nonzero w s n -> 0 < Qsum (variates w s n).
Proof.
  intros (i & Hi & Hne). apply Qsum_pos; [apply variates_nonneg|].
  unfold variates. apply Exists_fmap, Exists_exists. exists i. split.
  - apply elem_of_seq. lia.
  - cbn. apply Qmult_lt_0_compat; [reflexivity|].
    change 0 with (inject_Z 0). rewrite <- Zlt_Qlt. lia.
Qed.

Lemma variates_zero w s n : np_draws_zero w s n -> Qsum (variates w s n) == 0.
Proof.
  intros H. apply Qsum_zero. unfold variates. apply Forall_fmap, Forall_forall.
  intros i Hi. apply elem_of_seq in Hi. cbn. rewrite H by lia. reflexivity.
Qed.

Lemma Qsum_scale s l : Qsum ((fun x => x / s) <$> l) == Qsum l / s.
Proof.
  induction l as [|x l IH]; unfold Qsum in *; simpl.
  - unfold Qdiv. ring.
  - rewrite IH. unfold Qdiv. ring.
Qed.

Lemma probabilities_Finite (l : list Q) : probabilities (Finite <$> l) = inr l.
Proof. induction l as [|x l IH]; [reflexivity|]. cbn. by rewrite IH. Qed.

(** Variates that are not all zero, divided by their sum, are accepted by
    [choice]. *)
Lemma normalise_valid (drawn : list Q) :
  Forall (fun x => 0 <= x) drawn -> 0 < Qsum drawn ->
  exists p, probabilities (normalise drawn) = inr p
    /\ valid_p (length drawn) p = true.
Proof.
  intros Hpos Hs. exists ((fun x => x / Qsum drawn) <$> drawn). split.
  - unfold normalise. rewrite <- probabilities_Finite, <- list_fmap_compose.
    f_equal. apply list_fmap_ext. intros _ x _. unfold compose, exact_div.
    destruct (Qeq_bool (Qsum drawn) 0) eqn:E; [|reflexivity].
    apply Qeq_bool_iff in E. lra.
  - unfold valid_p. rewrite length_fmap, Nat.eqb_refl. cbn [andb].
    apply andb_true_intro. split.
    + apply forallb_forall. intros y Hy. apply in_map_iff in Hy as (x & <- & Hx).
      apply Qle_bool_iff. rewrite Forall_forall in Hpos.
      apply list_elem_of_In in Hx. specialize (Hpos x Hx).
      apply Qle_shift_div_l; [exact Hs | lra].
    + apply Qle_bool_iff. rewrite Qsum_scale.
      assert (E : Qsum drawn / Qsum drawn - 1 == 0) by (field; lra).
      rewrite E. discriminate.
Qed.

(** Variates that are all zero give weights that are NaN, which [choice]
    refuses. *)
Lemma normalise_zero (drawn : list Q) :
  drawn <> [] -> Qsum drawn == 0 -> probabilities (normalise drawn) = inl ValueError.
Proof.
  intros Hne Hs. destruct drawn as [|x l]; [done|].
  unfold normalise. cbn [fmap list_fmap probabilities]. unfold exact_div at 1.
  apply Qeq_bool_iff in Hs. rewrite Hs.
  destruct (Qeq_bool x 0); reflexivity.
Qed.

Local Close Scope Q_scope.

Lemma np_random_exponential_spec n w :
  returns (np_random_exponential (3 # 2) n) w
    (fun xs w' => length xs = n /\ Forall (fun x => 0 <= x)%Q xs /\ same_store w w').
Proof.
  destruct (np_random_exponential_exact n w) as (w' & E & Hs & _).
  exists (variates w 0 n), w'. split; [exact E|].
  split_and!; [apply length_variates | apply variates_nonneg | exact Hs].
Qed.

Lemma DataFrame_of_records_rows cols records :
  rows (DataFrame_of_records cols records) = records.
Proof. by destruct records. Qed.

Lemma elem_of_range i n : i ∈ range n -> (1 <= n)%Z.
Proof. unfold range. intros H%elem_of_seq. lia. Qed.

Lemma generate_transactions_spec self lc lp cdf pdf w :
  heap w !! lc = Some cdf -> heap w !! lp = Some pdf ->
  (1 <= len pdf)%nat ->
  unique_column cdf "customer_id" ->
  unique_column pdf "product_id" ->
  numeric_column pdf "price" ->
  ((1 <= n_transactions self)%Z -> np_draw_nonzero w 0 (len cdf)) ->
  returns (generate_transactions self lc lp) w
    (fun l w' => exists ids records,
         allocated w w' l (DataFrame_of_records transaction_columns records)
         /\ getitem cdf "customer_id" = inr (Series ids)
         /\ Forall2 (transaction_ok ids pdf) (range (n_transactions self)) records).
Proof.
  intros Hc Hp Hlp Hcid Hpid Hnum Hnz. unfold generate_transactions.
  apply returns_bind. eapply returns_weaken; [apply deref_spec, Hc|].
  intros ? w1 [-> ->]. apply returns_bind.
  eapply returns_weaken; [apply deref_spec, Hp|].
  intros ? w1 [-> ->]. apply returns_bind.
  destruct (np_random_exponential_exact (len cdf) w) as (w1 & E1 & H1 & _).
  exists (variates w 0 (len cdf)), w1. split; [exact E1|]. cbv zeta.
  destruct (getitem_elem cdf "customer_id" Hcid) as (ids & Hget & Hil & _).
  apply returns_bind.
  eapply returns_weaken.
  { apply (returns_forM (range (n_transactions self)) _ (same_store w1)
             (transaction_ok ids pdf)); [apply same_store_refl|].
    intros i w2 Hi%elem_of_range H2. specialize (Hnz Hi).
    assert (Hlc : (1 <= len cdf)%nat) by (destruct Hnz as (j & Hj & _); lia).
    assert (Hine : ids <> []) by (intros ->; simpl in Hil; lia).
    destruct (normalise_valid (variates w 0 (len cdf)) (variates_nonneg _ _ _)
                (variates_positive _ _ _ Hnz)) as (p & Hprob & Hv).
    rewrite length_variates, <- Hil in Hv.
    apply returns_bind. eapply returns_lift; [exact Hget|].
    eapply returns_weaken; [eapply transaction_record_spec; eassumption|].
    intros r w3 [Hr H3]. split; [exact Hr|]. eapply same_store_trans; eassumption. }
  intros records w2 [Hrec H2].
  eapply returns_weaken; [apply alloc_spec|].
  intros l w3 Hal. exists ids, records. split_and!; try done.
  eapply allocated_same_store; [|exact Hal]. eapply same_store_trans; eassumption.
Qed.

(** *** Failing runs *)

Lemma raises_bind_l {A B} (m : M A) (k : A -> M B) w e :
  m w = inl e -> bind m k w = inl e.
Proof. intros H. unfold bind. by rewrite H. Qed.

Lemma raises_bind_r {A B} (m : M A) (k : A -> M B) w e :
  returns m w (fun x w' => k x w' = inl e) -> bind m k w = inl e.
Proof. intros (x & w' & Hm & Hk). unfold bind. by rewrite Hm. Qed.

Lemma range_pos n : (1 <= n)%Z -> exists l, range n = 0%nat :: l.
Proof.
  intros Hn. unfold range. destruct (Z.to_nat n) as [|k] eqn:E; [lia|].
  eexists. reflexivity.
Qed.

Lemma elem_occurrences c cols : c ∈ cols -> (1 <= occurrences c cols)%nat.
Proof.
  unfold occurrences. induction 1 as [c cols|c c' cols _ IH]; rewrite filter_cons.
  - rewrite decide_True by apply String.eqb_refl. simpl. lia.
  - destruct (decide _); simpl; lia.
Qed.

(** The first transaction, up to the point where the customer is drawn. *)
Lemma first_customer_raises self lc lp cdf pdf w e :
  heap w !! lc = Some cdf -> heap w !! lp = Some pdf ->
  (1 <= n_transactions self)%Z ->
  (forall w1, same_store w w1 ->
     (sel <- lift (getitem cdf "customer_id") ;;
      transaction_record sel (normalise (variates w 0 (len cdf))) pdf 0) w1 = inl e) ->
  generate_transactions self lc lp w = inl e.
Proof.
  intros Hc Hp Hn Hbody. unfold generate_transactions.
  apply raises_bind_r. eapply returns_weaken; [apply deref_spec, Hc|].
  intros ? w1 [-> ->]. apply raises_bind_r.
  eapply returns_weaken; [apply deref_spec, Hp|].
  intros ? w1 [-> ->]. apply raises_bind_r.
  destruct (np_random_exponential_exact (len cdf) w) as (w1 & E1 & H1 & _).
  exists (variates w 0 (len cdf)), w1. split; [exact E1|]. cbv zeta.
  apply raises_bind_l.
  destruct (range_pos _ Hn) as [l ->]. cbn [forM]. apply raises_bind_l.
  apply Hbody, H1.
Qed.

(** Under a repeated label [customers['customer_id']] is a frame, which
    [choice] refuses. *)
Lemma generate_transactions_repeated_label self lc lp cdf pdf w :
  heap w !! lc = Some cdf -> heap w !! lp = Some pdf ->
  (2 <= occurrences "customer_id" (columns cdf))%nat ->
  (1 <= n_transactions self)%Z ->
  generate_transactions self lc lp w = inl ValueError.
Proof.
  intros Hc Hp Hrep Hn. eapply first_customer_raises; try eassumption.
  intros w1 _. destruct (getitem_repeated cdf _ Hrep) as [sub Hsub].
  apply raises_bind_r. eapply returns_lift; [exact Hsub|].
  unfold transaction_record. apply raises_bind_l. reflexivity.
Qed.

(** Variates that are all zero: the weights are NaN and [choice] raises. *)
Lemma generate_transactions_zero_weights self lc lp cdf pdf w :
  heap w !! lc = Some cdf -> heap w !! lp = Some pdf ->
  (1 <= len cdf)%nat -> "customer_id"%string ∈ columns cdf ->
  np_draws_zero w 0 (len cdf) ->
  (1 <= n_transactions self)%Z ->
  generate_transactions self lc lp w = inl ValueError.
Proof.
  intros Hc Hp Hlc Hcid Hz Hn.
  pose proof (elem_occurrences _ _ Hcid) as Hocc.
  destruct (decide (occurrences "customer_id" (columns cdf) = 1%nat)) as [Hu|Hu];
    [|eapply generate_transactions_repeated_label; try eassumption; lia].
  eapply first_customer_raises; try eassumption.
  intros w1 _. destruct (getitem_elem cdf "customer_id" Hu) as (ids & Hget & Hil & _).
  apply raises_bind_r. eapply returns_lift; [exact Hget|].
  unfold transaction_record. apply raises_bind_r. eapply returns_lift; [reflexivity|].
  apply raises_bind_l. unfold lift. rewrite normalise_zero; [reflexivity| |].
  - intros E. apply (f_equal length) in E. rewrite length_variates in E. simpl in E. lia.
  - apply variates_zero, Hz.
Qed.

(** Without customers the first draw fails inside numpy. *)
Lemma generate_transactions_no_customers self lc lp cdf pdf w :
  heap w !! lc = Some cdf -> heap w !! lp = Some pdf ->
  len cdf = 0%nat -> "customer_id"%string ∈ columns cdf ->
  (1 <= n_transactions self)%Z ->
  generate_transactions self lc lp w = inl ValueError.
Proof.
  intros Hc Hp Hlen Hcid Hn.
  pose proof (elem_occurrences _ _ Hcid) as Hocc.
  destruct (decide (occurrences "customer_id" (columns cdf) = 1%nat)) as [Hu|Hu];
    [|eapply generate_transactions_repeated_label; try eassumption; lia].
  eapply first_customer_raises; try eassumption.
  intros w1 _. destruct (getitem_elem cdf "customer_id" Hu) as (ids & Hget & Hil & _).
  assert (ids = []) as -> by (destruct ids; [done | simpl in Hil; lia]).
  apply raises_bind_r. eapply returns_lift; [exact Hget|].
  unfold transaction_record. apply raises_bind_r. eapply returns_lift; [reflexivity|].
  rewrite Hlen. apply raises_bind_r. eapply returns_lift; [reflexivity|].
  apply raises_bind_l. reflexivity.
Qed.

Lemma np_draws_dec w s n : np_draw_nonzero w s n \/ np_draws_zero w s n.
Proof.
  induction n as [|n [(i & Hi & Hne)|Hz]].
  - right. intros i Hi. lia.
  - left. exists i. split; [lia | exact Hne].
  - destruct (decide (np_peek w (s + n) = 0%N)) as [E|E].
    + right. intros i Hi. destruct (decide (i = n)) as [->|Hin]; [exact E | apply Hz; lia].
    + left. exists n. split; [lia | exact E].
Qed.

(** Without products [sample(1)] fails inside pandas, if [choice] has not
    failed before: it is [ValueError] in both cases. *)
Lemma generate_transactions_no_products self lc lp cdf pdf w :
  heap w !! lc = Some cdf -> heap w !! lp = Some pdf ->
  (1 <= len cdf)%nat -> "customer_id"%string ∈ columns cdf ->
  len pdf = 0%nat ->
  (1 <= n_transactions self)%Z ->
  generate_transactions self lc lp w = inl ValueError.
Proof.
  intros Hc Hp Hlc Hcid Hlen Hn.
  pose proof (elem_occurrences _ _ Hcid) as Hocc.
  destruct (decide (occurrences "customer_id" (columns cdf) = 1%nat)) as [Hu|Hu];
    [|eapply generate_transactions_repeated_label; try eassumption; lia].
  destruct (np_draws_dec w 0 (len cdf)) as [Hnz|Hz];
    [|eapply generate_transactions_zero_weights; eassumption].
  eapply first_customer_raises; try eassumption.
  intros w1 _. destruct (getitem_elem cdf "customer_id" Hu) as (ids & Hget & Hil & _).
  assert (Hine : ids <> []) by (intros ->; simpl in Hil; lia).
  destruct (normalise_valid (variates w 0 (len cdf)) (variates_nonneg _ _ _)
              (variates_positive _ _ _ Hnz)) as (p & Hprob & Hv).
  rewrite length_variates, <- Hil in Hv.
  apply raises_bind_r. eapply returns_lift; [exact Hget|].
  unfold transaction_record. cbv zeta.
  apply raises_bind_r. eapply returns_lift; [reflexivity|].
  apply raises_bind_r. eapply returns_lift; [exact Hprob|].
  apply raises_bind_r.
  eapply returns_weaken; [apply np_random_choice_p_spec; assumption|].
  intros cid w2 _. apply raises_bind_l.
  apply sample_too_many. lia.
Qed.

End Transactions.

(** ** Paths and files *)

Section PathsFiles.

Local Open Scope prog_scope.

(** *** Paths *)

Lemma split_slash_nonempty s : split_slash s <> [].
Proof.
  destruct s as [|a s]; [done|]. cbn [split_slash].
  destruct (Ascii.eqb a "/"); [done|]. destruct (split_slash s); done.
Qed.

(** The names of [d/name] are the names of [d], then the names of [name]. *)
Lemma split_slash_path d name :
  split_slash (path d name) = split_slash d ++ split_slash name.
Proof.
  unfold path. induction d as [|a d IH]; [reflexivity|].
  change (String a d +:+ "/" +:+ name)%string with (String a (d +:+ "/" +:+ name)).
  cbn [split_slash]. rewrite IH.
  destruct (Ascii.eqb a "/"); [reflexivity|].
  destruct (split_slash d) as [|h t] eqn:E; [by apply split_slash_nonempty in E|].
  reflexivity.
Qed.

Lemma last_app_nonempty {A} (l k : list A) : k <> [] -> last (l ++ k) = last k.
Proof.
  intros Hk. destruct k as [|x k _] using rev_ind; [done|].
  by rewrite app_assoc, !last_snoc.
Qed.

Lemma last_split_slash_path d name :
  last (split_slash (path d name)) = last (split_slash name).
Proof. rewrite split_slash_path. apply last_app_nonempty, split_slash_nonempty. Qed.

(** A file is opened under its own name. *)
Lemma open_w_last file D q :
  open_w file D = inr q -> last q = last (split_slash file).
Proof.
  unfold open_w. destruct (absolute file); [discriminate|].
  destruct (last (split_slash file)) as [name|]; [|discriminate].
  destruct (stays name || String.eqb name ".."); [discriminate|].
  destruct (lookup_dir _ _ _) as [e|p]; [discriminate|].
  destruct (decide _); [discriminate|]. intros [= <-]. apply last_snoc.
Qed.

Lemma open_w_not_dir file D q : open_w file D = inr q -> q ∉ D.
Proof.
  unfold open_w. destruct (absolute file); [discriminate|].
  destruct (last (split_slash file)) as [name|]; [|discriminate].
  destruct (stays name || String.eqb name ".."); [discriminate|].
  destruct (lookup_dir _ _ _) as [e|p]; [discriminate|].
  destruct (decide _) as [|Hn]; [discriminate|]. by intros [= <-].
Qed.

(** Two files of different names are opened at different places, whatever
    the directories. *)
Lemma open_w_neq d1 n1 d2 n2 D q1 q2 :
  open_w (path d1 n1) D = inr q1 -> open_w (path d2 n2) D = inr q2 ->
  last (split_slash n1) <> last (split_slash n2) -> q1 <> q2.
Proof.
  intros H1%open_w_last H2%open_w_last Hne ->.
  rewrite last_split_slash_path in H1, H2. congruence.
Qed.

(** *** The disk *)

(** [os.makedirs] only adds directories. *)
Lemma mkdirs_from_subseteq cs : forall p D F D',
  mkdirs_from p cs D F = inr D' -> D ⊆ D'.
Proof.
  induction cs as [|c cs IH]; intros p D F D' H; cbn [mkdirs_from] in H.
  - by injection H as <-.
  - destruct (stays c); [by eapply IH|].
    destruct (String.eqb c "..").
    { destruct p; [discriminate | by eapply IH]. }
    destruct (decide _); [by eapply IH|].
    destruct (decide _); [discriminate|].
    apply IH in H. set_solver.
Qed.

Lemma mkdirs_subseteq d D F D' : mkdirs d D F = inr D' -> D ⊆ D'.
Proof.
  unfold mkdirs. destruct (String.eqb d EmptyString); [discriminate|].
  destruct (absolute d); [discriminate|]. apply mkdirs_from_subseteq.
Qed.

(** The directory that was created is found afterwards. *)
Lemma mkdirs_from_lookup cs : forall p D F D' D'',
  mkdirs_from p cs D F = inr D' -> D' ⊆ D'' ->
  exists q, lookup_dir p cs D'' = inr q.
Proof.
  induction cs as [|c cs IH]; intros p D F D' D'' H Hsub; cbn [mkdirs_from] in H;
    cbn [lookup_dir].
  - eauto.
  - destruct (stays c); [by eapply IH|].
    destruct (String.eqb c "..").
    { destruct p; [discriminate | by eapply IH]. }
    destruct (decide (p ++ [c] ∈ D)) as [Hin|Hnin].
    + pose proof (mkdirs_from_subseteq _ _ _ _ _ H).
      rewrite decide_True by set_solver. by eapply IH.
    + destruct (decide _); [discriminate|].
      pose proof (mkdirs_from_subseteq _ _ _ _ _ H).
      rewrite decide_True by set_solver. by eapply IH.
Qed.

Lemma makedirs_spec d D w :
  mkdirs d (dirs w) (files w) = inr D ->
  returns (makedirs d) w
    (fun _ w' => heap w' = heap w /\ files w' = files w /\ dirs w' = D
                 /\ py_random w' = py_random w /\ np_random w' = np_random w).
Proof.
  intros H. unfold returns, makedirs. rewrite H.
  eexists tt, _. split; [reflexivity|]. done.
Qed.


Lemma to_csv_spec l file q df w :
  heap w !! l = Some df -> open_w file (dirs w) = inr q ->
  returns (to_csv l file) w
    (fun _ w' => heap w' = heap w /\ dirs w' = dirs w
                 /\ files w' = <[q := df]> (files w)).
Proof.
  intros Hl Hq. unfold returns, to_csv. rewrite Hl, Hq.
  eexists tt, _. split; [reflexivity|]. done.
Qed.

Lemma to_csv_raises l file e df w :
  heap w !! l = Some df -> open_w file (dirs w) = inl e -> to_csv l file w = inl e.
Proof. intros Hl Hq. unfold to_csv. by rewrite Hl, Hq. Qed.

End PathsFiles.

(** ** The orchestrator *)

Section Orchestrator.

Local Open Scope prog_scope.

Lemma returns_step {A B} (m : M A) (k : A -> M B) w x w1 (P : B -> world -> Prop) :
  m w = inr (x, w1) -> returns (k x) w1 P -> returns (bind m k) w P.
Proof. intros E (y & w2 & Ek & HP). exists y, w2. unfold bind. rewrite E. done. Qed.

Lemma np_draw_nonzero_drew k w w' s n :
  np_drew k w w' -> np_draw_nonzero w (k + s) n -> np_draw_nonzero w' s n.
Proof.
  intros Hd (i & Hi & Hne). exists i. split; [exact Hi|].
  rewrite (np_peek_drew k w w') by exact Hd. by rewrite Nat.add_assoc.
Qed.

Lemma product_ok_price self i r :
  product_ok self i r ->
  exists x, row_getitem product_columns r "price" = inr (CNum x).
Proof. intros (cat & lo & hi & price & cost & a & b & -> & _). eexists. reflexivity. Qed.

Lemma products_frame self n records :
  Forall2 (product_ok self) (seq 0 (S n)) records ->
  let df := DataFrame_of_records product_columns records in
  (1 <= len df)%nat /\ unique_column df "product_id" /\ numeric_column df "price".
Proof.
  intros H. pose proof (Forall2_length _ _ _ H) as Hl. rewrite length_seq in Hl.
  destruct records as [|r records]; [discriminate|]. cbn.
  split; [unfold len; simpl; lia|]. split; [reflexivity|].
  unfold numeric_column. cbn [rows columns]. apply Forall_forall. intros x Hx.
  apply list_elem_of_lookup in Hx as [i Hi].
  destruct (Forall2_lookup_r _ _ _ _ _ H Hi) as (j & _ & Hok).
  eapply product_ok_price, Hok.
Qed.

Lemma makedirs_eq d D w :
  mkdirs d (dirs w) (files w) = inr D -> makedirs d w = inr (tt, with_dirs w D).
Proof. intros H. unfold makedirs. rewrite H. reflexivity. Qed.

Lemma generate_all_spec self o c w D place :
  configured self ->
  (1 <= n_customers self)%Z -> (1 <= n_products self)%Z ->
  (n_transactions self < 2 ^ 46)%Z ->
  weights_defined self w ->
  disk_ready w o c D place ->
  returns (generate_all self o c) w
    (fun _ w' => exists C P T R ids precs trecs,
         files w' = written w place o c C P T R
         /\ dirs w' = D
         /\ generated self (with_dirs w D) C P T
         /\ columns C = customer_columns
         /\ len C = Z.to_nat (n_customers self)
         /\ getitem C "customer_id" = inr (Series ids)
         /\ ids = customer_ids (Z.to_nat (n_customers self))
         /\ P = DataFrame_of_records product_columns precs
         /\ Forall2 (product_ok self) (range (n_products self)) precs
         /\ T = DataFrame_of_records transaction_columns trecs
         /\ Forall2 (transaction_ok ids P) (range (n_transactions self)) trecs
         /\ injected T R).
Proof.
  intros Hcfg Hnc Hnp Hnt Hwd (D1 & Hm1 & Hm2 & Hopen). unfold generate_all.
  eapply returns_step; [apply makedirs_eq, Hm1|].
  eapply returns_step; [apply (makedirs_eq c D (with_dirs w D1)), Hm2|].
  change (with_dirs (with_dirs w D1) D) with (with_dirs w D).
  set (w2 := with_dirs w D).
  destruct (generate_customers_spec self w2 ltac:(lia))
    as (lc & w3 & Ec & C & HaC & HcolC & HlenC & HgetC).
  eapply returns_step; [exact Ec|].
  destruct HaC as (HnC & Hh3 & Hd3 & Hf3).
  destruct (generate_products_spec self w3 Hcfg) as (lp & w4 & Ep & precs & HaP & Hprecs).
  eapply returns_step; [exact Ep|].
  destruct HaP as (HnP & Hh4 & Hd4 & Hf4).
  set (P := DataFrame_of_records product_columns precs) in *.
  assert (HlC3 : heap w3 !! lc = Some C) by (rewrite Hh3; apply lookup_insert_eq).
  assert (HlC4 : heap w4 !! lc = Some C).
  { rewrite Hh4. rewrite lookup_insert_ne; [exact HlC3|]. intros ->. congruence. }
  assert (HlP4 : heap w4 !! lp = Some P) by (rewrite Hh4; apply lookup_insert_eq).
  assert (HP : (1 <= len P)%nat /\ unique_column P "product_id" /\ numeric_column P "price").
  { unfold range in Hprecs. destruct (Z.to_nat (n_products self)) as [|n] eqn:E; [lia|].
    by apply (products_frame self n). }
  destruct HP as (HlenP & HpidP & HnumP).
  assert (Hnz : (1 <= n_transactions self)%Z -> np_draw_nonzero w4 0 (len C)).
  { intros H1. rewrite HlenC.
    apply (np_draw_nonzero_drew 0 w3); [eapply draws_generate_products, Ep|].
    apply (np_draw_nonzero_drew (2 * Z.to_nat (n_customers self)) w2);
      [eapply draws_generate_customers, Ec|].
    rewrite Nat.add_0_r. exact (Hwd H1). }
  destruct (generate_transactions_spec self lc lp C P w4 HlC4 HlP4 HlenP) as
    (lt & w5 & Et & ids & trecs & HaT & Hids & Htrecs); try assumption.
  { unfold unique_column. rewrite HcolC. reflexivity. }
  eapply returns_step; [exact Et|].
  destruct HaT as (HnT & Hh5 & Hd5 & Hf5).
  set (T := DataFrame_of_records transaction_columns trecs) in *.
  assert (HlT5 : heap w5 !! lt = Some T) by (rewrite Hh5; apply lookup_insert_eq).
  assert (HlC5 : heap w5 !! lc = Some C).
  { rewrite Hh5, lookup_insert_ne; [done|]. intros ->. congruence. }
  assert (HlP5 : heap w5 !! lp = Some P).
  { rewrite Hh5, lookup_insert_ne; [done|]. intros ->. congruence. }
  assert (Hgen : generated self w2 C P T).
  { exists lc, w3, lp, w4, lt, w5. done. }
  assert (Hd : dirs w5 = D) by (rewrite Hd5, Hd4, Hd3; reflexivity).
  unfold the_files in Hopen.
  repeat match goal with
         | H : Forall _ (_ :: _) |- _ => apply Forall_cons in H as [? H]
         end.
  clear Hopen.
  apply returns_bind.
  eapply returns_weaken; [eapply (to_csv_spec lc _ _ C); [assumption | rewrite Hd; eassumption]|].
  intros ? w6 (Hh6 & Hd6 & Hf6). rewrite <- Hh6 in HlC5, HlP5, HlT5. rewrite <- Hd6 in Hd.
  apply returns_bind.
  eapply returns_weaken; [eapply (to_csv_spec lp _ _ P); [assumption | rewrite Hd; eassumption]|].
  intros ? w7 (Hh7 & Hd7 & Hf7). rewrite <- Hh7 in HlC5, HlP5, HlT5. rewrite <- Hd7 in Hd.
  apply returns_bind.
  eapply returns_weaken; [eapply (to_csv_spec lt _ _ T); [assumption | rewrite Hd; eassumption]|].
  intros ? w8 (Hh8 & Hd8 & Hf8). rewrite <- Hh8 in HlC5, HlP5, HlT5. rewrite <- Hd8 in Hd.
  assert (HlenT : (Z.of_nat (len T) < 2 ^ 46)%Z).
  { unfold len, T. rewrite DataFrame_of_records_rows.
    apply Forall2_length in Htrecs. rewrite <- Htrecs. unfold range. rewrite length_seq. lia. }
  apply returns_bind.
  eapply returns_weaken; [apply (add_data_quality_issues_spec self lt T); assumption|].
  intros lr w9 (cp & corrupted & dups & idx & Hh9 & Hncp & Hnlr & Hne & Hd9 & Hf9 & Hcor & Hil & Hnd & Hdups).
  set (R := mkDataFrame (columns T) (corrupted ++ dups)) in *.
  assert (HlR : heap w9 !! lr = Some R) by (rewrite Hh9; apply lookup_insert_eq).
  assert (HlC9 : heap w9 !! lc = Some C).
  { rewrite Hh9, !lookup_insert_ne; [done| |]; intros ->; congruence. }
  assert (HlP9 : heap w9 !! lp = Some P).
  { rewrite Hh9, !lookup_insert_ne; [done| |]; intros ->; congruence. }
  rewrite <- Hd9 in Hd.
  apply returns_bind.
  eapply returns_weaken; [eapply (to_csv_spec lc _ _ C); [assumption | rewrite Hd; eassumption]|].
  intros ? w10 (Hh10 & Hd10 & Hf10). rewrite <- Hh10 in HlC9, HlP9, HlR. rewrite <- Hd10 in Hd.
  apply returns_bind.
  eapply returns_weaken; [eapply (to_csv_spec lp _ _ P); [assumption | rewrite Hd; eassumption]|].
  intros ? w11 (Hh11 & Hd11 & Hf11). rewrite <- Hh11 in HlC9, HlP9, HlR. rewrite <- Hd11 in Hd.
  eapply returns_weaken; [eapply (to_csv_spec lr _ _ R); [assumption | rewrite Hd; eassumption]|].
  intros ? w12 (Hh12 & Hd12 & Hf12).
  exists C, P, T, R, ids, precs, trecs. split_and!; try done.
  - unfold written. rewrite Hf12, Hf11, Hf10, Hf9, Hf8, Hf7, Hf6, Hf5, Hf4, Hf3.
    reflexivity.
  - congruence.
  - congruence.
  - split; [done|]. exists corrupted, dups, idx. done.
Qed.

End Orchestrator.

(** ** The six files *)

Section SixFiles.

Local Open Scope prog_scope.

Ltac places_differ :=
  eapply open_w_neq; [eassumption | eassumption | vm_compute; discriminate].

(** The six files after the run, whatever the two directories are. *)
Lemma written_lookups w o c D place C P T R :
  disk_ready w o c D place ->
  let fs := written w place o c C P T R in
  fs !! place (path c "customers.csv") = Some C
  /\ fs !! place (path c "products.csv") = Some P
  /\ fs !! place (path c "transactions.csv") = Some T
  /\ fs !! place (path o "customers_raw.csv") = Some C
  /\ fs !! place (path o "products_raw.csv") = Some P
  /\ fs !! place (path o "transactions_raw.csv") = Some R.
Proof.
  intros (D1 & _ & _ & Hopen). unfold the_files in Hopen.
  repeat match goal with
         | H : Forall _ (_ :: _) |- _ => apply Forall_cons in H as [? H]
         end.
  clear Hopen. cbv zeta. unfold written. split_and!.
  - do 5 (rewrite lookup_insert_ne by places_differ). apply lookup_insert_eq.
  - do 4 (rewrite lookup_insert_ne by places_differ). apply lookup_insert_eq.
  - do 3 (rewrite lookup_insert_ne by places_differ). apply lookup_insert_eq.
  - do 2 (rewrite lookup_insert_ne by places_differ). apply lookup_insert_eq.
  - do 1 (rewrite lookup_insert_ne by places_differ). apply lookup_insert_eq.
  - apply lookup_insert_eq.
Qed.

Lemma written_other w place o c C P T R q :
  q ∉ place <$> the_files o c ->
  written w place o c C P T R !! q = files w !! q.
Proof.
  intros Hq. unfold written.
  rewrite !lookup_insert_ne; [done|..]; intros <-; apply Hq;
    unfold the_files; cbn [fmap list_fmap]; set_solver.
Qed.

(** *** Directories given by plain relative paths *)








End SixFiles.

(** ** Properties of the injector *)

Section InjectorProperties.

Local Open Scope prog_scope.

Lemma is_protected_elem c : is_protected c = true <-> c ∈ protected.
Proof.
  unfold is_protected, protected. cbn [existsb]. rewrite !orb_true_iff, !String.eqb_eq.
  rewrite !elem_of_cons, elem_of_nil. naive_solver.
Qed.

Lemma injected_len df out :
  injected df out ->
  Z.of_nat (len out) = (Z.of_nat (len df) + Z.of_nat (len df) / 100)%Z.
Proof.
  intros (_ & corrupted & dups & idx & Hr & Hc & Hi & _ & Hd).
  unfold len at 1. rewrite Hr, length_app.
  apply Forall2_length in Hc, Hd. unfold len in *. rewrite <- Hc, <- Hd, Hi.
  pose proof (Z.div_pos (Z.of_nat (length (rows df))) 100 ltac:(lia) ltac:(lia)). lia.
Qed.

Lemma injector_result self l df rate w :
  heap w !! l = Some df -> (Z.of_nat (len df) < 2 ^ 46)%Z ->
  exists l' w' out,
    add_data_quality_issues self l rate w = inr (l', w')
    /\ heap w' !! l' = Some out /\ heap w' !! l = Some df /\ l' <> l
    /\ injected df out.
Proof.
  intros Hl Hn.
  destruct (add_data_quality_issues_spec self l df rate w Hl Hn)
    as (l' & w' & E & c & corrupted & dups & idx & Hh & Hc & Hl' & Hne & _ & _ & Hcor & Hil & Hnd & Hd).
  exists l', w', (mkDataFrame (columns df) (corrupted ++ dups)).
  assert (l' <> l) by (intros ->; congruence).
  assert (c <> l) by (intros ->; congruence).
  split_and!; try done.
  - rewrite Hh. apply lookup_insert_eq.
  - rewrite Hh, !lookup_insert_ne by done. exact Hl.
  - split; [done|]. exists corrupted, dups, idx. done.
Qed.

(** C5. For an input table of N rows the injector returns N + N // 100 rows:
    the N rows of the input, possibly with missing values, followed by the
    block of duplicates. *)
Theorem injector_row_count self l df rate w :
  heap w !! l = Some df -> (Z.of_nat (len df) < 2 ^ 46)%Z ->
  exists l' w' out,
    add_data_quality_issues self l rate w = inr (l', w')
    /\ heap w' !! l' = Some out
    /\ Z.of_nat (len out) = (Z.of_nat (len df) + Z.of_nat (len df) / 100)%Z
    /\ exists corrupted dups,
         rows out = corrupted ++ dups
         /\ length corrupted = len df
         /\ Forall2 (corrupts (columns df)) (rows df) corrupted
         /\ Z.of_nat (length dups) = (Z.of_nat (len df) / 100)%Z
         /\ Forall (fun r => r ∈ corrupted) dups.
Proof.
  intros Hl Hn.
  destruct (injector_result self l df rate w Hl Hn) as (l' & w' & out & E & Ho & _ & _ & Hinj).
  exists l', w', out. split_and!; try done; [by apply injected_len|].
  destruct Hinj as (_ & corrupted & dups & idx & Hr & Hc & Hi & _ & Hd).
  exists corrupted, dups. split_and!; try done.
  - apply Forall2_length in Hc. unfold len. lia.
  - apply Forall2_length in Hd. rewrite <- Hd, Hi.
    pose proof (Z.div_pos (Z.of_nat (len df)) 100 ltac:(lia) ltac:(lia)). lia.
  - clear -Hd. induction Hd as [|i r idx dups Hi _ IH]; constructor; [|exact IH].
    eapply list_elem_of_lookup_2, Hi.
Qed.

Lemma injector_row_count_witness :
  exists l' w' out,
    add_data_quality_issues (example_generator 1 1 1) 0%nat (lit 2 100) many_rows_world
    = inr (l', w')
    /\ heap w' !! l' = Some out
    /\ Z.of_nat (len out) = (250 + 2)%Z
    /\ exists corrupted dups,
         rows out = corrupted ++ dups
         /\ length corrupted = 250%nat
         /\ Forall2 (corrupts (columns many_rows)) (rows many_rows) corrupted
         /\ Z.of_nat (length dups) = 2%Z
         /\ Forall (fun r => r ∈ corrupted) dups.
Proof.
  apply (injector_row_count (example_generator 1 1 1) 0%nat many_rows (lit 2 100)
           many_rows_world).
  - reflexivity.
  - reflexivity.
Defined.

(** C9. The injector leaves the frame it is given as it was: after the call
    the input location still holds the input table, and the result is
    another object. *)
Theorem injector_keeps_input self l df rate w :
  heap w !! l = Some df -> (Z.of_nat (len df) < 2 ^ 46)%Z ->
  exists l' w',
    add_data_quality_issues self l rate w = inr (l', w')
    /\ heap w' !! l = Some df /\ l' <> l.
Proof.
  intros Hl Hn.
  destruct (injector_result self l df rate w Hl Hn) as (l' & w' & out & E & _ & Hk & Hne & _).
  exists l', w'. done.
Qed.

Lemma injector_keeps_input_witness :
  exists l' w',
    add_data_quality_issues (example_generator 1 1 1) 0%nat (lit 2 100) one_frame = inr (l', w')
    /\ heap w' !! 0%nat = Some small_frame /\ l' <> 0%nat.
Proof.
  apply (injector_keeps_input (example_generator 1 1 1) 0%nat small_frame (lit 2 100) one_frame).
  - reflexivity.
  - reflexivity.
Defined.

(** C10. The first N rows of the result agree with the rows of the input on
    the protected columns, every other cell is the cell of the input or
    missing, and the columns are those of the input. *)
Theorem injector_only_blanks self l df rate w :
  heap w !! l = Some df -> (Z.of_nat (len df) < 2 ^ 46)%Z ->
  exists l' w' out,
    add_data_quality_issues self l rate w = inr (l', w')
    /\ heap w' !! l' = Some out
    /\ columns out = columns df
    /\ forall i r, rows df !! i = Some r ->
         exists r', rows out !! i = Some r' /\ length r' = length r
           /\ forall j x, r !! j = Some x ->
                exists x', r' !! j = Some x' /\ (x' = x \/ x' = nan)
                  /\ (forall c, columns df !! j = Some c -> c ∈ protected -> x' = x).
Proof.
  intros Hl Hn.
  destruct (injector_result self l df rate w Hl Hn)
    as (l' & w' & out & E & Ho & _ & _ & Hcols & corrupted & dups & idx & Hr & Hc & _).
  exists l', w', out. split_and!; try done.
  intros i r Hi. destruct (Forall2_lookup_l _ _ _ _ _ Hc Hi) as (r' & Hi' & [Hlen Hcells]).
  exists r'. split_and!; [|exact Hlen|].
  - rewrite Hr. by apply lookup_app_l_Some.
  - intros j x Hx. destruct (lookup_lt_is_Some_2 r' j) as [x' Hx'].
    { rewrite Hlen. eapply lookup_lt_Some, Hx. }
    exists x'. split; [exact Hx'|].
    destruct (Hcells j x x' Hx Hx') as [->|[-> (c & Hcj & Hp)]].
    + split; [by left | done].
    + split; [by right|]. intros c' Hc' Hin. apply is_protected_elem in Hin. congruence.
Qed.

Lemma injector_only_blanks_witness :
  exists l' w' out,
    add_data_quality_issues (example_generator 1 1 1) 0%nat (lit 2 100) one_frame = inr (l', w')
    /\ heap w' !! l' = Some out
    /\ columns out = columns small_frame
    /\ forall i r, rows small_frame !! i = Some r ->
         exists r', rows out !! i = Some r' /\ length r' = length r
           /\ forall j x, r !! j = Some x ->
                exists x', r' !! j = Some x' /\ (x' = x \/ x' = nan)
                  /\ (forall c, columns small_frame !! j = Some c -> c ∈ protected -> x' = x).
Proof.
  apply (injector_only_blanks (example_generator 1 1 1) 0%nat small_frame (lit 2 100) one_frame).
  - reflexivity.
  - reflexivity.
Defined.

End InjectorProperties.

(** ** Properties of customers and products *)

Section TableProperties.

Local Open Scope prog_scope.

Lemma example_configured nc np nt : configured (example_generator nc np nt).
Proof. split; reflexivity. Qed.

(** C7. The customer generator produces N records whose [customer_id]s are
    CUST_00000, CUST_00001, ... in order, N distinct strings. *)
Theorem customers_sequential_ids self w :
  (1 <= n_customers self)%Z ->
  exists l w' df,
    generate_customers self w = inr (l, w')
    /\ heap w' !! l = Some df
    /\ len df = Z.to_nat (n_customers self)
    /\ getitem df "customer_id" = inr (Series (customer_ids (Z.to_nat (n_customers self))))
    /\ length (customer_ids (Z.to_nat (n_customers self))) = Z.to_nat (n_customers self)
    /\ NoDup (customer_ids (Z.to_nat (n_customers self))).
Proof.
  intros Hn.
  destruct (generate_customers_spec self w ltac:(lia)) as (l & w' & E & df & Ha & _ & Hlen & Hget).
  exists l, w', df. split_and!; try done.
  - eapply allocated_lookup, Ha.
  - unfold customer_ids. rewrite length_fmap, length_seq. reflexivity.
  - apply customer_ids_NoDup.
Qed.

Lemma customers_sequential_ids_witness :
  exists l w' df,
    generate_customers (example_generator 3 2 4) empty_world = inr (l, w')
    /\ heap w' !! l = Some df
    /\ len df = 3%nat
    /\ getitem df "customer_id" = inr (Series [CStr "CUST_00000"; CStr "CUST_00001"; CStr "CUST_00002"])
    /\ length (customer_ids 3) = 3%nat
    /\ NoDup (customer_ids 3).
Proof.
  apply (customers_sequential_ids (example_generator 3 2 4) empty_world).
  simpl. lia.
Defined.

(** What [generate_products] leaves on the heap, read back. *)
Lemma generate_products_rows self w l w' df :
  configured self ->
  generate_products self w = inr (l, w') -> heap w' !! l = Some df ->
  len df = Z.to_nat (n_products self)
  /\ Forall (fun r => columns df = product_columns /\ exists i, product_ok self i r) (rows df).
Proof.
  intros Hcfg E Hdf.
  destruct (generate_products_spec self w Hcfg) as (l1 & w1 & E1 & records & Ha & Hrec).
  rewrite E in E1. injection E1 as <- <-.
  apply allocated_lookup in Ha. rewrite Hdf in Ha. injection Ha as ->.
  unfold len. rewrite DataFrame_of_records_rows. split.
  - apply Forall2_length in Hrec. rewrite <- Hrec. unfold range. by rewrite length_seq.
  - apply Forall_forall. intros r Hr. apply list_elem_of_lookup in Hr as [i Hi].
    destruct (Forall2_lookup_r _ _ _ _ _ Hrec Hi) as (j & _ & Hok).
    destruct records; [by rewrite lookup_nil in Hi|]. eauto.
Qed.

Lemma generate_products_returns self w :
  configured self ->
  exists l w' df, generate_products self w = inr (l, w') /\ heap w' !! l = Some df.
Proof.
  intros Hcfg.
  destruct (generate_products_spec self w Hcfg) as (l & w' & E & records & Ha & _).
  exists l, w', (DataFrame_of_records product_columns records).
  split; [exact E | eapply allocated_lookup, Ha].
Qed.

(** C8. Every product record has a price inside the range configured for its
    category and a cost between 40% and 70% of the minimum of that range,
    after the rounding to two decimals. *)
Theorem products_within_ranges self w :
  configured self ->
  exists l w' df,
    generate_products self w = inr (l, w')
    /\ heap w' !! l = Some df
    /\ len df = Z.to_nat (n_products self)
    /\ Forall (fun r => exists category lo hi price cost,
                  row_getitem (columns df) r "category" = inr (CStr category)
                  /\ row_getitem (columns df) r "price" = inr (CNum (Finite price))
                  /\ row_getitem (columns df) r "cost" = inr (CNum (Finite cost))
                  /\ price_ranges self !! category = Some (lo, hi)
                  /\ (inject_Z lo <= price /\ price <= inject_Z hi)%Q
                  /\ ((2 # 5) * inject_Z lo <= cost /\ cost <= (7 # 10) * inject_Z lo)%Q
                  /\ flt (Finite cost) (fmul (of_Z lo) (lit 4 10)) = false
                  /\ flt (fmul (of_Z lo) (lit 7 10)) (Finite cost) = false)
         (rows df).
Proof.
  intros Hcfg.
  destruct (generate_products_returns self w Hcfg) as (l & w' & df & E & Hdf).
  destruct (generate_products_rows self w l w' df Hcfg E Hdf) as [Hlen Hall].
  exists l, w', df. split_and!; try done.
  eapply Forall_impl; [exact Hall|]. intros r [-> (i & Hok)].
  destruct Hok as (category & lo & hi & price & cost & a & b & -> & Hlk & Hpl & Hph
                   & Ea & Ha' & Eb & Hb' & Hcl & Hch & Hlo).
  exists category, lo, hi, price, cost. rewrite Ea, Eb. cbn [flt].
  split_and!; try done.
  - rewrite <- Ha'. exact Hcl.
  - rewrite <- Hb'. exact Hch.
  - apply negb_false_iff, Qle_bool_iff, Hcl.
  - apply negb_false_iff, Qle_bool_iff, Hch.
Qed.

Lemma products_within_ranges_witness :
  exists l w' df,
    generate_products (example_generator 3 2 4) empty_world = inr (l, w')
    /\ heap w' !! l = Some df
    /\ len df = 2%nat
    /\ Forall (fun r => exists category lo hi price cost,
                  row_getitem (columns df) r "category" = inr (CStr category)
                  /\ row_getitem (columns df) r "price" = inr (CNum (Finite price))
                  /\ row_getitem (columns df) r "cost" = inr (CNum (Finite cost))
                  /\ price_ranges (example_generator 3 2 4) !! category = Some (lo, hi)
                  /\ (inject_Z lo <= price /\ price <= inject_Z hi)%Q
                  /\ ((2 # 5) * inject_Z lo <= cost /\ cost <= (7 # 10) * inject_Z lo)%Q
                  /\ flt (Finite cost) (fmul (of_Z lo) (lit 4 10)) = false
                  /\ flt (fmul (of_Z lo) (lit 7 10)) (Finite cost) = false)
         (rows df).
Proof.
  apply (products_within_ranges (example_generator 3 2 4) empty_world).
  split; reflexivity.
Defined.

(** In a record of the product table the cost is below the price. *)
Lemma product_ok_cost_lt_price self i r price cost :
  product_ok self i r ->
  row_getitem product_columns r "price" = inr (CNum price) ->
  row_getitem product_columns r "cost" = inr (CNum cost) ->
  flt cost price = true.
Proof.
  intros (category & lo & hi & price' & cost' & a & b & -> & Hlk & Hpl & Hph
          & Ea & Ha' & Eb & Hb' & Hcl & Hch & Hlo) Hp Hc.
  cbn in Hp, Hc. injection Hp as <-. injection Hc as <-.
  cbn [flt]. apply negb_true_iff.
  destruct (Qle_bool price' cost') eqn:Hle; [|reflexivity].
  apply Qle_bool_iff in Hle. exfalso. lra.
Qed.

(** C2, as the code has it. The cost of every product record is less than
    its price: the cost is at most 70% of the minimum of the range the price
    is drawn from. *)
Theorem products_cost_below_price self w :
  configured self ->
  exists l w' df,
    generate_products self w = inr (l, w')
    /\ heap w' !! l = Some df
    /\ Forall (fun r => exists price cost,
                  row_getitem (columns df) r "price" = inr (CNum price)
                  /\ row_getitem (columns df) r "cost" = inr (CNum cost)
                  /\ flt cost price = true)
         (rows df).
Proof.
  intros Hcfg.
  destruct (generate_products_returns self w Hcfg) as (l & w' & df & E & Hdf).
  destruct (generate_products_rows self w l w' df Hcfg E Hdf) as [_ Hall].
  exists l, w', df. split_and!; try done.
  eapply Forall_impl; [exact Hall|]. intros r [-> (i & Hok)].
  pose proof Hok as (category & lo & hi & price & cost & a & b & -> & _).
  exists (Finite price), (Finite cost). split_and!; try reflexivity.
  eapply product_ok_cost_lt_price; [exact Hok | reflexivity | reflexivity].
Qed.

Lemma products_cost_below_price_witness :
  exists l w' df,
    generate_products (example_generator 3 2 4) empty_world = inr (l, w')
    /\ heap w' !! l = Some df
    /\ Forall (fun r => exists price cost,
                  row_getitem (columns df) r "price" = inr (CNum price)
                  /\ row_getitem (columns df) r "cost" = inr (CNum cost)
                  /\ flt cost price = true)
         (rows df).
Proof.
  apply (products_cost_below_price (example_generator 3 2 4) empty_world).
  split; reflexivity.
Defined.

(** C2, as the spec has it, does not hold: no run of the product generator
    yields a record whose cost is not less than its price. *)
Lemma no_product_costs_its_price :
  ~ exists self w l w' df r price cost,
      configured self
      /\ generate_products self w = inr (l, w') /\ heap w' !! l = Some df
      /\ r ∈ rows df
      /\ row_getitem (columns df) r "price" = inr (CNum price)
      /\ row_getitem (columns df) r "cost" = inr (CNum cost)
      /\ flt cost price = false.
Proof.
  intros (self & w & l & w' & df & r & price & cost & Hcfg & E & Hdf & Hr & Hp & Hc & Hlt).
  destruct (generate_products_rows self w l w' df Hcfg E Hdf) as [_ Hall].
  rewrite Forall_forall in Hall. destruct (Hall r Hr) as [Hcols (i & Hok)].
  rewrite Hcols in Hp, Hc.
  rewrite (product_ok_cost_lt_price self i r price cost Hok Hp Hc) in Hlt. discriminate.
Qed.

(** C3, as the spec has it, does not hold: counts that are zero or negative
    are accepted. *)
Lemma init_accepts_nonpositive_counts :
  ~ exists e, __init__ 0 (-5) 0 empty_world = inl e.
Proof. intros [e H]. discriminate H. Qed.

(** C3, as the code has it. The constructor accepts every three counts, also
    zero and negative ones: it stores them with the two tables and checks
    nothing. *)
Theorem init_stores_counts nc np nt w :
  exists self,
    __init__ nc np nt w = inr (self, w)
    /\ n_customers self = nc /\ n_products self = np /\ n_transactions self = nt
    /\ configured self.
Proof. eexists. split; [reflexivity|]. split_and!; try reflexivity. split; reflexivity. Qed.

End TableProperties.

(** ** Properties of transactions *)

Section TransactionProperties.

Local Open Scope prog_scope.

(** What [generate_transactions] leaves on the heap, read back. *)
Lemma generate_transactions_rows self lc lp cdf pdf w :
  heap w !! lc = Some cdf -> heap w !! lp = Some pdf ->
  (1 <= len pdf)%nat ->
  unique_column cdf "customer_id" ->
  unique_column pdf "product_id" ->
  numeric_column pdf "price" ->
  ((1 <= n_transactions self)%Z -> np_draw_nonzero w 0 (len cdf)) ->
  exists l w' df ids,
    generate_transactions self lc lp w = inr (l, w')
    /\ heap w' !! l = Some df
    /\ len df = Z.to_nat (n_transactions self)
    /\ getitem cdf "customer_id" = inr (Series ids)
    /\ Forall (fun r => columns df = transaction_columns
                        /\ exists i, transaction_ok ids pdf i r) (rows df).
Proof.
  intros Hc Hp Hlp Hcid Hpid Hnum Hnz.
  destruct (generate_transactions_spec self lc lp cdf pdf w Hc Hp Hlp Hcid Hpid Hnum Hnz)
    as (l & w' & E & ids & records & Ha & Hids & Hrec).
  exists l, w', (DataFrame_of_records transaction_columns records), ids.
  split_and!; [exact E | eapply allocated_lookup, Ha | | exact Hids |].
  - unfold len. rewrite DataFrame_of_records_rows.
    apply Forall2_length in Hrec. rewrite <- Hrec. unfold range. by rewrite length_seq.
  - rewrite DataFrame_of_records_rows. apply Forall_forall. intros r Hr.
    apply list_elem_of_lookup in Hr as [i Hi].
    destruct (Forall2_lookup_r _ _ _ _ _ Hrec Hi) as (j & _ & Hok).
    destruct records; [by rewrite lookup_nil in Hi|]. eauto.
Qed.

(** C6, as the code has it. Given a customer table and a product table that
    are not empty, with one column [customer_id], one column [product_id]
    and numbers in the one column [price], and given that the exponential
    variates drawn for the customers are not all zero, the transaction
    generator ends without an exception and returns T records; the
    [customer_id] of each is one of the customer table, its [product_id] one
    of the product table. *)
Theorem transactions_reference_tables self lc lp cdf pdf w :
  heap w !! lc = Some cdf -> heap w !! lp = Some pdf ->
  (1 <= n_transactions self)%Z ->
  (1 <= len cdf)%nat -> (1 <= len pdf)%nat ->
  unique_column cdf "customer_id" ->
  unique_column pdf "product_id" ->
  numeric_column pdf "price" ->
  np_draw_nonzero w 0 (len cdf) ->
  exists l w' df ids pids,
    generate_transactions self lc lp w = inr (l, w')
    /\ heap w' !! l = Some df
    /\ len df = Z.to_nat (n_transactions self)
    /\ getitem cdf "customer_id" = inr (Series ids)
    /\ getitem pdf "product_id" = inr (Series pids)
    /\ Forall (fun r => exists cid pid,
                  row_getitem (columns df) r "customer_id" = inr cid /\ cid ∈ ids
                  /\ row_getitem (columns df) r "product_id" = inr pid /\ pid ∈ pids)
         (rows df).
Proof.
  intros Hc Hp Hn Hlc Hlp Hcid Hpid Hnum Hnz.
  destruct (generate_transactions_rows self lc lp cdf pdf w Hc Hp Hlp Hcid Hpid Hnum
              (fun _ => Hnz))
    as (l & w' & df & ids & E & Hdf & Hlen & Hids & Hall).
  destruct (getitem_elem pdf "product_id" Hpid) as (pids & Hpids & _ & Hin).
  exists l, w', df, ids, pids. split_and!; try done.
  eapply Forall_impl; [exact Hall|]. intros r [-> (i & Hok)].
  destruct Hok as (cid & product & pid & date & q & price & d & -> & Hci & Hprod & Hpi & _).
  exists cid, pid. split_and!; try done.
  destruct (Hin product Hprod) as (x & Hx & Hxin). congruence.
Qed.

Lemma transactions_reference_tables_witness :
  exists l w' df ids pids,
    generate_transactions (example_generator 1 1 2) 0%nat 1%nat mixed_tables = inr (l, w')
    /\ heap w' !! l = Some df
    /\ len df = 2%nat
    /\ getitem one_customer "customer_id" = inr (Series ids)
    /\ getitem one_product "product_id" = inr (Series pids)
    /\ Forall (fun r => exists cid pid,
                  row_getitem (columns df) r "customer_id" = inr cid /\ cid ∈ ids
                  /\ row_getitem (columns df) r "product_id" = inr pid /\ pid ∈ pids)
         (rows df).
Proof.
  apply (transactions_reference_tables (example_generator 1 1 2) 0%nat 1%nat
           one_customer one_product mixed_tables).
  - reflexivity.
  - reflexivity.
  - simpl. lia.
  - vm_compute. lia.
  - vm_compute. lia.
  - reflexivity.
  - reflexivity.
  - repeat constructor. eexists. reflexivity.
  - exists 0%nat. split; [vm_compute; lia | vm_compute; discriminate].
Defined.

(** C6, as the spec has it, does not hold: tables that are not empty do
    not keep the generator from failing. With one customer whose exponential
    variate is zero, the weight is zero divided by zero, and the first draw
    of a customer raises [ValueError]. *)
Lemma transactions_fail_on_zero_weights :
  (1 <= len one_customer)%nat /\ (1 <= len one_product)%nat
  /\ heap zero_weight_tables !! 0%nat = Some one_customer
  /\ heap zero_weight_tables !! 1%nat = Some one_product
  /\ generate_transactions (example_generator 1 1 1) 0%nat 1%nat zero_weight_tables
     = inl ValueError.
Proof.
  split; [vm_compute; lia|]. split; [vm_compute; lia|].
  split; [reflexivity|]. split; [reflexivity|].
  apply (generate_transactions_zero_weights _ _ _ one_customer one_product).
  - reflexivity.
  - reflexivity.
  - vm_compute. lia.
  - left.
  - intros i _. reflexivity.
  - simpl. lia.
Qed.

(** *** The total of a transaction *)

Lemma of_Z_0 : of_Z 0 = Finite 0.
Proof. reflexivity. Qed.

(** Without a discount the code's formula and the reference formula meet. *)
Lemma total_without_discount price quantity s :
  fmul price (of_Z quantity) = Finite s ->
  total_of price quantity (of_Z 0) = reference_total price quantity (of_Z 0).
Proof.
  intros Hs. unfold total_of, reference_total. rewrite Hs. f_equal.
  change (of_Z 0) with (Finite 0). change (fsub (of_Z 1) (Finite 0)) with (Finite 1).
  cbn [fmul]. rewrite (rnd_comp (s * 0) 0) by ring.
  change (rnd 0) with (Finite 0). unfold fsub. cbn [fopp fadd].
  apply rnd_comp. change (Qred (- 0)) with 0%Q. ring.
Qed.

(** C4, as the code has it. The total of every record is
    [round(subtotal - subtotal * discount_pct, 2)] with
    [subtotal = unit_price * quantity], every operation rounded to binary64;
    for a record without discount whose subtotal is finite, that is
    [round(unit_price * quantity * (1 - discount_pct), 2)].  The tables are
    as the generator needs them: not empty, one column [customer_id], one
    column [product_id], numbers in the one column [price], and variates
    for the customers that are not all zero. *)
Theorem transactions_total_amount self lc lp cdf pdf w :
  heap w !! lc = Some cdf -> heap w !! lp = Some pdf ->
  (1 <= n_transactions self)%Z ->
  (1 <= len cdf)%nat -> (1 <= len pdf)%nat ->
  unique_column cdf "customer_id" ->
  unique_column pdf "product_id" ->
  numeric_column pdf "price" ->
  np_draw_nonzero w 0 (len cdf) ->
  exists l w' df,
    generate_transactions self lc lp w = inr (l, w')
    /\ heap w' !! l = Some df
    /\ len df = Z.to_nat (n_transactions self)
    /\ Forall (fun r => exists unit_price quantity discount_pct,
                  row_getitem (columns df) r "unit_price" = inr (CNum unit_price)
                  /\ row_getitem (columns df) r "quantity" = inr (CNum (of_Z quantity))
                  /\ row_getitem (columns df) r "discount_pct" = inr (CNum discount_pct)
                  /\ row_getitem (columns df) r "total_amount"
                     = inr (CNum (total_of unit_price quantity discount_pct))
                  /\ (discount_pct = of_Z 0 ->
                      forall s, fmul unit_price (of_Z quantity) = Finite s ->
                      total_of unit_price quantity discount_pct
                      = reference_total unit_price quantity discount_pct))
         (rows df).
Proof.
  intros Hc Hp Hn Hlc Hlp Hcid Hpid Hnum Hnz.
  destruct (generate_transactions_rows self lc lp cdf pdf w Hc Hp Hlp Hcid Hpid Hnum
              (fun _ => Hnz))
    as (l & w' & df & ids & E & Hdf & Hlen & Hids & Hall).
  exists l, w', df. split_and!; try done.
  eapply Forall_impl; [exact Hall|]. intros r [-> (i & Hok)].
  destruct Hok as (cid & product & pid & date & q & price & d & -> & _).
  exists price, q, d. split_and!; try reflexivity.
  intros -> s Hs. by eapply total_without_discount.
Qed.

(** The two records of the run below: the first with a discount of 0.1,
    where the total 4.72 is not the 4.73 of the reference formula, the
    second without discount, where the two agree on 5.25. *)
Lemma mixed_tables_rows :
  match generate_transactions (example_generator 1 1 2) 0%nat 1%nat mixed_tables with
  | inr (l0, w0) => rows <$> (heap w0 !! l0)
  | inl _ => None
  end = Some [[CStr "TXN_000000"; CStr "CUST_00000"; CStr "PROD_00000";
               CDate 1063470240; CNum (of_Z 1); CNum (lit 525 100);
               CNum (lit 1 10); CNum (lit 472 100)];
              [CStr "TXN_000001"; CStr "CUST_00000"; CStr "PROD_00000";
               CDate 1063470240; CNum (of_Z 1); CNum (lit 525 100);
               CNum (of_Z 0); CNum (lit 525 100)]].
Proof. vm_compute. reflexivity. Qed.

Lemma transactions_total_amount_witness :
  exists l w' df,
    generate_transactions (example_generator 1 1 2) 0%nat 1%nat mixed_tables = inr (l, w')
    /\ heap w' !! l = Some df
    /\ len df = 2%nat
    /\ Forall (fun r => exists unit_price quantity discount_pct,
                  row_getitem (columns df) r "unit_price" = inr (CNum unit_price)
                  /\ row_getitem (columns df) r "quantity" = inr (CNum (of_Z quantity))
                  /\ row_getitem (columns df) r "discount_pct" = inr (CNum discount_pct)
                  /\ row_getitem (columns df) r "total_amount"
                     = inr (CNum (total_of unit_price quantity discount_pct))
                  /\ (discount_pct = of_Z 0 ->
                      forall s, fmul unit_price (of_Z quantity) = Finite s ->
                      total_of unit_price quantity discount_pct
                      = reference_total unit_price quantity discount_pct))
         (rows df).
Proof.
  apply (transactions_total_amount (example_generator 1 1 2) 0%nat 1%nat
           one_customer one_product mixed_tables).
  - reflexivity.
  - reflexivity.
  - simpl. lia.
  - vm_compute. lia.
  - vm_compute. lia.
  - reflexivity.
  - reflexivity.
  - repeat constructor. eexists. reflexivity.
  - exists 0%nat. split; [vm_compute; lia | vm_compute; discriminate].
Defined.

(** C4, as the spec has it, does not hold. A product at 5.25, one unit and a
    discount of 0.1: the code writes the total 4.72, the reference formula
    gives 4.73. *)
Lemma total_differs_from_reference :
  exists l w' r,
    generate_transactions (example_generator 1 1 1) 0%nat 1%nat two_tables = inr (l, w')
    /\ rows <$> (heap w' !! l) = Some [r]
    /\ row_getitem transaction_columns r "unit_price" = inr (CNum (lit 525 100))
    /\ row_getitem transaction_columns r "quantity" = inr (CNum (of_Z 1))
    /\ row_getitem transaction_columns r "discount_pct" = inr (CNum (lit 1 10))
    /\ row_getitem transaction_columns r "total_amount" = inr (CNum (lit 472 100))
    /\ reference_total (lit 525 100) 1 (lit 1 10) = lit 473 100
    /\ lit 472 100 <> lit 473 100.
Proof.
  assert (G : match generate_transactions (example_generator 1 1 1) 0%nat 1%nat two_tables with
              | inr (l0, w0) => rows <$> (heap w0 !! l0)
              | inl _ => None
              end = Some [[CStr "TXN_000000"; CStr "CUST_00000"; CStr "PROD_00000";
                   CDate 1063470240; CNum (of_Z 1); CNum (lit 525 100);
                   CNum (lit 1 10); CNum (lit 472 100)]]) by (vm_compute; reflexivity).
  destruct (generate_transactions (example_generator 1 1 1) 0%nat 1%nat two_tables)
    as [e|[l w']]; [discriminate|].
  exists l, w'. eexists. split; [exact eq_refl|]. split; [exact G|].
  split; [vm_compute; exact eq_refl|]. split; [vm_compute; exact eq_refl|].
  split; [vm_compute; exact eq_refl|]. split; [vm_compute; exact eq_refl|].
  split; [vm_compute; exact eq_refl|]. vm_compute. discriminate.
Qed.

End TransactionProperties.

(** ** Properties of the orchestrator *)

Section OrchestratorProperties.

Local Open Scope prog_scope.

(** On the empty disk the default directories can be created, [data] with
    them, and the six files are opened where their paths say. *)
Lemma start_disk_ready :
  disk_ready start_world "data/raw" "data/processed" default_dirs split_slash.
Proof.
  exists {[ ["data"]; ["data"; "raw"] ]}%string.
  split; [vm_compute; reflexivity|].
  split; [vm_compute; reflexivity|].
  repeat constructor.
Qed.

(** The run of the orchestrator, read back from the disk. *)
Lemma generate_all_files self o c w D place :
  configured self ->
  (1 <= n_customers self)%Z -> (1 <= n_products self)%Z ->
  (n_transactions self < 2 ^ 46)%Z ->
  weights_defined self w ->
  disk_ready w o c D place ->
  exists w' C P T R,
    generate_all self o c w = inr (tt, w')
    /\ generated self (with_dirs w D) C P T
    /\ files w' !! place (path c "customers.csv") = Some C
    /\ files w' !! place (path c "products.csv") = Some P
    /\ files w' !! place (path c "transactions.csv") = Some T
    /\ files w' !! place (path o "customers_raw.csv") = Some C
    /\ files w' !! place (path o "products_raw.csv") = Some P
    /\ files w' !! place (path o "transactions_raw.csv") = Some R
    /\ len C = Z.to_nat (n_customers self)
    /\ len P = Z.to_nat (n_products self)
    /\ len T = Z.to_nat (n_transactions self)
    /\ injected T R.
Proof.
  intros Hcfg Hnc Hnp Hnt Hwd Hdisk.
  destruct (generate_all_spec self o c w D place Hcfg Hnc Hnp Hnt Hwd Hdisk)
    as ([] & w' & E & C & P & T & R & ids & precs & trecs & Hf & _ & Hgen & _ & HlenC & _ & _
        & HP & Hprecs & HT & Htrecs & Hinj).
  destruct (written_lookups w o c D place C P T R Hdisk) as (L1 & L2 & L3 & L4 & L5 & L6).
  exists w', C, P, T, R. rewrite Hf. split_and!; try done.
  - rewrite HP. unfold len. rewrite DataFrame_of_records_rows.
    apply Forall2_length in Hprecs. rewrite <- Hprecs. unfold range. by rewrite length_seq.
  - rewrite HT. unfold len. rewrite DataFrame_of_records_rows.
    apply Forall2_length in Htrecs. rewrite <- Htrecs. unfold range. by rewrite length_seq.
Qed.

(** C1, as the code has it. On a disk that lets the run through, the
    orchestrator writes the three tables to the clean directory as the
    generators returned them; to the raw directory it writes the customers
    and the products again as they were returned, and the transactions
    after they went through the injector. *)
Theorem generate_all_raw_set self o c w D place :
  configured self ->
  (1 <= n_customers self)%Z -> (1 <= n_products self)%Z ->
  (n_transactions self < 2 ^ 46)%Z ->
  weights_defined self w ->
  disk_ready w o c D place ->
  exists w' customers products transactions transactions_raw,
    generate_all self o c w = inr (tt, w')
    /\ generated self (with_dirs w D) customers products transactions
    /\ files w' !! place (path c "customers.csv") = Some customers
    /\ files w' !! place (path c "products.csv") = Some products
    /\ files w' !! place (path c "transactions.csv") = Some transactions
    /\ files w' !! place (path o "customers_raw.csv") = Some customers
    /\ files w' !! place (path o "products_raw.csv") = Some products
    /\ files w' !! place (path o "transactions_raw.csv") = Some transactions_raw
    /\ len customers = Z.to_nat (n_customers self)
    /\ len products = Z.to_nat (n_products self)
    /\ len transactions = Z.to_nat (n_transactions self)
    /\ injected transactions transactions_raw.
Proof. apply generate_all_files. Qed.

Lemma generate_all_raw_set_witness :
  exists w' customers products transactions transactions_raw,
    generate_all (example_generator 3 2 4) "data/raw" "data/processed" start_world = inr (tt, w')
    /\ generated (example_generator 3 2 4) (with_dirs start_world default_dirs)
         customers products transactions
    /\ files w' !! ["data"; "processed"; "customers.csv"]%string = Some customers
    /\ files w' !! ["data"; "processed"; "products.csv"]%string = Some products
    /\ files w' !! ["data"; "processed"; "transactions.csv"]%string = Some transactions
    /\ files w' !! ["data"; "raw"; "customers_raw.csv"]%string = Some customers
    /\ files w' !! ["data"; "raw"; "products_raw.csv"]%string = Some products
    /\ files w' !! ["data"; "raw"; "transactions_raw.csv"]%string = Some transactions_raw
    /\ len customers = 3%nat
    /\ len products = 2%nat
    /\ len transactions = 4%nat
    /\ injected transactions transactions_raw.
Proof.
  apply (generate_all_raw_set (example_generator 3 2 4) "data/raw" "data/processed"
           start_world default_dirs split_slash).
  - split; reflexivity.
  - simpl. lia.
  - simpl. lia.
  - reflexivity.
  - intros _. exists 0%nat. split; [simpl; lia | vm_compute; discriminate].
  - exact start_disk_ready.
Defined.

(** C1, as the spec has it, does not hold. With 100 customers the raw
    customer file is the clean one, 100 rows, while every run of the
    injector on that table returns 101 rows. *)
Lemma raw_customers_are_not_injected :
  exists w' customers,
    generate_all (example_generator 100 1 1) "data/raw" "data/processed" start_world
    = inr (tt, w')
    /\ files w' !! ["data"; "processed"; "customers.csv"]%string = Some customers
    /\ files w' !! ["data"; "raw"; "customers_raw.csv"]%string = Some customers
    /\ len customers = 100%nat
    /\ forall self l rate w1 l1 w2 out,
         heap w1 !! l = Some customers ->
         add_data_quality_issues self l rate w1 = inr (l1, w2) ->
         heap w2 !! l1 = Some out ->
         len out = 101%nat.
Proof.
  destruct (generate_all_files (example_generator 100 1 1) "data/raw" "data/processed"
              start_world default_dirs split_slash)
    as (w' & C & P & T & R & E & _ & L1 & _ & _ & L4 & _ & _ & HlenC & _);
    [split; reflexivity | simpl; lia | simpl; lia | reflexivity
    | intros _; exists 0%nat; split; [simpl; lia | vm_compute; discriminate]
    | exact start_disk_ready |].
  exists w', C.
  split; [exact E|]. split; [exact L1|]. split; [exact L4|]. split; [exact HlenC|].
  intros self l rate w1 l1 w2 out Hl E1 Hout.
  assert (HlenC' : len C = 100%nat) by exact HlenC.
  assert (Hn : (Z.of_nat (len C) < 2 ^ 46)%Z) by (rewrite HlenC'; reflexivity).
  destruct (injector_result self l C rate w1 Hl Hn) as (l' & w'' & out' & E' & Ho' & _ & _ & Hinj).
  rewrite E1 in E'. injection E' as <- <-. rewrite Hout in Ho'. injection Ho' as <-.
  apply injected_len in Hinj. rewrite HlenC' in Hinj.
  change (Z.of_nat 100 + Z.of_nat 100 / 100)%Z with (Z.of_nat 101) in Hinj.
  apply Nat2Z.inj in Hinj. exact Hinj.
Qed.

End OrchestratorProperties.

(** ** More about the injector *)

Section InjectorEdges.

Local Open Scope prog_scope.

Lemma never_hits_mask rate draws :
  never_hits rate -> Forall unit_draw draws ->
  Forall (fun b => b = false) ((fun u => flt u rate) <$> draws).
Proof.
  intros Hr Hd. apply Forall_fmap. eapply Forall_impl; [exact Hd|].
  intros x (u & -> & Hu0 & Hu1). destruct rate as [r|s|]; cbn in *.
  - apply negb_false_iff, Qle_bool_iff. lra.
  - by subst.
  - reflexivity.
Qed.

Lemma set_rows_no_hit cols col v mask rs :
  Forall (fun b => b = false) mask -> set_rows cols col v mask rs = rs.
Proof.
  intros Hm. revert rs. induction Hm as [|b mask -> _ IH]; intros [|r rs]; cbn; try done.
  by rewrite IH.
Qed.

Lemma eq_mask_stable cols rate rows0 :
  never_hits rate -> mask_stable eq cols rate rows0.
Proof.
  intros Hr col draws rs _ Hd Hrs.
  rewrite set_rows_no_hit; [exact Hrs | by apply never_hits_mask].
Qed.

Lemma Forall2_eq_refl {A} (l : list A) : Forall2 eq l l.
Proof. induction l; constructor; done. Qed.

Lemma Forall2_eq_inv {A} (l k : list A) : Forall2 eq l k -> l = k.
Proof. induction 1; congruence. Qed.

(** X1. With a rate of zero or less, or NaN, nothing is blanked: the result is
    the input followed by the block of duplicates. *)
Theorem injector_without_missing_values self l df rate w :
  heap w !! l = Some df -> (Z.of_nat (len df) < 2 ^ 46)%Z ->
  never_hits rate ->
  exists l' w' dups,
    add_data_quality_issues self l rate w = inr (l', w')
    /\ heap w' !! l' = Some (mkDataFrame (columns df) (rows df ++ dups))
    /\ Z.of_nat (length dups) = (Z.of_nat (len df) / 100)%Z
    /\ Forall (fun r => r ∈ rows df) dups.
Proof.
  intros Hl Hn Hr.
  destruct (injector_spec eq self l df rate w Hl Hn (Forall2_eq_refl _)
              (eq_mask_stable _ _ _ Hr))
    as (l' & w' & E & c & corrupted & dups & idx & Hh & _ & _ & _ & _ & _ & Hcor & Hil & _ & Hd).
  apply Forall2_eq_inv in Hcor. subst corrupted.
  exists l', w', dups. split_and!; [exact E | | |].
  - rewrite Hh. apply lookup_insert_eq.
  - apply Forall2_length in Hd. rewrite <- Hd, Hil.
    pose proof (Z.div_pos (Z.of_nat (len df)) 100 ltac:(lia) ltac:(lia)). lia.
  - clear -Hd. induction Hd as [|i r idx dups Hi _ IH]; constructor; [|exact IH].
    eapply list_elem_of_lookup_2, Hi.
Qed.

Lemma injector_without_missing_values_witness :
  exists l' w' dups,
    add_data_quality_issues (example_generator 1 1 1) 0%nat (of_Z 0) one_frame = inr (l', w')
    /\ heap w' !! l' = Some (mkDataFrame (columns small_frame) (rows small_frame ++ dups))
    /\ Z.of_nat (length dups) = (Z.of_nat (len small_frame) / 100)%Z
    /\ Forall (fun r => r ∈ rows small_frame) dups.
Proof.
  apply (injector_without_missing_values (example_generator 1 1 1) 0%nat small_frame
           (of_Z 0) one_frame).
  - reflexivity.
  - reflexivity.
  - vm_compute. discriminate.
Defined.

(** X2. The block of duplicates is taken at distinct positions of the rows that
    precede it, one position for every full hundred of rows: a row is
    appended at most once per position. *)
Theorem injector_duplicates_distinct self l df rate w :
  heap w !! l = Some df -> (Z.of_nat (len df) < 2 ^ 46)%Z ->
  exists l' w' out idx,
    add_data_quality_issues self l rate w = inr (l', w')
    /\ heap w' !! l' = Some out
    /\ NoDup idx
    /\ Forall (fun i => (i < len df)%nat) idx
    /\ drop (len df) (rows out) = omap (fun i => firstn (len df) (rows out) !! i) idx
    /\ length idx = length (drop (len df) (rows out))
    /\ length idx = Z.to_nat (Z.of_nat (len df) / 100).
Proof.
  intros Hl Hn.
  destruct (add_data_quality_issues_spec self l df rate w Hl Hn)
    as (l' & w' & E & c & corrupted & dups & idx & Hh & _ & _ & _ & _ & _ & Hcor & Hil & Hnd & Hd).
  exists l', w', (mkDataFrame (columns df) (corrupted ++ dups)), idx.
  assert (Hcl : length corrupted = len df) by (apply Forall2_length in Hcor; unfold len; lia).
  cbn [rows]. rewrite <- Hcl, drop_app_length, take_app_length.
  split_and!; try done.
  - rewrite Hh. apply lookup_insert_eq.
  - clear -Hd. induction Hd as [|i r idx dups Hi _ IH]; constructor; [|exact IH].
    eapply lookup_lt_Some, Hi.
  - clear -Hd. induction Hd as [|i r idx dups Hi _ IH]; [done|].
    cbn [omap list_omap]. rewrite Hi. cbn. by rewrite <- IH.
  - by apply Forall2_length in Hd.
  - by rewrite Hcl.
Qed.

Lemma injector_duplicates_distinct_witness :
  exists l' w' out idx,
    add_data_quality_issues (example_generator 1 1 1) 0%nat (lit 2 100) many_rows_world
    = inr (l', w')
    /\ heap w' !! l' = Some out
    /\ NoDup idx
    /\ Forall (fun i => (i < 250)%nat) idx
    /\ drop 250 (rows out) = omap (fun i => firstn 250 (rows out) !! i) idx
    /\ length idx = length (drop 250 (rows out))
    /\ length idx = 2%nat.
Proof.
  apply (injector_duplicates_distinct (example_generator 1 1 1) 0%nat many_rows
           (lit 2 100) many_rows_world).
  - reflexivity.
  - reflexivity.
Defined.

(** X3. The injector touches no frame that was on the heap before the call, no
    file and no directory: it only adds frames. *)
Theorem injector_frame self l df rate w :
  heap w !! l = Some df -> (Z.of_nat (len df) < 2 ^ 46)%Z ->
  exists l' w',
    add_data_quality_issues self l rate w = inr (l', w')
    /\ heap w ⊆ heap w'
    /\ heap w !! l' = None
    /\ files w' = files w /\ dirs w' = dirs w.
Proof.
  intros Hl Hn.
  destruct (add_data_quality_issues_spec self l df rate w Hl Hn)
    as (l' & w' & E & c & corrupted & dups & idx & Hh & Hc & Hl' & Hne & Hd & Hf & _).
  exists l', w'. split_and!; try done.
  rewrite Hh. etrans; [apply (insert_subseteq (heap w) c); exact Hc|].
  apply insert_subseteq. rewrite lookup_insert_ne; [exact Hl' | done].
Qed.

Lemma injector_frame_witness :
  exists l' w',
    add_data_quality_issues (example_generator 1 1 1) 0%nat (lit 2 100) one_frame = inr (l', w')
    /\ heap one_frame ⊆ heap w'
    /\ heap one_frame !! l' = None
    /\ files w' = files one_frame /\ dirs w' = dirs one_frame.
Proof.
  apply (injector_frame (example_generator 1 1 1) 0%nat small_frame (lit 2 100) one_frame).
  - reflexivity.
  - reflexivity.
Defined.

End InjectorEdges.

(** ** What the customer and product tables hold *)

Section TableContents.

Local Open Scope prog_scope.

Lemma DataFrame_of_columns_4_rows c1 c2 c3 c4 (l1 l2 l3 l4 : list cell) :
  length l2 = length l1 -> length l3 = length l1 -> length l4 = length l1 ->
  DataFrame_of_columns [(c1, l1); (c2, l2); (c3, l3); (c4, l4)]
  = inr (mkDataFrame [c1; c2; c3; c4]
           ((fun i : nat => [default nan (l1 !! i); default nan (l2 !! i);
                             default nan (l3 !! i); default nan (l4 !! i)])
              <$> seq 0 (length l1))).
Proof.
  intros H2 H3 H4. unfold DataFrame_of_columns. cbn [forallb snd].
  rewrite H2, H3, H4, !Nat.eqb_refl. reflexivity.
Qed.

Lemma generate_customers_full self w :
  (0 <= n_customers self)%Z ->
  returns (generate_customers self) w
    (fun l w' => exists records,
         allocated w w' l (mkDataFrame customer_columns records)
         /\ Forall2 customer_ok (range (n_customers self)) records).
Proof.
  intros Hn. unfold generate_customers. set (n := Z.to_nat (n_customers self)).
  apply returns_bind.
  eapply returns_weaken.
  { apply (returns_forM (range (n_customers self)) _ (same_store w)
             (fun _ y => exists d, y = CDate (datetime_2022_01_01 + timedelta d 0 0)
                                   /\ (0 <= d <= 700)%Z)).
    - apply same_store_refl.
    - intros ? w1 _ H1. apply returns_bind.
      eapply returns_weaken; [apply random_randint_spec; lia|].
      intros d w2 [Hd H2]. apply returns_ret. split; [eauto|].
      eapply same_store_trans; eassumption. }
  intros dates w1 [Hd H1]. pose proof (Forall2_length _ _ _ Hd) as Hdl.
  unfold range in Hdl. rewrite length_seq in Hdl. fold n in Hdl.
  apply returns_bind.
  eapply returns_weaken; [apply np_random_choice_spec; [done | exact Hn]|].
  intros country w2 (Hc & Hcin & H2). fold n in Hc.
  apply returns_bind. eapply returns_lift; [apply segment_probabilities|].
  apply returns_bind.
  eapply returns_weaken;
    [apply np_random_choice_p_n_spec; [done | exact segment_p_valid | exact Hn]|].
  intros segment w3 (Hsg & Hsin & H3). fold n in Hsg.
  set (ids := (fun i => CStr ("CUST_" +:+ format_d 5 i)) <$> range (n_customers self)).
  assert (Hid : length ids = n).
  { unfold ids, range. rewrite length_fmap, length_seq. reflexivity. }
  apply returns_bind. eapply returns_lift.
  { apply DataFrame_of_columns_4_rows; rewrite Hid, ?length_fmap; lia. }
  eapply returns_weaken; [apply alloc_spec|].
  intros l w4 Hal. eexists. split.
  - eapply allocated_same_store; [|exact Hal].
    eapply same_store_trans; [exact H1|]. eapply same_store_trans; eassumption.
  - rewrite Hid. unfold range. fold n.
    apply Forall2_fmap_r, Forall2_same_length_lookup_2; [done|].
    intros i x y Hx Hy. rewrite Hx in Hy. injection Hy as <-.
    apply lookup_seq in Hx as [-> Hi]. cbn in Hi |- *.
    destruct (Forall2_lookup_l _ _ _ i i Hd) as (dc & Hdc & d & -> & Hdr).
    { unfold range. fold n. by apply lookup_seq. }
    destruct (lookup_lt_is_Some_2 country i ltac:(lia)) as [co Hco].
    destruct (lookup_lt_is_Some_2 segment i ltac:(lia)) as [sg Hsg'].
    unfold ids, range. fold n.
    rewrite !list_lookup_fmap, Hdc, Hco, Hsg', lookup_seq_lt by lia. cbn.
    exists d, co, sg. split_and!; try done; try lia.
    + rewrite Forall_forall in Hcin. eapply Hcin, list_elem_of_lookup_2, Hco.
    + rewrite Forall_forall in Hsin. eapply Hsin, list_elem_of_lookup_2, Hsg'.
Qed.

(** X4. Every customer record carries a registration date between 2022-01-01
    and 700 days later, at midnight, one of the six countries and one of the
    three segments. *)
Theorem customers_records self w :
  (0 <= n_customers self)%Z ->
  exists l w' df,
    generate_customers self w = inr (l, w')
    /\ heap w' !! l = Some df
    /\ columns df = ["customer_id"; "registration_date"; "country"; "segment"]%string
    /\ Forall (fun r => exists date country segment,
                  row_getitem (columns df) r "registration_date" = inr (CDate date)
                  /\ (datetime_2022_01_01 <= date <= datetime_2022_01_01 + 700 * 1440)%Z
                  /\ (1440 | date - datetime_2022_01_01)%Z
                  /\ row_getitem (columns df) r "country" = inr (CStr country)
                  /\ country ∈ ["USA"; "UK"; "Germany"; "France"; "Canada"; "Australia"]%string
                  /\ row_getitem (columns df) r "segment" = inr (CStr segment)
                  /\ segment ∈ ["New"; "Regular"; "VIP"]%string)
         (rows df).
Proof.
  intros Hn.
  destruct (generate_customers_full self w Hn) as (l & w' & E & records & Ha & Hrec).
  exists l, w', (mkDataFrame customer_columns records).
  split_and!; [exact E | eapply allocated_lookup, Ha | reflexivity |].
  cbn [rows columns]. apply Forall_forall. intros r Hr.
  apply list_elem_of_lookup in Hr as [i Hi].
  destruct (Forall2_lookup_r _ _ _ _ _ Hrec Hi) as (j & _ & d & co & sg & -> & Hd & Hco & Hsg).
  exists (datetime_2022_01_01 + timedelta d 0 0)%Z, co, sg.
  unfold timedelta. split_and!; try done; try lia.
  exists (d)%Z. lia.
Qed.

Lemma customers_records_witness :
  exists l w' df,
    generate_customers (example_generator 3 2 4) empty_world = inr (l, w')
    /\ heap w' !! l = Some df
    /\ columns df = ["customer_id"; "registration_date"; "country"; "segment"]%string
    /\ Forall (fun r => exists date country segment,
                  row_getitem (columns df) r "registration_date" = inr (CDate date)
                  /\ (datetime_2022_01_01 <= date <= datetime_2022_01_01 + 700 * 1440)%Z
                  /\ (1440 | date - datetime_2022_01_01)%Z
                  /\ row_getitem (columns df) r "country" = inr (CStr country)
                  /\ country ∈ ["USA"; "UK"; "Germany"; "France"; "Canada"; "Australia"]%string
                  /\ row_getitem (columns df) r "segment" = inr (CStr segment)
                  /\ segment ∈ ["New"; "Regular"; "VIP"]%string)
         (rows df).
Proof.
  apply (customers_records (example_generator 3 2 4) empty_world).
  simpl. lia.
Defined.

(** X5. A count of zero gives a customer table with its four columns and no
    row. *)
Theorem customers_zero_count self w :
  n_customers self = 0%Z ->
  exists l w',
    generate_customers self w = inr (l, w')
    /\ heap w' !! l
       = Some (mkDataFrame ["customer_id"; "registration_date"; "country"; "segment"]%string []).
Proof.
  intros H0. destruct (generate_customers_full self w ltac:(lia))
    as (l & w' & E & records & Ha & Hrec).
  rewrite H0 in Hrec. apply Forall2_nil_inv_l in Hrec as ->.
  exists l, w'. split; [exact E | eapply allocated_lookup, Ha].
Qed.

Lemma customers_zero_count_witness :
  exists l w',
    generate_customers (example_generator 0 2 4) empty_world = inr (l, w')
    /\ heap w' !! l
       = Some (mkDataFrame ["customer_id"; "registration_date"; "country"; "segment"]%string []).
Proof.
  apply (customers_zero_count (example_generator 0 2 4) empty_world). reflexivity.
Defined.

(** X6. A negative count is refused by numpy, where the country column is drawn:
    [ValueError]. *)
Theorem customers_negative_count self w :
  (n_customers self < 0)%Z -> generate_customers self w = inl ValueError.
Proof. apply generate_customers_negative. Qed.

Lemma customers_negative_count_witness :
  generate_customers (example_generator (-1) 2 4) empty_world = inl ValueError.
Proof.
  apply (customers_negative_count (example_generator (-1) 2 4) empty_world). reflexivity.
Defined.

Lemma product_ids_NoDup n : NoDup (product_ids n).
Proof.
  apply NoDup_fmap_seq. intros i j H. injection H as H. by apply format_d_inj in H.
Qed.

(** X7. With M >= 1 the product table has M records whose [product_id]s are
    PROD_00000, PROD_00001, ... in order, all distinct, and the name of each
    is its category followed by "Product" and its position. *)
Theorem products_sequential_ids self w :
  configured self -> (1 <= n_products self)%Z ->
  exists l w' df,
    generate_products self w = inr (l, w')
    /\ heap w' !! l = Some df
    /\ columns df = ["product_id"; "product_name"; "category"; "price"; "cost"]%string
    /\ getitem df "product_id" = inr (Series (product_ids (Z.to_nat (n_products self))))
    /\ NoDup (product_ids (Z.to_nat (n_products self)))
    /\ forall i r, rows df !! i = Some r ->
         exists category,
           row_getitem (columns df) r "category" = inr (CStr category)
           /\ row_getitem (columns df) r "product_name"
              = inr (CStr (category +:+ " Product " +:+ format_d 0 i)).
Proof.
  intros Hcfg Hn.
  destruct (generate_products_spec self w Hcfg) as (l & w' & E & records & Ha & Hrec).
  exists l, w', (DataFrame_of_records product_columns records).
  pose proof (Forall2_length _ _ _ Hrec) as Hlen. unfold range in Hlen, Hrec.
  rewrite length_seq in Hlen.
  destruct records as [|r0 records]; [simpl in Hlen; lia|].
  cbn [DataFrame_of_records columns rows].
  split_and!; [exact E | eapply allocated_lookup, Ha | reflexivity | | apply product_ids_NoDup |].
  - unfold getitem. cbn [columns rows]. cbn [product_columns column_index String.eqb Ascii.eqb Bool.eqb].
    change (occurrences "product_id" ["product_id"; "product_name"; "category"; "price"; "cost"])
      with 1%nat. cbn [Nat.eqb].
    do 2 f_equal. unfold product_ids. rewrite Hlen.
    apply list_eq. intros i. rewrite !list_lookup_fmap.
    destruct (decide (i < length (r0 :: records))%nat) as [Hi|Hi].
    + destruct (lookup_lt_is_Some_2 _ _ Hi) as [r Hr]. rewrite Hr, lookup_seq_lt by exact Hi.
      destruct (Forall2_lookup_r _ _ _ _ _ Hrec Hr) as (j & Hj & Hok).
      apply lookup_seq in Hj as [-> _].
      destruct Hok as (category & lo & hi & price & cost & a & b & -> & _). reflexivity.
    + rewrite lookup_seq_ge by lia. rewrite (proj2 (lookup_ge_None _ _)) by lia. reflexivity.
  - intros i r Hr. destruct (Forall2_lookup_r _ _ _ _ _ Hrec Hr) as (j & Hj & Hok).
    apply lookup_seq in Hj as [-> _].
    destruct Hok as (category & lo & hi & price & cost & a & b & -> & _).
    exists category. split; reflexivity.
Qed.

Lemma products_sequential_ids_witness :
  exists l w' df,
    generate_products (example_generator 3 2 4) empty_world = inr (l, w')
    /\ heap w' !! l = Some df
    /\ columns df = ["product_id"; "product_name"; "category"; "price"; "cost"]%string
    /\ getitem df "product_id" = inr (Series [CStr "PROD_00000"; CStr "PROD_00001"])
    /\ NoDup (product_ids 2)
    /\ forall i r, rows df !! i = Some r ->
         exists category,
           row_getitem (columns df) r "category" = inr (CStr category)
           /\ row_getitem (columns df) r "product_name"
              = inr (CStr (category +:+ " Product " +:+ format_d 0 i)).
Proof.
  apply (products_sequential_ids (example_generator 3 2 4) empty_world).
  - split; reflexivity.
  - simpl. lia.
Defined.

(** X8. With a count of zero or less the product table has no row and no column:
    asking it for [product_id] raises [KeyError]. *)
Theorem products_degenerate_count self w :
  (n_products self <= 0)%Z ->
  exists l w',
    generate_products self w = inr (l, w')
    /\ heap w' !! l = Some (mkDataFrame [] [])
    /\ getitem (mkDataFrame [] []) "product_id" = inl KeyError.
Proof.
  intros Hn. unfold generate_products, range.
  replace (Z.to_nat (n_products self)) with 0%nat by lia. cbn [seq forM].
  destruct (alloc_spec (DataFrame_of_records product_columns []) w) as (l & w' & E & Ha).
  exists l, w'. split_and!.
  - unfold bind, ret. exact E.
  - eapply allocated_lookup, Ha.
  - reflexivity.
Qed.

Lemma products_degenerate_count_witness :
  exists l w',
    generate_products (example_generator 3 0 4) empty_world = inr (l, w')
    /\ heap w' !! l = Some (mkDataFrame [] [])
    /\ getitem (mkDataFrame [] []) "product_id" = inl KeyError.
Proof.
  apply (products_degenerate_count (example_generator 3 0 4) empty_world).
  simpl. lia.
Defined.

End TableContents.

(** ** What the transaction table holds *)

Section TransactionContents.

Local Open Scope prog_scope.

Section DiscountValues.
Local Open Scope Q_scope.

(** Rounding keeps the order of two values that are not negative. *)
Lemma rnd_monotone lo x hi :
  0 <= lo -> lo <= x -> x <= hi -> round_fin hi < pow2 1024 ->
  exists q, rnd x = Finite q /\ round_fin lo <= q /\ q <= round_fin hi.
Proof.
  intros H0 Hl Hh Hmax.
  pose proof (round_fin_mono lo x H0 Hl) as H1.
  pose proof (round_fin_mono x hi ltac:(lra) Hh) as H2.
  pose proof (round_fin_nonneg lo H0) as H3.
  unfold rnd. cbv zeta.
  assert (Habs : Qabs (round_fin x) == round_fin x) by (apply Qabs_pos; lra).
  destruct (Qle_bool (pow2 1024) (Qabs (round_fin x))) eqn:E.
  - apply Qle_bool_iff in E. rewrite Habs in E. lra.
  - exists (Qred (round_fin x)). split; [reflexivity|].
    pose proof (Qred_correct (round_fin x)). split; lra.
Qed.

Lemma discount_operands :
  lit 5 100 = Finite discount_low /\ fsub (lit 3 10) (lit 5 100) = Finite discount_span
  /\ is_float discount_span /\ 0 <= discount_span /\ 0 <= discount_low
  /\ round_fin (discount_low + discount_span) < pow2 1024
  /\ rne (round_fin (discount_low + 0) * 100) = 5%Z
  /\ rne (round_fin (discount_low + discount_span) * 100) = 30%Z.
Proof.
  split_and!.
  - vm_compute. reflexivity.
  - vm_compute. reflexivity.
  - unfold is_float. vm_compute. reflexivity.
  - vm_compute. discriminate.
  - vm_compute. discriminate.
  - apply Qlt_trans with (pow2 1); [vm_compute; reflexivity | apply pow2_lt; lia].
  - vm_compute. reflexivity.
  - vm_compute. reflexivity.
Qed.

Lemma lit_of_rne k : rnd (inject_Z k / 100) = lit k 100.
Proof.
  unfold lit. apply rnd_comp. rewrite (Qmake_Qdiv k 100). reflexivity.
Qed.

(** A discount is absent or is one of 0.05, 0.06, ..., 0.30. *)
Lemma discount_two_decimals d :
  discount_ok d -> d = of_Z 0 \/ exists k, (5 <= k <= 30)%Z /\ d = lit k 100.
Proof.
  intros [->|(u & [Hu0 Hu1] & ->)]; [by left | right].
  destruct discount_operands as (Ea & Ed & Fd & Hd0 & Ha0 & Hmax & R5 & R30).
  rewrite Ed, Ea. cbn [fmul].
  destruct (rnd_between 0 discount_span (discount_span * u) is_float_0 Fd) as (t & Et & Ht0 & Htd);
    [lra | nra | nra | |].
  { apply Qlt_trans with (pow2 1); [vm_compute; reflexivity | apply pow2_lt; lia]. }
  rewrite Et. cbn [fadd].
  destruct (rnd_monotone (discount_low + 0) (discount_low + t) (discount_low + discount_span)) as (q & Eq & Hql & Hqh);
    [lra | lra | lra | exact Hmax |].
  rewrite Eq. cbn [py_round2]. exists (rne (q * 100)). split.
  - rewrite <- R5, <- R30. split; apply rne_mono; lra.
  - apply lit_of_rne.
Qed.

End DiscountValues.

Lemma transaction_ids_NoDup n : NoDup (transaction_ids n).
Proof.
  apply NoDup_fmap_seq. intros i j H. injection H as H. by apply format_d_inj in H.
Qed.

(** X9. The [transaction_id]s are TXN_000000, TXN_000001, ... in the order of
    generation, all distinct. *)
Theorem transactions_sequential_ids self lc lp cdf pdf w :
  heap w !! lc = Some cdf -> heap w !! lp = Some pdf ->
  (1 <= n_transactions self)%Z ->
  (1 <= len cdf)%nat -> (1 <= len pdf)%nat ->
  unique_column cdf "customer_id" ->
  unique_column pdf "product_id" ->
  numeric_column pdf "price" ->
  np_draw_nonzero w 0 (len cdf) ->
  exists l w' df,
    generate_transactions self lc lp w = inr (l, w')
    /\ heap w' !! l = Some df
    /\ getitem df "transaction_id"
       = inr (Series (transaction_ids (Z.to_nat (n_transactions self))))
    /\ NoDup (transaction_ids (Z.to_nat (n_transactions self))).
Proof.
  intros Hc Hp Hn Hlc Hlp Hcid Hpid Hnum Hnz.
  destruct (generate_transactions_spec self lc lp cdf pdf w Hc Hp Hlp Hcid Hpid Hnum
              (fun _ => Hnz))
    as (l & w' & E & ids & records & Ha & Hids & Hrec).
  exists l, w', (DataFrame_of_records transaction_columns records).
  pose proof (Forall2_length _ _ _ Hrec) as Hlen. unfold range in Hlen, Hrec.
  rewrite length_seq in Hlen.
  destruct records as [|r0 records]; [simpl in Hlen; lia|].
  cbn [DataFrame_of_records].
  split_and!; [exact E | eapply allocated_lookup, Ha | | apply transaction_ids_NoDup].
  unfold getitem. cbn [columns rows].
  cbn [transaction_columns column_index String.eqb Ascii.eqb Bool.eqb].
  change (occurrences "transaction_id"
            ["transaction_id"; "customer_id"; "product_id"; "transaction_date";
             "quantity"; "unit_price"; "discount_pct"; "total_amount"]) with 1%nat.
  cbn [Nat.eqb].
  do 2 f_equal. unfold transaction_ids. rewrite Hlen.
  apply list_eq. intros i. rewrite !list_lookup_fmap.
  destruct (decide (i < length (r0 :: records))%nat) as [Hi|Hi].
  - destruct (lookup_lt_is_Some_2 _ _ Hi) as [r Hr]. rewrite Hr, lookup_seq_lt by exact Hi.
    destruct (Forall2_lookup_r _ _ _ _ _ Hrec Hr) as (j & Hj & Hok).
    apply lookup_seq in Hj as [-> _].
    destruct Hok as (cid & product & pid & date & q & price & d & -> & _). reflexivity.
  - rewrite lookup_seq_ge by lia. rewrite (proj2 (lookup_ge_None _ _)) by lia. reflexivity.
Qed.

Lemma transactions_sequential_ids_witness :
  exists l w' df,
    generate_transactions (example_generator 1 1 2) 0%nat 1%nat mixed_tables = inr (l, w')
    /\ heap w' !! l = Some df
    /\ getitem df "transaction_id" = inr (Series [CStr "TXN_000000"; CStr "TXN_000001"])
    /\ NoDup (transaction_ids 2).
Proof.
  apply (transactions_sequential_ids (example_generator 1 1 2) 0%nat 1%nat
           one_customer one_product mixed_tables).
  - reflexivity.
  - reflexivity.
  - simpl. lia.
  - vm_compute. lia.
  - vm_compute. lia.
  - reflexivity.
  - reflexivity.
  - repeat constructor. eexists. reflexivity.
  - exists 0%nat. split; [vm_compute; lia | vm_compute; discriminate].
Defined.

(** X10. Every transaction lies between 2023-01-01 00:00 and 2024-12-31 23:59,
    has a quantity from 1 to 5 and a discount that is absent or one of
    0.05, 0.06, ..., 0.30. *)
Theorem transactions_field_ranges self lc lp cdf pdf w :
  heap w !! lc = Some cdf -> heap w !! lp = Some pdf ->
  (1 <= n_transactions self)%Z ->
  (1 <= len cdf)%nat -> (1 <= len pdf)%nat ->
  unique_column cdf "customer_id" ->
  unique_column pdf "product_id" ->
  numeric_column pdf "price" ->
  np_draw_nonzero w 0 (len cdf) ->
  exists l w' df,
    generate_transactions self lc lp w = inr (l, w')
    /\ heap w' !! l = Some df
    /\ len df = Z.to_nat (n_transactions self)
    /\ Forall (fun r => exists date quantity discount,
                  row_getitem (columns df) r "transaction_date" = inr (CDate date)
                  /\ (datetime_2023_01_01 <= date <= datetime_2024_12_31 + 23 * 60 + 59)%Z
                  /\ row_getitem (columns df) r "quantity" = inr (CNum (of_Z quantity))
                  /\ (1 <= quantity <= 5)%Z
                  /\ row_getitem (columns df) r "discount_pct" = inr (CNum discount)
                  /\ (discount = of_Z 0
                      \/ exists k, (5 <= k <= 30)%Z /\ discount = lit k 100))
         (rows df).
Proof.
  intros Hc Hp Hn Hlc Hlp Hcid Hpid Hnum Hnz.
  destruct (generate_transactions_rows self lc lp cdf pdf w Hc Hp Hlp Hcid Hpid Hnum
              (fun _ => Hnz))
    as (l & w' & df & ids & E & Hdf & Hlen & _ & Hall).
  exists l, w', df. split_and!; try done.
  eapply Forall_impl; [exact Hall|]. intros r [-> (i & Hok)].
  destruct Hok as (cid & product & pid & date & q & price & d & -> & _ & _ & _ & _ & Hq & Hd & Hdate).
  exists date, q, d. split; [reflexivity|]. split; [exact Hdate|].
  split; [reflexivity|]. split; [exact Hq|]. split; [reflexivity|].
  by apply discount_two_decimals.
Qed.

Lemma transactions_field_ranges_witness :
  exists l w' df,
    generate_transactions (example_generator 1 1 2) 0%nat 1%nat mixed_tables = inr (l, w')
    /\ heap w' !! l = Some df
    /\ len df = 2%nat
    /\ Forall (fun r => exists date quantity discount,
                  row_getitem (columns df) r "transaction_date" = inr (CDate date)
                  /\ (datetime_2023_01_01 <= date <= datetime_2024_12_31 + 23 * 60 + 59)%Z
                  /\ row_getitem (columns df) r "quantity" = inr (CNum (of_Z quantity))
                  /\ (1 <= quantity <= 5)%Z
                  /\ row_getitem (columns df) r "discount_pct" = inr (CNum discount)
                  /\ (discount = of_Z 0
                      \/ exists k, (5 <= k <= 30)%Z /\ discount = lit k 100))
         (rows df).
Proof.
  apply (transactions_field_ranges (example_generator 1 1 2) 0%nat 1%nat
           one_customer one_product mixed_tables).
  - reflexivity.
  - reflexivity.
  - simpl. lia.
  - vm_compute. lia.
  - vm_compute. lia.
  - reflexivity.
  - reflexivity.
  - repeat constructor. eexists. reflexivity.
  - exists 0%nat. split; [vm_compute; lia | vm_compute; discriminate].
Defined.

(** X11. The [unit_price] of a transaction is the price of the product it
    references: both cells are copied from one row of the product table. *)
Theorem transactions_price_of_product self lc lp cdf pdf w :
  heap w !! lc = Some cdf -> heap w !! lp = Some pdf ->
  (1 <= n_transactions self)%Z ->
  (1 <= len cdf)%nat -> (1 <= len pdf)%nat ->
  unique_column cdf "customer_id" ->
  unique_column pdf "product_id" ->
  numeric_column pdf "price" ->
  np_draw_nonzero w 0 (len cdf) ->
  exists l w' df,
    generate_transactions self lc lp w = inr (l, w')
    /\ heap w' !! l = Some df
    /\ len df = Z.to_nat (n_transactions self)
    /\ Forall (fun r => exists product product_id unit_price,
                  product ∈ rows pdf
                  /\ row_getitem (columns pdf) product "product_id" = inr product_id
                  /\ row_getitem (columns pdf) product "price" = inr unit_price
                  /\ row_getitem (columns df) r "product_id" = inr product_id
                  /\ row_getitem (columns df) r "unit_price" = inr unit_price)
         (rows df).
Proof.
  intros Hc Hp Hn Hlc Hlp Hcid Hpid Hnum Hnz.
  destruct (generate_transactions_rows self lc lp cdf pdf w Hc Hp Hlp Hcid Hpid Hnum
              (fun _ => Hnz))
    as (l & w' & df & ids & E & Hdf & Hlen & _ & Hall).
  exists l, w', df. split_and!; try done.
  eapply Forall_impl; [exact Hall|]. intros r [-> (i & Hok)].
  destruct Hok as (cid & product & pid & date & q & price & d & -> & _ & Hprod & Hpi & Hpr & _).
  exists product, pid, (CNum price). split_and!; try done.
Qed.

Lemma transactions_price_of_product_witness :
  exists l w' df,
    generate_transactions (example_generator 1 1 2) 0%nat 1%nat mixed_tables = inr (l, w')
    /\ heap w' !! l = Some df
    /\ len df = 2%nat
    /\ Forall (fun r => exists product product_id unit_price,
                  product ∈ rows one_product
                  /\ row_getitem (columns one_product) product "product_id" = inr product_id
                  /\ row_getitem (columns one_product) product "price" = inr unit_price
                  /\ row_getitem (columns df) r "product_id" = inr product_id
                  /\ row_getitem (columns df) r "unit_price" = inr unit_price)
         (rows df).
Proof.
  apply (transactions_price_of_product (example_generator 1 1 2) 0%nat 1%nat
           one_customer one_product mixed_tables).
  - reflexivity.
  - reflexivity.
  - simpl. lia.
  - vm_compute. lia.
  - vm_compute. lia.
  - reflexivity.
  - reflexivity.
  - repeat constructor. eexists. reflexivity.
  - exists 0%nat. split; [vm_compute; lia | vm_compute; discriminate].
Defined.

End TransactionContents.

(** ** Transactions: inputs that make the generator fail *)

Section TransactionEdges.

Local Open Scope prog_scope.

(** X12. With a count of zero or less the transaction generator reads neither
    table: it returns a new frame without rows and columns, whatever the
    tables hold. *)
Theorem transactions_nonpositive_count self lc lp cdf pdf w :
  heap w !! lc = Some cdf -> heap w !! lp = Some pdf ->
  (n_transactions self <= 0)%Z ->
  exists l w',
    generate_transactions self lc lp w = inr (l, w')
    /\ heap w' !! l = Some (mkDataFrame [] [])
    /\ heap w ⊆ heap w'
    /\ heap w !! l = None.
Proof.
  intros Hc Hp Hn. unfold generate_transactions.
  assert (R : returns (generate_transactions self lc lp) w
                (fun l w' => allocated w w' l (mkDataFrame [] []))).
  { unfold generate_transactions.
    apply returns_bind. eapply returns_weaken; [apply deref_spec, Hc|].
    intros ? w1 [-> ->]. apply returns_bind.
    eapply returns_weaken; [apply deref_spec, Hp|].
    intros ? w1 [-> ->]. apply returns_bind.
    eapply returns_weaken; [apply np_random_exponential_spec|].
    intros drawn w1 (_ & _ & H1). cbv zeta. unfold range.
    replace (Z.to_nat (n_transactions self)) with 0%nat by lia. cbn [seq forM].
    apply returns_bind, returns_ret.
    eapply returns_weaken; [apply alloc_spec|]. intros l w2 Ha.
    eapply allocated_same_store; eassumption. }
  destruct R as (l & w' & E & Hn' & Hh & _). exists l, w'.
  split_and!; [exact E | rewrite Hh; apply lookup_insert_eq | | exact Hn'].
  rewrite Hh. by apply insert_subseteq.
Qed.

Lemma transactions_nonpositive_count_witness :
  exists l w',
    generate_transactions (example_generator 1 1 0) 0%nat 1%nat two_tables = inr (l, w')
    /\ heap w' !! l = Some (mkDataFrame [] [])
    /\ heap two_tables ⊆ heap w'
    /\ heap two_tables !! l = None.
Proof.
  apply (transactions_nonpositive_count (example_generator 1 1 0) 0%nat 1%nat
           one_customer one_product two_tables).
  - reflexivity.
  - reflexivity.
  - simpl. lia.
Defined.

(** X13. A customer table without a [customer_id] column makes the first
    transaction fail with [KeyError]. *)
Theorem transactions_missing_customer_id self lc lp cdf pdf w :
  heap w !! lc = Some cdf -> heap w !! lp = Some pdf ->
  (1 <= n_transactions self)%Z ->
  "customer_id"%string ∉ columns cdf ->
  generate_transactions self lc lp w = inl KeyError.
Proof.
  intros Hc Hp Hn Hcid. unfold generate_transactions.
  apply raises_bind_r. eapply returns_weaken; [apply deref_spec, Hc|].
  intros ? w1 [-> ->]. apply raises_bind_r.
  eapply returns_weaken; [apply deref_spec, Hp|].
  intros ? w1 [-> ->]. apply raises_bind_r.
  eapply returns_weaken; [apply np_random_exponential_spec|].
  intros drawn w1 _. cbv zeta. apply raises_bind_l.
  destruct (range_pos _ Hn) as [l ->]. cbn [forM]. apply raises_bind_l.
  apply raises_bind_l. unfold lift. by rewrite getitem_missing.
Qed.

Lemma transactions_missing_customer_id_witness :
  generate_transactions (example_generator 1 1 1) 0%nat 1%nat no_id_tables = inl KeyError.
Proof.
  apply (transactions_missing_customer_id (example_generator 1 1 1) 0%nat 1%nat
           no_id_customers one_product no_id_tables).
  - reflexivity.
  - reflexivity.
  - simpl. lia.
  - vm_compute. intros H. inversion H as [|? ? ? H']. inversion H'.
Defined.

(** X14. A product table without a [price] column makes the first transaction
    fail with [KeyError], after the draws for customer, product, date,
    quantity and discount; the customer table is such that the draw of the
    customer does not fail before. *)
Theorem transactions_missing_price self lc lp cdf pdf w :
  heap w !! lc = Some cdf -> heap w !! lp = Some pdf ->
  (1 <= n_transactions self)%Z ->
  (1 <= len cdf)%nat -> (1 <= len pdf)%nat ->
  unique_column cdf "customer_id" ->
  np_draw_nonzero w 0 (len cdf) ->
  "price"%string ∉ columns pdf ->
  generate_transactions self lc lp w = inl KeyError.
Proof.
  intros Hc Hp Hn Hlc Hlp Hcid Hnz Hprice.
  eapply first_customer_raises; try eassumption.
  intros w1 _. destruct (getitem_elem cdf "customer_id" Hcid) as (ids & Hget & Hil & _).
  assert (Hine : ids <> []) by (intros ->; simpl in Hil; lia).
  destruct (normalise_valid (variates w 0 (len cdf)) (variates_nonneg _ _ _)
              (variates_positive _ _ _ Hnz)) as (p & Hprob & Hv).
  rewrite length_variates, <- Hil in Hv.
  apply raises_bind_r. eapply returns_lift; [exact Hget|].
  unfold transaction_record. cbv zeta.
  apply raises_bind_r. eapply returns_lift; [reflexivity|].
  apply raises_bind_r. eapply returns_lift; [exact Hprob|].
  apply raises_bind_r.
  eapply returns_weaken; [apply np_random_choice_p_spec; assumption|].
  intros cid w2 _. apply raises_bind_r.
  eapply returns_weaken; [apply (sample_spec pdf 1); [lia | simpl; lia]|].
  intros drawn' w3 (idx & Hcols & Hidl & _ & Hrows & _).
  destruct idx as [|j [|? ?]]; try discriminate.
  inversion Hrows as [|? product ? rest Hj Hrest E1 E2]. subst.
  apply raises_bind_r. eapply returns_weaken; [eapply iloc0_spec; eauto|].
  intros ? w4 [-> ->]. rewrite days_span.
  apply raises_bind_r. eapply returns_weaken; [apply random_randint_spec; lia|].
  intros ? w5 _. apply raises_bind_r.
  eapply returns_weaken; [apply random_randint_spec; lia|].
  intros ? w6 _. apply raises_bind_r.
  eapply returns_weaken; [apply random_randint_spec; lia|].
  intros ? w7 _.
  apply raises_bind_r. eapply returns_lift; [apply quantity_probabilities|].
  apply raises_bind_r.
  eapply returns_weaken;
    [apply (np_random_choice_p_spec [1; 2; 3; 4; 5]%Z); [done | apply quantity_p_valid]|].
  intros quantity w8 _. apply raises_bind_r.
  eapply returns_weaken; [apply random_random_spec|].
  intros r w9 _. apply raises_bind_r.
  apply returns_weaken with (P := fun _ _ => True).
  { destruct (fgt r (lit 2 10)).
    - by apply returns_ret.
    - apply returns_bind. unfold random_uniform. apply returns_bind.
      eapply returns_weaken; [apply random_random_spec|].
      intros ? w10 _. apply returns_ret. by apply returns_ret. }
  intros discount w10 _. apply raises_bind_l.
  unfold lift, row_getitem. by rewrite column_index_None.
Qed.

Lemma transactions_missing_price_witness :
  generate_transactions (example_generator 1 1 1) 0%nat 1%nat no_price_tables = inl KeyError.
Proof.
  apply (transactions_missing_price (example_generator 1 1 1) 0%nat 1%nat
           one_customer no_price_products no_price_tables).
  - reflexivity.
  - reflexivity.
  - simpl. lia.
  - vm_compute. lia.
  - vm_compute. lia.
  - reflexivity.
  - exists 0%nat. split; [vm_compute; lia | vm_compute; discriminate].
  - vm_compute. intros H. inversion H as [|? ? ? H']. inversion H'.
Defined.

(** X20. Variates that are all zero make the weights NaN: with a customer
    table that is not empty the first draw of a customer raises
    [ValueError], whatever the product table holds. *)
Theorem transactions_zero_weights self lc lp cdf pdf w :
  heap w !! lc = Some cdf -> heap w !! lp = Some pdf ->
  (1 <= n_transactions self)%Z ->
  (1 <= len cdf)%nat ->
  "customer_id"%string ∈ columns cdf ->
  np_draws_zero w 0 (len cdf) ->
  generate_transactions self lc lp w = inl ValueError.
Proof.
  intros Hc Hp Hn Hlc Hcid Hz. by eapply generate_transactions_zero_weights.
Qed.

Lemma transactions_zero_weights_witness :
  generate_transactions (example_generator 1 1 1) 0%nat 1%nat zero_weight_tables
  = inl ValueError.
Proof.
  apply (transactions_zero_weights (example_generator 1 1 1) 0%nat 1%nat
           one_customer one_product zero_weight_tables).
  - reflexivity.
  - reflexivity.
  - simpl. lia.
  - vm_compute. lia.
  - vm_compute. left.
  - intros i _. reflexivity.
Defined.

(** X21. Under a label [customer_id] that two columns or more carry,
    [customers['customer_id']] is a frame and not a Series: the first draw
    of a customer raises [ValueError]. *)
Theorem transactions_repeated_customer_id self lc lp cdf pdf w :
  heap w !! lc = Some cdf -> heap w !! lp = Some pdf ->
  (1 <= n_transactions self)%Z ->
  (2 <= occurrences "customer_id" (columns cdf))%nat ->
  generate_transactions self lc lp w = inl ValueError.
Proof.
  intros Hc Hp Hn Hrep. by eapply generate_transactions_repeated_label.
Qed.

Lemma transactions_repeated_customer_id_witness :
  generate_transactions (example_generator 1 1 1) 0%nat 1%nat twice_id_tables
  = inl ValueError.
Proof.
  apply (transactions_repeated_customer_id (example_generator 1 1 1) 0%nat 1%nat
           twice_id_customers one_product twice_id_tables).
  - reflexivity.
  - reflexivity.
  - simpl. lia.
  - vm_compute. lia.
Defined.

(** X22. The generator does not test that the tables hold rows. With a
    customer table without rows, or a product table without rows, the
    first transaction raises [ValueError], inside numpy for the customers
    and inside pandas for the products. *)
Theorem transactions_empty_table self lc lp cdf pdf w :
  heap w !! lc = Some cdf -> heap w !! lp = Some pdf ->
  (1 <= n_transactions self)%Z ->
  "customer_id"%string ∈ columns cdf ->
  len cdf = 0%nat \/ len pdf = 0%nat ->
  generate_transactions self lc lp w = inl ValueError.
Proof.
  intros Hc Hp Hn Hcid [H0|H0].
  - by eapply generate_transactions_no_customers.
  - destruct (decide (len cdf = 0%nat)) as [Hz|Hz].
    + by eapply generate_transactions_no_customers.
    + eapply generate_transactions_no_products; try eassumption. lia.
Qed.

Lemma transactions_empty_table_witness :
  generate_transactions (example_generator 1 1 1) 0%nat 1%nat no_products_tables
  = inl ValueError.
Proof.
  apply (transactions_empty_table (example_generator 1 1 1) 0%nat 1%nat
           one_customer no_products no_products_tables).
  - reflexivity.
  - reflexivity.
  - simpl. lia.
  - vm_compute. left.
  - right. reflexivity.
Defined.

End TransactionEdges.

(** ** The orchestrator: counts, directories, other files *)

Section OrchestratorEdges.

Local Open Scope prog_scope.

Lemma generate_customers_frame self w :
  (0 <= n_customers self)%Z ->
  returns (generate_customers self) w
    (fun l w' => exists df, allocated w w' l df
                   /\ "customer_id"%string ∈ columns df
                   /\ len df = Z.to_nat (n_customers self)).
Proof.
  intros Hn. eapply returns_weaken; [apply generate_customers_spec, Hn|].
  intros l w' (df & Ha & Hcols & Hlen & _). exists df. split_and!; try done.
  rewrite Hcols. unfold customer_columns. set_solver.
Qed.

(** X15. With at least one transaction asked for, a customer count or a product
    count of zero or less is not rejected when the generator is built: once
    the two directories are created, the run of [generate_all] ends in
    [ValueError], raised by numpy or pandas while the tables are
    generated. *)
Theorem generate_all_invalid_counts self o c w D1 D :
  configured self ->
  (1 <= n_transactions self)%Z ->
  (n_customers self <= 0)%Z \/ (n_products self <= 0)%Z ->
  mkdirs o (dirs w) (files w) = inr D1 ->
  mkdirs c D1 (files w) = inr D ->
  generate_all self o c w = inl ValueError.
Proof.
  intros Hcfg Hnt Hbad Hm1 Hm2. unfold generate_all.
  apply raises_bind_r. eexists tt, _. split; [apply makedirs_eq, Hm1|].
  apply raises_bind_r. eexists tt, _.
  split; [apply (makedirs_eq c D (with_dirs w D1)), Hm2|].
  set (w2 := with_dirs (with_dirs w D1) D).
  destruct (Z.lt_ge_cases (n_customers self) 0) as [Hneg|Hnc].
  { apply raises_bind_l. by apply generate_customers_negative. }
  apply raises_bind_r.
  eapply returns_weaken; [apply generate_customers_frame, Hnc|].
  intros lc w3 (C & (HnC & Hh3 & _) & HcolC & HlenC).
  apply raises_bind_r. eapply returns_weaken; [apply generate_products_spec, Hcfg|].
  intros lp w4 (precs & (HnP & Hh4 & _) & Hprecs).
  set (P := DataFrame_of_records product_columns precs) in *.
  assert (HlC4 : heap w4 !! lc = Some C).
  { rewrite Hh4, Hh3. rewrite lookup_insert_ne; [apply lookup_insert_eq|].
    intros ->. rewrite Hh3, lookup_insert_eq in HnP. done. }
  assert (HlP4 : heap w4 !! lp = Some P) by (rewrite Hh4; apply lookup_insert_eq).
  apply raises_bind_l.
  destruct (decide (n_customers self = 0)%Z) as [H0|H0].
  - eapply generate_transactions_no_customers; try eassumption. rewrite HlenC, H0. reflexivity.
  - assert (Hnp : (n_products self <= 0)%Z) by lia.
    eapply generate_transactions_no_products; try eassumption; [lia|].
    unfold range in Hprecs. replace (Z.to_nat (n_products self)) with 0%nat in Hprecs by lia.
    apply Forall2_nil_inv_l in Hprecs. unfold P. rewrite Hprecs. reflexivity.
Qed.

Lemma generate_all_invalid_counts_witness :
  generate_all (example_generator 0 5 20) "data/raw" "data/processed" start_world
  = inl ValueError.
Proof.
  apply (generate_all_invalid_counts (example_generator 0 5 20)
           "data/raw" "data/processed" start_world
           {[ ["data"]; ["data"; "raw"] ]}%string default_dirs).
  - split; reflexivity.
  - simpl. lia.
  - left. simpl. lia.
  - vm_compute. reflexivity.
  - vm_compute. reflexivity.
Defined.

Lemma injected_empty R : injected (mkDataFrame [] []) R -> R = mkDataFrame [] [].
Proof.
  intros (Hcols & corrupted & dups & idx & Hrows & Hcor & Hil & _ & Hd).
  cbn in Hcols, Hcor, Hil. apply Forall2_nil_inv_l in Hcor as ->.
  destruct idx; [|discriminate]. apply Forall2_nil_inv_l in Hd as ->.
  destruct R as [cols rs]. cbn in *. by subst.
Qed.

(** X16. With a transaction count of zero or less the run succeeds on a disk
    that lets it through, and both transaction files hold the frame without
    rows and columns: the header of the eight columns is lost. *)
Theorem generate_all_without_transactions self o c w D place :
  configured self ->
  (1 <= n_customers self)%Z -> (1 <= n_products self)%Z ->
  (n_transactions self <= 0)%Z ->
  disk_ready w o c D place ->
  exists w',
    generate_all self o c w = inr (tt, w')
    /\ files w' !! place (path c "transactions.csv") = Some (mkDataFrame [] [])
    /\ files w' !! place (path o "transactions_raw.csv") = Some (mkDataFrame [] []).
Proof.
  intros Hcfg Hnc Hnp Hnt Hdisk.
  assert (Hwd : weights_defined self w) by (intros H1; lia).
  destruct (generate_all_spec self o c w D place Hcfg Hnc Hnp ltac:(lia) Hwd Hdisk)
    as ([] & w' & E & C & P & T & R & ids & precs & trecs & Hf & _ & _ & _ & _ & _ & _
        & _ & _ & HT & Htrecs & Hinj).
  unfold range in Htrecs. replace (Z.to_nat (n_transactions self)) with 0%nat in Htrecs by lia.
  apply Forall2_nil_inv_l in Htrecs. subst trecs. cbn in HT. subst T.
  apply injected_empty in Hinj. subst R.
  destruct (written_lookups w o c D place C P (mkDataFrame [] []) (mkDataFrame [] []) Hdisk)
    as (_ & _ & L3 & _ & _ & L6).
  exists w'. rewrite Hf. done.
Qed.

Lemma generate_all_without_transactions_witness :
  exists w',
    generate_all (example_generator 3 2 0) "data/raw" "data/processed" start_world
    = inr (tt, w')
    /\ files w' !! ["data"; "processed"; "transactions.csv"]%string = Some (mkDataFrame [] [])
    /\ files w' !! ["data"; "raw"; "transactions_raw.csv"]%string = Some (mkDataFrame [] []).
Proof.
  apply (generate_all_without_transactions (example_generator 3 2 0)
           "data/raw" "data/processed" start_world default_dirs split_slash).
  - split; reflexivity.
  - simpl. lia.
  - simpl. lia.
  - simpl. lia.
  - exact start_disk_ready.
Defined.

(** X17. A run that gets through leaves the directories that the two calls of
    [os.makedirs] leave, which keeps the directories there were, and
    changes no file but the six it writes. *)
Theorem generate_all_keeps_other_files self o c w D place :
  configured self ->
  (1 <= n_customers self)%Z -> (1 <= n_products self)%Z ->
  (n_transactions self < 2 ^ 46)%Z ->
  weights_defined self w ->
  disk_ready w o c D place ->
  exists w',
    generate_all self o c w = inr (tt, w')
    /\ dirs w' = D
    /\ dirs w ⊆ dirs w'
    /\ forall q, q ∉ place <$> the_files o c -> files w' !! q = files w !! q.
Proof.
  intros Hcfg Hnc Hnp Hnt Hwd Hdisk.
  destruct (generate_all_spec self o c w D place Hcfg Hnc Hnp Hnt Hwd Hdisk)
    as ([] & w' & E & C & P & T & R & ids & precs & trecs & Hf & Hd & _).
  exists w'. split_and!; [exact E | exact Hd | |].
  - destruct Hdisk as (D1 & H1%mkdirs_subseteq & H2%mkdirs_subseteq & _).
    rewrite Hd. set_solver.
  - intros q Hq. rewrite Hf. by apply written_other.
Qed.

Lemma generate_all_keeps_other_files_witness :
  exists w',
    generate_all (example_generator 3 2 4) "data/raw" "data/processed" start_world
    = inr (tt, w')
    /\ dirs w' = default_dirs
    /\ dirs start_world ⊆ dirs w'
    /\ forall q, q ∉ split_slash <$> the_files "data/raw" "data/processed" ->
         files w' !! q = files start_world !! q.
Proof.
  apply (generate_all_keeps_other_files (example_generator 3 2 4)
           "data/raw" "data/processed" start_world default_dirs split_slash).
  - split; reflexivity.
  - simpl. lia.
  - simpl. lia.
  - reflexivity.
  - intros _. exists 0%nat. split; [simpl; lia | vm_compute; discriminate].
  - exact start_disk_ready.
Defined.





(** The directories of the defaults: [data] is among them. *)
Lemma dirs_of_defaults :
  dirs_of "data/processed" ∪ (dirs_of "data/raw" ∪ ∅) = default_dirs.
Proof. vm_compute. reflexivity. Qed.

(** X18. [int(n * 0.01)], computed in binary64 as the code does, is the integer
    quotient [n // 100] for every length below 2^46. *)
Theorem duplicate_count_is_quotient n :
  (0 <= n < 2 ^ 46)%Z ->
  int_of_float (fmul (of_Z n) (lit 1 100)) = inr (n / 100)%Z.
Proof. apply n_duplicates_exact. Qed.

Lemma duplicate_count_is_quotient_witness :
  int_of_float (fmul (of_Z 5000) (lit 1 100)) = inr (5000 / 100)%Z.
Proof. apply (duplicate_count_is_quotient 5000). lia. Defined.

(** X19. An identifier can be read back: the digits that [f'{i:0wd}'] prints
    parse to [i], and there are at least [w] of them. *)
Theorem format_d_round_trip w i :
  Nat.of_uint <$> NilEmpty.uint_of_string (format_d w i) = Some i
  /\ (w <= String.length (format_d w i))%nat.
Proof.
  unfold format_d. split.
  - rewrite NilEmpty.usu. cbn. by rewrite of_uint_zero_fill, DecimalNat.Unsigned.of_to.
  - assert (L : forall d, String.length (NilEmpty.string_of_uint d) = Decimal.nb_digits d).
    { induction d; cbn; congruence. }
    assert (Z : forall k d, Decimal.nb_digits (zero_fill k d) = (k + Decimal.nb_digits d)%nat).
    { induction k; intros d; cbn; [done|]. by rewrite IHk. }
    rewrite L, Z. lia.
Qed.

End OrchestratorEdges.
